(** * FDA Food Enforcement connector: a shallow embedding of [connector.py]

    The development embeds the functions of the connector
    ([validate_configuration], [flatten_dict], [update] with its
    pagination loop, [get_latest_report_date],
    [make_api_request_with_retry] and
    [process_food_enforcement_records]) and settles the properties
    stated about them.

    Modelling choices, all visible in the definitions below:
    - JSON data is the inductive [value]; a Python [dict] is an
      insertion-ordered association list with the update-in-place
      semantics of [d[k] = v] ([dict_set]) and of [dict(items)]
      ([dict_of_items]).
    - A Python [str] is a [string]; each character stands for one code
      point (8-bit code points only), compared by code as Python does.
    - Effects are explicit: a computation takes the world counters (how
      many HTTP calls and clock readings happened so far) and returns its
      result together with the events it emitted (HTTP requests with
      their outcome, sleeps, upserts, checkpoints, log lines), in order.
    - The network, the wall clock and three Python built-ins that the
      repository does not define ([int] on a string, [json.dumps] and
      [str] on a list) are fields of the environment [Env].
    - The [while] loop of [update] is a fuelled recursion; [update]
      supplies enough fuel, which [update_total] proves.
    - Logging is part of the events; the text of a log line is kept as a
      constructor of [message] with the values it interpolates.
    - Resource limits of the interpreter (recursion depth, memory) are
      not modelled: flattening a mapping always succeeds. *)

From Stdlib Require Import ZArith List String Ascii Bool Lia QArith.
From Stdlib Require Import Sorting.Sorted Sorting.Permutation.
From Stdlib Require Import Floats.SpecFloat.
From Stdlib Require Import Numbers.DecimalString.
Import ListNotations.

Local Open Scope string_scope.
Local Open Scope list_scope.
Local Open Scope Z_scope.

Set Warnings "-register-all".

(* ================================================================== *)
(** ** JSON values and Python dictionaries *)
(* ================================================================== *)

(** What [response.json()] can produce. *)
Inductive value : Type :=
| VNone
| VBool (b : bool)
| VInt (z : Z)
| VFloat (f : spec_float)
| VStr (s : string)
| VList (l : list value)
| VDict (d : list (string * value)).

(** A dict with string keys, in insertion order. *)
Definition dict (A : Type) : Type := list (string * A).

Definition keys {A : Type} (d : dict A) : list string := map fst d.

(** [d.get(k)] *)
Fixpoint dict_get {A : Type} (k : string) (d : dict A) : option A :=
  match d with
  | [] => None
  | (k', v) :: rest => if String.eqb k' k then Some v else dict_get k rest
  end.

(** [d[k] = v]: an existing key keeps its position, a new key goes last. *)
Fixpoint dict_set {A : Type} (k : string) (v : A) (d : dict A) : dict A :=
  match d with
  | [] => [(k, v)]
  | (k', v') :: rest =>
      if String.eqb k' k then (k', v) :: rest else (k', v') :: dict_set k v rest
  end.

(** [dict(items)] *)
Definition dict_of_items {A : Type} (items : list (string * A)) : dict A :=
  fold_left (fun d kv => dict_set (fst kv) (snd kv) d) items [].

(** Python truthiness of a JSON value ([if v:]). *)
Definition truthy (v : value) : bool :=
  match v with
  | VNone => false
  | VBool b => b
  | VInt z => negb (z =? 0)
  | VFloat f => match f with S754_zero _ => false | _ => true end
  | VStr s => negb (String.eqb s "")
  | VList l => match l with [] => false | _ => true end
  | VDict d => match d with [] => false | _ => true end
  end.

(** Truthiness of the result of [d.get(k)], [None] when the key is absent. *)
Definition truthy_opt (o : option value) : bool :=
  match o with Some v => truthy v | None => false end.

(** A value that is neither a mapping nor a sequence. *)
Definition is_scalar (v : value) : bool :=
  match v with VList _ | VDict _ => false | _ => true end.

(* ================================================================== *)
(** ** Exceptions, HTTP, persisted state, events *)
(* ================================================================== *)

Inductive exn : Type :=
| ValueError (msg : string)
| TypeError
| AttributeError
| ConnectionError (msg : string)   (* requests: network failure, timeout *)
| HTTPError (status : Z)           (* requests: raise_for_status *)
| JSONDecodeError                  (* response.json() on an undecodable body *)
| RuntimeError (cause : exn).      (* "Failed to sync data: {str(e)}" *)

(** The exceptions caught by [except requests.exceptions.RequestException]
    among those the retry client's [try] block can raise. *)
Definition is_request_exception (e : exn) : bool :=
  match e with
  | ConnectionError _ | HTTPError _ => true
  | _ => false
  end.

Record Response : Type := mkResponse {
  status_code : Z;
  json_body : option value   (* [None]: the body is not JSON *)
}.

(** What one call of [requests.get] does. *)
Inductive Attempt : Type :=
| NetworkFailure (msg : string)
| Responded (r : Response).

(** [Response.raise_for_status] raises for 4xx and 5xx codes;
    [bool(response)] is [response.ok], true exactly when it does not. *)
Definition response_ok (r : Response) : bool :=
  negb ((400 <=? status_code r) && (status_code r <? 600)).

(** The [params] dict of [update]. *)
Record Params : Type := mkParams {
  p_api_key : option string;
  p_limit : Z;
  p_search : option string;
  p_skip : option Z
}.

Record SyncState : Type := mkSyncState {
  last_sync_date : option string;
  total_processed : Z;
  last_cursor : option Z
}.

Inductive level : Type := Info | Warning | Severe.

(** The log lines of the connector, with the values they interpolate. *)
Inductive message : Type :=
| MsgStartingSync
| MsgIncrementalSince (since : string)
| MsgFullSync
| MsgFetchingBatch (skip limit : Z)
| MsgNoResponse
| MsgNoMoreResults
| MsgProcessed (batch total : Z)
| MsgReachedEnd
| MsgSyncCompleted (total : Z)
| MsgSyncFailed (e : exn)
| MsgRequestFailed (attempt max_retries : Z) (e : exn)
| MsgRetrying (wait_time : Z)
| MsgAllRetriesFailed
| MsgUpserted (n : Z).

Inductive event : Type :=
| EvGet (url : string) (params : Params) (outcome : Attempt)
| EvSleep (seconds : Q)
| EvUpsert (table : string) (data : dict value)
| EvCheckpoint (st : SyncState)
| EvLog (lvl : level) (msg : message).

(** The part of the world a run reads: how many HTTP calls and how many
    clock readings were made so far. *)
Record World : Type := mkWorld {
  calls : nat;
  reads : nat
}.

(** The environment of a run. *)
Record Env : Type := mkEnv {
  http_get : nat -> Params -> Attempt;  (* outcome of the i-th requests.get *)
  utc_now : nat -> string;   (* i-th datetime.now(timezone.utc).isoformat() *)
  py_int : string -> option Z;          (* int(s); None for ValueError *)
  json_dumps : list value -> string;    (* json.dumps of a list *)
  py_str : list value -> string         (* str() of a list *)
}.

(* ================================================================== *)
(** ** The effect monad *)
(* ================================================================== *)

Inductive outcome (A : Type) : Type :=
| Return (a : A) (evs : list event) (w : World)
| Raise (e : exn) (evs : list event) (w : World)
| OutOfFuel.

Arguments Return {A} a evs w.
Arguments Raise {A} e evs w.
Arguments OutOfFuel {A}.

Definition M (A : Type) : Type := World -> outcome A.

Definition ret {A : Type} (a : A) : M A := fun w => Return a [] w.

Definition raise {A : Type} (e : exn) : M A := fun w => Raise e [] w.

(** Sequencing: the events of the first computation are kept whatever
    the second one does. *)
Definition bind {A B : Type} (m : M A) (f : A -> M B) : M B :=
  fun w =>
    match m w with
    | Return a evs w' =>
        match f a w' with
        | Return b evs' w'' => Return b (evs ++ evs') w''
        | Raise e evs' w'' => Raise e (evs ++ evs') w''
        | OutOfFuel => OutOfFuel
        end
    | Raise e evs w' => Raise e evs w'
    | OutOfFuel => OutOfFuel
    end.

Notation "x <- m ;; k" := (bind m (fun x => k))
  (at level 61, m at next level, right associativity).
Notation "m ;; k" := (bind m (fun _ => k))
  (at level 61, right associativity).

(** [try: m  except <handler e is Some>: handler]; an exception the
    handler does not select propagates. *)
Definition try_except {A : Type} (m : M A) (handler : exn -> option (M A)) : M A :=
  fun w =>
    match m w with
    | Raise e evs w' =>
        match handler e with
        | Some k =>
            match k w' with
            | Return b evs' w'' => Return b (evs ++ evs') w''
            | Raise e' evs' w'' => Raise e' (evs ++ evs') w''
            | OutOfFuel => OutOfFuel
            end
        | None => Raise e evs w'
        end
    | o => o
    end.

Definition emit (ev : event) : M unit := fun w => Return tt [ev] w.

Definition log (lvl : level) (msg : message) : M unit := emit (EvLog lvl msg).

(** [time.sleep(seconds)] *)
Definition sleep (seconds : Q) : M unit := emit (EvSleep seconds).

(** [op.checkpoint(state)] *)
Definition checkpoint (st : SyncState) : M unit := emit (EvCheckpoint st).

(** [op.upsert(table=..., data=...)] *)
Definition upsert (table : string) (data : dict value) : M unit :=
  emit (EvUpsert table data).

(** Lifting a pure computation that may raise. *)
Definition lift {A : Type} (r : exn + A) : M A :=
  match r with inl e => raise e | inr a => ret a end.

(* ================================================================== *)
(** ** The connector *)
(* ================================================================== *)

Section Connector.

Variable env : Env.

(** [requests.get(base_url, params=params, timeout=30)]: the i-th call
    gets the i-th outcome of the network. *)
Definition requests_get (url : string) (params : Params) : M Response :=
  fun w =>
    let outcome := http_get env (calls w) params in
    let w' := mkWorld (S (calls w)) (reads w) in
    match outcome with
    | NetworkFailure msg => Raise (ConnectionError msg) [EvGet url params outcome] w'
    | Responded r => Return r [EvGet url params outcome] w'
    end.

(** [response.raise_for_status()] *)
Definition raise_for_status (r : Response) : M unit :=
  if response_ok r then ret tt else raise (HTTPError (status_code r)).

(** [response.json()] *)
Definition response_json (r : Response) : M value :=
  match json_body r with
  | Some v => ret v
  | None => raise JSONDecodeError
  end.

(** [datetime.now(timezone.utc).isoformat()] *)
Definition now_iso : M string :=
  fun w => Return (utc_now env (reads w)) [] (mkWorld (calls w) (S (reads w))).

(** *** validate_configuration *)

Fixpoint validate_keys (required_configs : list string) (configuration : dict string)
  : M unit :=
  match required_configs with
  | [] => ret tt
  | key :: rest =>
      match dict_get key configuration with
      | None => raise (ValueError ("Missing required configuration value: " ++ key)%string)
      | Some v =>
          if String.eqb v ""
          then raise (ValueError ("Missing required configuration value: " ++ key)%string)
          else validate_keys rest configuration
      end
  end.

Definition validate_configuration (configuration : dict string) : M unit :=
  validate_keys ["api_key"] configuration.

(** *** flatten_dict *)

(** The [items] list that the loop of [flatten_dict(v, parent_key, sep)]
    builds when [v] is a dict. *)
Fixpoint flatten_items (v : value) (parent_key sep : string) {struct v}
  : list (string * value) :=
  match v with
  | VDict d =>
      (fix loop (d : list (string * value)) : list (string * value) :=
         match d with
         | [] => []
         | (k, v) :: rest =>
             let new_key :=
               if String.eqb parent_key "" then k
               else (parent_key ++ sep ++ k)%string in
             match v with
             | VDict _ => dict_of_items (flatten_items v new_key sep)
             | VList l =>
                 [(new_key,
                   match l with [] => VNone | _ => VStr (json_dumps env l) end)]
             | _ => [(new_key, v)]
             end ++ loop rest
         end) d
  | _ => []
  end.

Definition flatten_dict (d : dict value) (parent_key sep : string) : dict value :=
  dict_of_items (flatten_items (VDict d) parent_key sep).

(** *** get_latest_report_date *)

(** [for x in v]: the elements a Python loop visits. *)
Definition py_iter (v : value) : exn + list value :=
  match v with
  | VList l => inr l
  | VStr s => inr (map (fun c => VStr (String c EmptyString)) (list_ascii_of_string s))
  | VDict d => inr (map (fun kv => VStr (fst kv)) d)
  | _ => inl TypeError
  end.

(** [len(v)] *)
Definition py_len (v : value) : exn + Z :=
  match v with
  | VList l => inr (Z.of_nat (List.length l))
  | VStr s => inr (Z.of_nat (String.length s))
  | VDict d => inr (Z.of_nat (List.length d))
  | _ => inl TypeError
  end.

(** [f"{year}-{month}-{day}T00:00:00Z"] *)
Definition iso_of (year month day : string) : string :=
  (year ++ "-" ++ month ++ "-" ++ day ++ "T00:00:00Z")%string.

(** [if latest_date is None or iso_date > latest_date: latest_date = iso_date] *)
Definition newer (iso_date : string) (latest_date : option string) : option string :=
  match latest_date with
  | None => Some iso_date
  | Some cur => if String.ltb cur iso_date then Some iso_date else Some cur
  end.

(** One iteration of [for record in records].  [len] of a number or a
    boolean and slicing a dict raise exceptions that
    [except (ValueError, IndexError)] does not catch. *)
Definition scan_record (record : value) (latest_date : option string)
  : exn + option string :=
  match record with
  | VDict d =>
      match dict_get "report_date" d with
      | None => inr latest_date
      | Some report_date =>
          if truthy report_date then
            match report_date with
            | VStr s =>
                if Nat.eqb (String.length s) 8 then
                  inr (newer (iso_of (substring 0 4 s) (substring 4 2 s)
                                     (substring 6 2 s)) latest_date)
                else inr latest_date
            | VList l =>
                if Nat.eqb (List.length l) 8 then
                  inr (newer (iso_of (py_str env (firstn 4 l))
                                     (py_str env (firstn 2 (skipn 4 l)))
                                     (py_str env (firstn 2 (skipn 6 l))))
                             latest_date)
                else inr latest_date
            | VDict d' =>
                if Nat.eqb (List.length d') 8 then inl TypeError
                else inr latest_date
            | _ => inl TypeError
            end
          else inr latest_date
      end
  | _ => inl AttributeError
  end.

Fixpoint scan_records (records : list value) (latest_date : option string)
  : exn + option string :=
  match records with
  | [] => inr latest_date
  | record :: rest =>
      match scan_record record latest_date with
      | inl e => inl e
      | inr latest_date' => scan_records rest latest_date'
      end
  end.

Definition get_latest_report_date (records : value) : M string :=
  rs <- lift (py_iter records) ;;
  latest_date <- lift (scan_records rs None) ;;
  match latest_date with
  | Some d => if String.eqb d "" then now_iso else ret d
  | None => now_iso
  end.

(** *** make_api_request_with_retry *)

(** The iterations [attempt, attempt + 1, ...] of
    [for attempt in range(max_retries)], [todo] of them left. *)
Fixpoint retry_attempts (todo : nat) (attempt : Z) (base_url : string)
  (params : Params) (max_retries : Z) : M (option Response) :=
  match todo with
  | O => ret None
  | S todo' =>
      try_except
        (response <- requests_get base_url params ;;
         raise_for_status response ;;
         ret (Some response))
        (fun e =>
           if is_request_exception e then
             Some (log Warning (MsgRequestFailed (attempt + 1) max_retries e) ;;
                   if attempt <? max_retries - 1 then
                     let wait_time := 2 ^ attempt in
                     log Info (MsgRetrying wait_time) ;;
                     sleep (inject_Z wait_time) ;;
                     retry_attempts todo' (attempt + 1) base_url params max_retries
                   else
                     log Severe MsgAllRetriesFailed ;;
                     raise e)
           else None)
  end.

Definition make_api_request_with_retry (base_url : string) (params : Params)
  (max_retries : Z) : M (option Response) :=
  retry_attempts (Z.to_nat max_retries) 0 base_url params max_retries.

(** *** process_food_enforcement_records *)

(** The first loop.  Flattening a dict cannot fail; for a record that is
    not a dict [flatten_dict] raises, and so does [record.get] in the
    handler's own f-string, which ends the function. *)
Fixpoint process_each (records : list value) (processed_records : list (dict value))
  : M (list (dict value)) :=
  match records with
  | [] => ret processed_records
  | record :: rest =>
      match record with
      | VDict d =>
          let flattened_record := flatten_dict d "" "_" in
          synced <- now_iso ;;
          let flattened_record :=
            dict_set "_fivetran_synced" (VStr synced) flattened_record in
          let flattened_record :=
            dict_set "_fivetran_deleted" (VBool false) flattened_record in
          process_each rest (processed_records ++ [flattened_record])
      | _ => raise AttributeError
      end
  end.

Fixpoint upsert_all (processed_records : list (dict value)) : M unit :=
  match processed_records with
  | [] => ret tt
  | record :: rest =>
      upsert "food_enforcement_records" record ;; upsert_all rest
  end.

Definition process_food_enforcement_records (records : value) : M Z :=
  rs <- lift (py_iter records) ;;
  processed_records <- process_each rs [] ;;
  match processed_records with
  | [] => ret tt
  | _ =>
      upsert_all processed_records ;;
      log Info (MsgUpserted (Z.of_nat (List.length processed_records)))
  end ;;
  ret (Z.of_nat (List.length processed_records)).

(** *** update *)

Definition base_url : string := "https://api.fda.gov/food/enforcement.json".

(** [int(configuration.get(key, default))], the default being a decimal
    literal whose value is [default]. *)
Definition int_setting (configuration : dict string) (key : string) (default : Z)
  : M Z :=
  match dict_get key configuration with
  | None => ret default
  | Some s =>
      match py_int env s with
      | Some z => ret z
      | None => raise (ValueError s)
      end
  end.

(** The local variables of [update] that the loop reads and writes;
    [l_data] is [None] while [data] is unbound. *)
Record Locals : Type := mkLocals {
  l_params : Params;
  l_skip : Z;
  l_current_batch_processed : Z;
  l_total_processed : Z;
  l_data : option value
}.

Inductive flow : Type :=
| Continue (l : Locals)
| Break (l : Locals).

(** [data.get("results")] *)
Definition data_get_results (data : value) : M (option value) :=
  match data with
  | VDict d => ret (dict_get "results" d)
  | _ => raise AttributeError
  end.

(** [if not response:], taken for [None] and for a response that is not ok. *)
Definition no_response (l : Locals) : M flow :=
  log Warning MsgNoResponse ;; ret (Break l).

(** One iteration of [while total_processed < max_records]. *)
Definition loop_body (l : Locals) : M flow :=
  let params :=
    if l_skip l >? 0
    then mkParams (p_api_key (l_params l)) (p_limit (l_params l))
                  (p_search (l_params l)) (Some (l_skip l))
    else l_params l in
  log Info (MsgFetchingBatch (l_skip l) (p_limit params)) ;;
  response <- make_api_request_with_retry base_url params 3 ;;
  let l := mkLocals params (l_skip l) (l_current_batch_processed l)
                    (l_total_processed l) (l_data l) in
  match response with
  | None => no_response l
  | Some r =>
      if negb (response_ok r) then no_response l
      else
        data <- response_json r ;;
        let l := mkLocals params (l_skip l) (l_current_batch_processed l)
                          (l_total_processed l) (Some data) in
        results <- data_get_results data ;;
        match results with
        | None => log Info MsgNoMoreResults ;; ret (Break l)
        | Some records =>
            if negb (truthy records) then
              log Info MsgNoMoreResults ;; ret (Break l)
            else
              batch_processed <- process_food_enforcement_records records ;;
              let current_batch_processed :=
                l_current_batch_processed l + batch_processed in
              let total_processed := l_total_processed l + batch_processed in
              let l := mkLocals params (l_skip l) current_batch_processed
                                total_processed (Some data) in
              log Info (MsgProcessed batch_processed total_processed) ;;
              n <- lift (py_len records) ;;
              if n <? p_limit params then
                log Info MsgReachedEnd ;; ret (Break l)
              else
                let skip := l_skip l + p_limit params in
                let l := mkLocals params skip current_batch_processed
                                  total_processed (Some data) in
                latest_report_date <- get_latest_report_date records ;;
                checkpoint (mkSyncState (Some latest_report_date)
                                        total_processed (Some skip)) ;;
                sleep (1 # 4) ;;
                ret (Continue l)
        end
  end.

Fixpoint sync_loop (fuel : nat) (max_records : Z) (l : Locals) : M Locals :=
  if l_total_processed l <? max_records then
    match fuel with
    | O => fun _ => OutOfFuel
    | S fuel' =>
        r <- loop_body l ;;
        match r with
        | Continue l' => sync_loop fuel' max_records l'
        | Break l' => ret l'
        end
    end
  else ret l.

(** The final checkpoint:
    [if 'data' in locals() and data.get("results")]. *)
Definition final_checkpoint (l : Locals) : M unit :=
  latest_report_date <-
    match l_data l with
    | Some data =>
        results <- data_get_results data ;;
        match results with
        | Some records =>
            if truthy records then get_latest_report_date records else now_iso
        | None => now_iso
        end
    | None => now_iso
    end ;;
  checkpoint (mkSyncState (Some latest_report_date) (l_total_processed l)
                          (Some (l_skip l))) ;;
  log Info (MsgSyncCompleted (l_total_processed l)).

(** The state [update] starts from: [{}] ([None]) stands for the first
    sync and is replaced by the all-null state. *)
Definition initial_state : SyncState := mkSyncState None 0 None.

(** The [try] block of [update]. *)
Definition update_try (api_key : option string) (limit max_records : Z)
  (sync_mode : string) (last_sync_date : option string) (total_processed : Z)
  : M unit :=
  let params := mkParams api_key (Z.min limit 1000) None None in
  params <-
    match last_sync_date with
    | Some since =>
        if String.eqb sync_mode "incremental" && negb (String.eqb since "")
        then
          log Info (MsgIncrementalSince since) ;;
          ret (mkParams api_key (Z.min limit 1000)
                 (Some ("report_date:[" ++ since ++ "+TO+*]")%string) None)
        else log Info MsgFullSync ;; ret params
    | None => log Info MsgFullSync ;; ret params
    end ;;
  l <- sync_loop (Z.to_nat (max_records - total_processed)) max_records
         (mkLocals params 0 0 total_processed None) ;;
  final_checkpoint l.

Definition update (configuration : dict string) (state : option SyncState) : M unit :=
  log Info MsgStartingSync ;;
  validate_configuration configuration ;;
  let api_key := dict_get "api_key" configuration in
  limit <- int_setting configuration "limit" 1000 ;;
  max_records <- int_setting configuration "max_records" 10000 ;;
  let sync_mode :=
    match dict_get "sync_mode" configuration with
    | Some m => m
    | None => "incremental"
    end in
  let state := match state with Some s => s | None => initial_state end in
  let last_sync_date := last_sync_date state in
  let total_processed := total_processed state in
  try_except
    (update_try api_key limit max_records sync_mode last_sync_date total_processed)
    (fun e => Some (log Severe (MsgSyncFailed e) ;; raise (RuntimeError e))).

End Connector.

(* ================================================================== *)
(** ** Observations on the events of a run *)
(* ================================================================== *)

(** The states written by [op.checkpoint], oldest first. *)
Fixpoint checkpoints (evs : list event) : list SyncState :=
  match evs with
  | [] => []
  | EvCheckpoint st :: rest => st :: checkpoints rest
  | _ :: rest => checkpoints rest
  end.

(** The HTTP requests issued, with what the network answered. *)
Fixpoint fetches (evs : list event) : list (Params * Attempt) :=
  match evs with
  | [] => []
  | EvGet _ params outcome :: rest => (params, outcome) :: fetches rest
  | _ :: rest => fetches rest
  end.

(** The durations passed to [time.sleep]. *)
Fixpoint sleeps (evs : list event) : list Q :=
  match evs with
  | [] => []
  | EvSleep seconds :: rest => seconds :: sleeps rest
  | _ :: rest => sleeps rest
  end.

(** The sizes of the pages processed: one "Processed n records in this
    batch" line is logged per page that went through
    [process_food_enforcement_records]. *)
Fixpoint processed_batches (evs : list event) : list Z :=
  match evs with
  | [] => []
  | EvLog _ (MsgProcessed batch _) :: rest => batch :: processed_batches rest
  | _ :: rest => processed_batches rest
  end.

(** The non-empty [results] list carried by the outcome of a request, if
    the response passes [raise_for_status] and decodes to such a page. *)
Definition page_of (outcome : Attempt) : option (list value) :=
  match outcome with
  | Responded r =>
      if response_ok r then
        match json_body r with
        | Some (VDict d) =>
            match dict_get "results" d with
            | Some (VList (record :: rest)) => Some (record :: rest)
            | _ => None
            end
        | _ => None
        end
      else None
  | NetworkFailure _ => None
  end.

(** The page held by the local [data] of [update], if it holds one. *)
Definition data_page (data : option value) : option (list value) :=
  match data with
  | Some (VDict d) =>
      match dict_get "results" d with
      | Some (VList (record :: rest)) => Some (record :: rest)
      | _ => None
      end
  | _ => None
  end.

(** [data] is unbound, or a mapping whose [results], when truthy, is a
    list. *)
Definition data_wf (data : option value) : Prop :=
  match data with
  | None => True
  | Some (VDict d) =>
      match dict_get "results" d with
      | Some v => truthy v = true -> exists rs, v = VList rs
      | None => True
      end
  | Some _ => False
  end.

(** The pages the fetches of a run returned, in order. *)
Fixpoint fetched_pages (evs : list event) : list (list value) :=
  match evs with
  | [] => []
  | EvGet _ _ outcome :: rest =>
      match page_of outcome with
      | Some page => page :: fetched_pages rest
      | None => fetched_pages rest
      end
  | _ :: rest => fetched_pages rest
  end.

(** What a run does to its progress: a request returns a non-empty
    page, the line "Processed n records in this batch" is logged for a
    page that went through [process_food_enforcement_records], a state
    is written by [op.checkpoint]. *)
Inductive mark : Type :=
| Fetched (page : list value)
| Processed (batch : Z)
| Written (st : SyncState).

(** The progress of a run, in the order it happens. *)
Fixpoint marks (evs : list event) : list mark :=
  match evs with
  | [] => []
  | EvGet _ _ outcome :: rest =>
      match page_of outcome with
      | Some page => Fetched page :: marks rest
      | None => marks rest
      end
  | EvCheckpoint st :: rest => Written st :: marks rest
  | EvLog _ (MsgProcessed batch _) :: rest => Processed batch :: marks rest
  | _ :: rest => marks rest
  end.

(** The progress made on a page that gets a checkpoint of its own. *)
Definition full_page (ps : list value * SyncState) : list mark :=
  [Fetched (fst ps); Processed (Z.of_nat (List.length (fst ps))); Written (snd ps)].

(** The progress made on a page that gets no checkpoint of its own. *)
Definition short_page (rs : list value) : list mark :=
  [Fetched rs; Processed (Z.of_nat (List.length rs))].

(** The number of records in a list of pages. *)
Definition records_in (pages : list (list value)) : Z :=
  fold_right (fun page n => Z.of_nat (List.length page) + n) 0 pages.

(** The transient failure of an attempt, if it is one: a network error,
    or a 4xx/5xx status. *)
Definition attempt_error (a : Attempt) : option exn :=
  match a with
  | NetworkFailure msg => Some (ConnectionError msg)
  | Responded r =>
      if response_ok r then None else Some (HTTPError (status_code r))
  end.

(** Total of a list of sleep durations. *)
Definition total_delay (qs : list Q) : Q := fold_right Qplus 0%Q qs.

(** The log line of the retry client when it gives up. *)
Definition retries_exhausted : event := EvLog Severe MsgAllRetriesFailed.

(** The log line of the branch [if not response:] of [update]. *)
Definition no_response_warning : event := EvLog Warning MsgNoResponse.

(** Inserting a list of items into a dict, as [dict(items)] does from
    the empty dict. *)
Definition fill {A : Type} (items : list (string * A)) (acc : dict A) : dict A :=
  fold_left (fun d kv => dict_set (fst kv) (snd kv) d) items acc.

(** An outcome after the events [pre]. *)
Definition prepend {A : Type} (pre : list event) (o : outcome A) : outcome A :=
  match o with
  | Return a evs w => Return a (pre ++ evs) w
  | Raise e evs w => Raise e (pre ++ evs) w
  | OutOfFuel => OutOfFuel
  end.

(** The events that are no checkpoint, no fetched page, no processed
    page, and neither of the two log lines above. *)
Definition silent (ev : event) : bool :=
  match ev with
  | EvGet _ _ outcome =>
      match page_of outcome with None => true | Some _ => false end
  | EvSleep _ | EvUpsert _ _ => true
  | EvCheckpoint _ => false
  | EvLog _ msg =>
      match msg with
      | MsgProcessed _ _ | MsgAllRetriesFailed | MsgNoResponse => false
      | _ => true
      end
  end.

(** Two item lists that [dict(...)] cannot tell apart, whatever was
    inserted before them. *)
Definition same_items (l1 l2 : list (string * value)) : Prop :=
  forall acc, fill l1 acc = fill l2 acc.

(** [s1 <= s2] in Python's string order. *)
Definition str_le (s1 s2 : string) : Prop := String.leb s1 s2 = true.

(* ================================================================== *)
(** ** The flattener and the cursor extractor in the words of the specification *)
(* ================================================================== *)

Section Specification.

Variable env : Env.

(** The leaf entries of a nested mapping with their key paths, in
    document order; an empty nested mapping has none. *)
Fixpoint leaves (v : value) (path : list string) {struct v}
  : list (list string * value) :=
  match v with
  | VDict d =>
      (fix loop (d : list (string * value)) : list (list string * value) :=
         match d with
         | [] => []
         | (k, v) :: rest =>
             match v with
             | VDict _ => leaves v (path ++ [k])
             | _ => [(path ++ [k], v)]
             end ++ loop rest
         end) d
  | _ => []
  end.

(** What is stored for a leaf: a non-empty sequence is serialized, an
    empty one becomes null, a scalar is kept. *)
Definition stored (v : value) : value :=
  match v with
  | VList [] => VNone
  | VList l => VStr (json_dumps env l)
  | _ => v
  end.

(** The flattener as the specification words it: every key path joined
    by the separator. *)
Definition spec_flatten_dict (d : dict value) : dict value :=
  dict_of_items
    (map (fun pv => (String.concat "_" (fst pv), stored (snd pv)))
         (leaves (VDict d) [])).

(** A key path without its leading empty keys. *)
Fixpoint drop_empty_prefix (path : list string) : list string :=
  match path with
  | [] => []
  | k :: rest => if String.eqb k "" then drop_empty_prefix rest else path
  end.

(** The key the code builds for a path. *)
Definition path_key (sep : string) (path : list string) : string :=
  String.concat sep (drop_empty_prefix path).

Definition is_digit (c : ascii) : bool :=
  (48 <=? nat_of_ascii c)%nat && (nat_of_ascii c <=? 57)%nat.

(** A raw date as the specification words it: 8 characters, all digits. *)
Definition well_formed_raw_date (s : string) : bool :=
  Nat.eqb (String.length s) 8 && forallb is_digit (list_ascii_of_string s).

(** [YYYYMMDD] to [YYYY-MM-DDT00:00:00Z]. *)
Definition normalize (s : string) : string :=
  iso_of (substring 0 4 s) (substring 4 2 s) (substring 6 2 s).

(** The raw [report_date] strings of a batch that pass [accept]. *)
Fixpoint raw_dates (accept : string -> bool) (records : list value) : list string :=
  match records with
  | [] => []
  | VDict d :: rest =>
      match dict_get "report_date" d with
      | Some (VStr s) =>
          if accept s then s :: raw_dates accept rest else raw_dates accept rest
      | _ => raw_dates accept rest
      end
  | _ :: rest => raw_dates accept rest
  end.

(** The lexicographic maximum of a list of strings. *)
Fixpoint max_string (l : list string) : option string :=
  match l with
  | [] => None
  | s :: rest =>
      match max_string rest with
      | None => Some s
      | Some m => if String.leb s m then Some m else Some s
      end
  end.

(** The cursor extractor as the specification words it: malformed raw
    dates (wrong length or non-numeric) are skipped, the maximum of the
    normalized remaining ones is returned, the clock if there is none. *)
Definition spec_latest_report_date (records : list value) : M string :=
  match max_string (map normalize (raw_dates well_formed_raw_date records)) with
  | Some latest => ret latest
  | None => now_iso env
  end.

End Specification.

(* ================================================================== *)
(** ** Vocabulary for the statements about runs *)
(* ================================================================== *)

Section RunVocabulary.

Variable env : Env.

(** A JSON value that is a mapping. *)
Definition is_dict_value (v : value) : bool :=
  match v with VDict _ => true | _ => false end.

(** The entries the code accepts: any string of length 8. *)
Definition has_length_8 (s : string) : bool := Nat.eqb (String.length s) 8.

(** A record of a batch whose [report_date] is absent, null or a string. *)
Definition string_dated (record : value) : Prop :=
  match record with
  | VDict d =>
      match dict_get "report_date" d with
      | None | Some VNone | Some (VStr _) => True
      | _ => False
      end
  | _ => False
  end.

(** The pure part of the cursor extractor on a page. *)
Definition page_cursor (page : list value) : exn + option string :=
  scan_records env page None.

(** What [update] reads from the configuration before its [try] block:
    the exception it raises there, or the [limit] and [max_records]
    settings. *)
Definition read_configuration (configuration : dict string) : exn + (Z * Z) :=
  let read_int key default :=
    match dict_get key configuration with
    | None => inr default
    | Some s =>
        match py_int env s with
        | Some z => inr z
        | None => inl (ValueError s)
        end
    end in
  match dict_get "api_key" configuration with
  | None => inl (ValueError "Missing required configuration value: api_key")
  | Some v =>
      if String.eqb v ""
      then inl (ValueError "Missing required configuration value: api_key")
      else
        match read_int "limit" 1000 with
        | inl e => inl e
        | inr limit =>
            match read_int "max_records" 10000 with
            | inl e => inl e
            | inr max_records => inr (limit, max_records)
            end
        end
  end.

(** The sync mode [update] reads, [incremental] by default. *)
Definition configured_sync_mode (configuration : dict string) : string :=
  match dict_get "sync_mode" configuration with
  | Some m => m
  | None => "incremental"
  end.

(** Whether the run filters by the date of the previous cursor. *)
Definition incremental_since (sync_mode : string) (last_sync_date : option string)
  : option string :=
  match last_sync_date with
  | Some since =>
      if String.eqb sync_mode "incremental" && negb (String.eqb since "")
      then Some since else None
  | None => None
  end.

(** The query parameters of the first request. *)
Definition initial_params (api_key : option string) (limit : Z)
  (sync_mode : string) (last_sync_date : option string) : Params :=
  match incremental_since sync_mode last_sync_date with
  | Some since =>
      mkParams api_key (Z.min limit 1000)
               (Some ("report_date:[" ++ since ++ "+TO+*]")%string) None
  | None => mkParams api_key (Z.min limit 1000) None None
  end.

(** The log line that announces the mode of the run. *)
Definition mode_line (sync_mode : string) (last_sync_date : option string) : event :=
  match incremental_since sync_mode last_sync_date with
  | Some since => EvLog Info (MsgIncrementalSince since)
  | None => EvLog Info MsgFullSync
  end.

(** The [except Exception] clause of [update] applied to an outcome. *)
Definition wrap_failure (o : outcome unit) : outcome unit :=
  match o with
  | Raise e evs w => Raise (RuntimeError e) (evs ++ [EvLog Severe (MsgSyncFailed e)]) w
  | _ => o
  end.

(** The locals at the first test of the loop condition. *)
Definition initial_locals (configuration : dict string) (limit : Z)
  (state : SyncState) : Locals :=
  mkLocals (initial_params (dict_get "api_key" configuration) limit
              (configured_sync_mode configuration) (last_sync_date state))
           0 0 (total_processed state) None.

(** [c] is what the final checkpoint takes as cursor: extracted from the
    page the local [data] holds, or read from the clock. *)
Definition final_cursor (l : Locals) (c : string) : Prop :=
  match data_page (l_data l) with
  | Some rs =>
      page_cursor rs = inr (Some c) \/
      (page_cursor rs = inr None /\ exists n, c = utc_now env n)
  | None => exists n, c = utc_now env n
  end.

(** The checkpoint [st] carries the cursor extracted from [page]: the
    newest date of the page, or a clock reading when the page has none. *)
Definition cursor_of_page (st : SyncState) (page : list value) : Prop :=
  exists c,
    last_sync_date st = Some c /\
    (page_cursor page = inr (Some c) \/
     (page_cursor page = inr None /\ exists n, c = utc_now env n)).

(** The page has [c] as its newest date: every record has a
    [report_date] that is absent, null or a string, and [c] is the
    maximum, under string comparison, of the 8-character dates of the
    page, normalized. *)
Definition newest_date (page : list value) (c : string) : Prop :=
  Forall string_dated page /\
  max_string (map normalize (raw_dates has_length_8 page)) = Some c.

(** The checkpoint [st] holds the cursor extracted from [page], the
    running total [total] and the offset [skip]. *)
Definition carries (st : SyncState) (page : list value) (total skip : Z) : Prop :=
  cursor_of_page st page /\ total_processed st = total /\ last_cursor st = Some skip.

(** The per-page checkpoints of a run whose page size is [size], from
    a running total of [total] and an offset of [skip]: each page is at
    least [size] records long, and its checkpoint holds its cursor, the
    total after it and the offset after it. *)
Fixpoint page_writes (size total skip : Z) (full : list (list value * SyncState))
  : Prop :=
  match full with
  | [] => True
  | (page, st) :: rest =>
      let n := Z.of_nat (List.length page) in
      size <= n /\
      carries st page (total + n) (skip + size) /\
      page_writes size (total + n) (skip + size) rest
  end.

(** The state [update] starts from. *)
Definition start_state (state : option SyncState) : SyncState :=
  match state with Some s => s | None => initial_state end.

End RunVocabulary.

(* ================================================================== *)
(** ** Concrete environments and inputs *)
(* ================================================================== *)

(** [int] on a plain decimal literal. *)
Definition demo_int (s : string) : option Z :=
  option_map Z.of_int (NilEmpty.int_of_string s).

Definition demo_quote (s : string) : string :=
  (String "034"%char s ++ String "034"%char EmptyString)%string.

(** [json.dumps] on the values of the examples: null, booleans,
    integers, strings without characters to escape, lists and dicts of
    them (floats are not used there). *)
Fixpoint demo_dumps_value (v : value) : string :=
  match v with
  | VNone => "null"
  | VBool true => "true"
  | VBool false => "false"
  | VInt z => NilEmpty.string_of_int (Z.to_int z)
  | VFloat _ => "NaN"
  | VStr s => demo_quote s
  | VList l =>
      ("[" ++ String.concat ", " (map demo_dumps_value l) ++ "]")%string
  | VDict d =>
      ("{" ++ String.concat ", "
               (map (fun kv => (demo_quote (fst kv) ++ ": "
                                 ++ demo_dumps_value (snd kv))%string) d)
           ++ "}")%string
  end.

Definition demo_dumps (l : list value) : string := demo_dumps_value (VList l).

(** A clock reading. *)
Definition demo_now : string := "2026-11-03T22:26:00.123456+00:00".

(** A 200 response whose body is [{"results": records}]. *)
Definition page (records : list value) : Attempt :=
  Responded (mkResponse 200 (Some (VDict [("results", VList records)]))).

(** A record with a recall number and a raw report date. *)
Definition recall (number date : string) : value :=
  VDict [("recall_number", VStr number); ("report_date", VStr date)].

(** An environment whose network plays [script], one outcome per call,
    then returns empty pages, and whose clock stands still.  No example
    reaches [str] of a list; the serializer stands in for it. *)
Definition demo_env (script : list Attempt) : Env :=
  mkEnv (fun i _ => nth i script (page [])) (fun _ => demo_now)
        demo_int demo_dumps demo_dumps.

Definition w0 : World := mkWorld 0 0.

(** A configuration with a page size of one record. *)
Definition demo_config : dict string := [("api_key", "secret"); ("limit", "1")].

(** A configuration with the default page size and record cap. *)
Definition default_config : dict string := [("api_key", "secret")].

(** The events of a finished computation. *)
Definition events_of {A : Type} (o : outcome A) : list event :=
  match o with
  | Return _ evs _ | Raise _ evs _ => evs
  | OutOfFuel => []
  end.

(** Two full pages whose newest dates grow, then no more results. *)
Definition growing_env : Env :=
  demo_env [page [recall "F-1" "20240101"]; page [recall "F-2" "20240315"]].

Definition growing_run : outcome unit := update growing_env demo_config None w0.

(** Two full pages, the later one with the earlier date. *)
Definition regressing_env : Env :=
  demo_env [page [recall "F-1" "20240315"]; page [recall "F-2" "20240101"]].

Definition regressing_run : outcome unit :=
  update regressing_env demo_config None w0.

(** A state that already reached the default cap of 10000 records. *)
Definition capped_state : SyncState :=
  mkSyncState (Some "2024-01-01T00:00:00Z") 10000 (Some 9000).

Definition capped_run : outcome unit :=
  update (demo_env []) default_config (Some capped_state) w0.

(** A configuration with a page size of two records. *)
Definition pairs_config : dict string := [("api_key", "secret"); ("limit", "2")].

(** A full page of two records, then a page of one record. *)
Definition tailing_env : Env :=
  demo_env [page [recall "F-1" "20240101"; recall "F-2" "20240315"];
            page [recall "F-3" "20240402"]].

Definition tailing_run : outcome unit := update tailing_env pairs_config None w0.

(** One page of one record, shorter than the default page size. *)
Definition short_page_run : outcome unit :=
  update (demo_env [page [recall "F-1" "20240315"]]) default_config None w0.

(** One full page, then a network that fails three times. *)
Definition failing_env : Env :=
  demo_env [page [recall "F-1" "20240315"];
            NetworkFailure "timeout"; NetworkFailure "timeout";
            NetworkFailure "timeout"].

Definition failing_run : outcome unit := update failing_env demo_config None w0.

(** A network that fails on its first three calls. *)
Definition down_env : Env :=
  demo_env [NetworkFailure "timeout"; Responded (mkResponse 503 None);
            NetworkFailure "timeout"].

Definition demo_params : Params := mkParams (Some "secret") 1000 None None.

(** A network error, then a 503, then a page. *)
Definition flaky_env : Env :=
  demo_env [NetworkFailure "timeout"; Responded (mkResponse 503 None);
            page [recall "F-1" "20240315"]].

(** The record of [test_data_flattening] in [test_connector.py]. *)
Definition sample_record : dict value :=
  [("recall_number", VStr "F-1234-2024");
   ("recalling_firm", VStr "Test Company Inc.");
   ("openfda", VDict [("brand_name", VList [VStr "Test Brand"]);
                      ("manufacturer_name", VList [VStr "Test Manufacturer"])]);
   ("upc_codes", VList [VStr "123456789"; VStr "987654321"]);
   ("classification", VStr "Class I")].

(* ================================================================== *)
(** ** Further vocabulary: the retry client, pages, rows *)
(* ================================================================== *)

(** The waits of [n] successive retries that start at attempt number
    [attempt]: [2^attempt], [2^(attempt+1)], ... seconds. *)
Fixpoint backoff (attempt : Z) (n : nat) : list Q :=
  match n with
  | O => []
  | S n' => inject_Z (2 ^ attempt) :: backoff (attempt + 1) n'
  end.

(** The rows upserted by a run, in order. *)
Fixpoint upserts (evs : list event) : list (string * dict value) :=
  match evs with
  | [] => []
  | EvUpsert table data :: rest => (table, data) :: upserts rest
  | _ :: rest => upserts rest
  end.

(** The row [process_food_enforcement_records] builds from a record [d]
    flattened at clock reading [synced]. *)
Definition row_of (env : Env) (d : dict value) (synced : string) : dict value :=
  dict_set "_fivetran_deleted" (VBool false)
    (dict_set "_fivetran_synced" (VStr synced) (flatten_dict env d "" "_")).

(** The rows of a batch of records whose first clock reading is the
    [n]-th. *)
Fixpoint rows_from (env : Env) (ds : list (dict value)) (n : nat)
  : list (dict value) :=
  match ds with
  | [] => []
  | d :: rest => row_of env d (utc_now env n) :: rows_from env rest (S n)
  end.

(** The value of the last item with key [k], if any. *)
Definition lookup_last {A : Type} (k : string) (items : list (string * A))
  : option A :=
  fold_left (fun found kv => if String.eqb (fst kv) k then Some (snd kv) else found)
            items None.

(** A value on which [len] raises [TypeError]. *)
Definition unsized (v : value) : bool :=
  match v with
  | VBool _ | VInt _ | VFloat _ => true
  | _ => false
  end.

(** The sum of a list of integers. *)
Definition sum_Z (l : list Z) : Z := fold_right Z.add 0 l.

(** The offsets written by [n] successive per-page checkpoints of a run
    whose page size is [size]: [size], [2 * size], ..., [n * size]. *)
Definition offsets (size : Z) (n : nat) : list (option Z) :=
  map (fun i => Some (size * Z.of_nat (S i))) (seq 0 n).

(** The exceptions [update] raises while it reads its configuration. *)
Definition is_value_error (e : exn) : bool :=
  match e with ValueError _ => true | _ => false end.

(** [m] emits only events that satisfy [P], and what it returns
    satisfies [Q]. *)
Definition emits {A : Type} (P : event -> Prop) (m : M A) (Q : A -> Prop) : Prop :=
  forall w,
    match m w with
    | Return a evs _ => Forall P evs /\ Q a
    | Raise _ evs _ => Forall P evs
    | OutOfFuel => True
    end.

(** A row built by [process_food_enforcement_records]. *)
Definition is_row (env : Env) (row : dict value) : Prop :=
  exists d synced, row = row_of env d synced.

(** The query parameters of a run: the configured key, the page size,
    the date filter of the run, and no offset or a positive one. *)
Definition params_ok (api_key : option string) (size : Z) (search : option string)
  (p : Params) : Prop :=
  p_api_key p = api_key /\ p_limit p = size /\ p_search p = search /\
  (p_skip p = None \/ exists k, 0 < k /\ p_skip p = Some k).

(** The date filter of a run. *)
Definition search_filter (sync_mode : string) (last_sync_date : option string)
  : option string :=
  option_map (fun since => ("report_date:[" ++ since ++ "+TO+*]")%string)
             (incremental_since sync_mode last_sync_date).

(** What the events of a run look like. *)
Definition run_event (env : Env) (api_key : option string) (size : Z)
  (search : option string) (ev : event) : Prop :=
  match ev with
  | EvGet url p _ => url = base_url /\ params_ok api_key size search p
  | EvSleep q => q = (1 # 4)%Q \/ q = inject_Z 1 \/ q = inject_Z 2
  | EvUpsert table row => table = "food_enforcement_records" /\ is_row env row
  | EvCheckpoint st => last_sync_date st <> None /\ last_cursor st <> None
  | EvLog _ _ => True
  end.

(** The locals carried by the result of an iteration. *)
Definition locals_of (r : flow) : Locals :=
  match r with Continue l | Break l => l end.

(** Rows upserted minus records reported as processed. *)
Definition tally (evs : list event) : Z :=
  Z.of_nat (List.length (upserts evs)) - sum_Z (processed_batches evs).

(** Started with a tally of [z], [m] ends with a tally that satisfies
    [Q], and with a tally of 0 when it raises. *)
Definition tallies {A : Type} (z : Z) (m : M A) (Q : A -> Z -> Prop) : Prop :=
  forall w,
    match m w with
    | Return a evs _ => Q a (z + tally evs)
    | Raise _ evs _ => z + tally evs = 0
    | OutOfFuel => True
    end.

(* ================================================================== *)
(** ** Python's string order *)
(* ================================================================== *)

Lemma ascii_compare_refl (c : ascii) : Ascii.compare c c = Eq.
Proof. unfold Ascii.compare. apply N.compare_refl. Qed.

Lemma string_compare_refl (s : string) : String.compare s s = Eq.
Proof.
  induction s as [|c s IH]; simpl; [reflexivity|].
  now rewrite ascii_compare_refl.
Qed.

Lemma ascii_compare_lt_trans (a b c : ascii) :
  Ascii.compare a b = Lt -> Ascii.compare b c = Lt -> Ascii.compare a c = Lt.
Proof.
  unfold Ascii.compare. rewrite !N.compare_lt_iff. apply N.lt_trans.
Qed.

Lemma string_compare_lt_trans (s1 s2 s3 : string) :
  String.compare s1 s2 = Lt -> String.compare s2 s3 = Lt ->
  String.compare s1 s3 = Lt.
Proof.
  revert s2 s3.
  induction s1 as [|a s1 IH]; intros [|b s2] [|c s3]; simpl;
    try discriminate; try reflexivity.
  destruct (Ascii.compare a b) eqn:Eab; try discriminate.
  - apply Ascii.compare_eq_iff in Eab. subst b.
    destruct (Ascii.compare a c); try discriminate; auto.
    intros H1 H2. eapply IH; eassumption.
  - intros _.
    destruct (Ascii.compare b c) eqn:Ebc; try discriminate.
    + apply Ascii.compare_eq_iff in Ebc. subst c. now rewrite Eab.
    + intros _. now rewrite (ascii_compare_lt_trans _ _ _ Eab Ebc).
Qed.

Lemma str_le_refl (s : string) : str_le s s.
Proof. unfold str_le, String.leb. now rewrite string_compare_refl. Qed.

Lemma str_le_trans (s1 s2 s3 : string) :
  str_le s1 s2 -> str_le s2 s3 -> str_le s1 s3.
Proof.
  unfold str_le, String.leb. intros H12 H23.
  destruct (String.compare s1 s2) eqn:E12; try discriminate.
  - apply String.compare_eq_iff in E12. now subst s2.
  - destruct (String.compare s2 s3) eqn:E23; try discriminate.
    + apply String.compare_eq_iff in E23. subst s3. now rewrite E12.
    + now rewrite (string_compare_lt_trans _ _ _ E12 E23).
Qed.

Lemma ltb_str_le (s1 s2 : string) : String.ltb s1 s2 = true -> str_le s1 s2.
Proof.
  unfold str_le, String.ltb, String.leb.
  destruct (String.compare s1 s2); congruence.
Qed.

Lemma not_ltb_str_le (s1 s2 : string) : String.ltb s1 s2 = false -> str_le s2 s1.
Proof.
  unfold str_le, String.ltb, String.leb.
  rewrite (String.compare_antisym s2 s1).
  destruct (String.compare s1 s2); simpl; congruence.
Qed.

Lemma str_le_antisym (s1 s2 : string) : str_le s1 s2 -> str_le s2 s1 -> s1 = s2.
Proof.
  unfold str_le, String.leb. rewrite (String.compare_antisym s2 s1).
  destruct (String.compare s1 s2) eqn:E; simpl; try discriminate.
  intros _ _. now apply String.compare_eq_iff.
Qed.

(** The maximum of a list of strings is one of them and is above all
    of them; only the empty list has none. *)
Lemma max_string_spec (l : list string) :
  match max_string l with
  | Some m => In m l /\ Forall (fun s => str_le s m) l
  | None => l = []
  end.
Proof.
  induction l as [|s l IH]; simpl; [reflexivity|].
  destruct (max_string l) as [m|].
  - destruct IH as [Hin Hall].
    destruct (String.leb s m) eqn:Hle.
    + split; [now right|]. constructor; assumption.
    + assert (Hms : str_le m s).
      { unfold str_le, String.leb in *. rewrite (String.compare_antisym m s).
        destruct (String.compare s m); simpl; congruence. }
      split; [now left|]. constructor; [apply str_le_refl|].
      eapply Forall_impl; [|exact Hall]. cbv beta. intros x Hx.
      eapply str_le_trans; eassumption.
  - subst l. split; [now left|]. repeat constructor. apply str_le_refl.
Qed.

(* ================================================================== *)
(** ** Dictionaries *)
(* ================================================================== *)

Section DictFacts.

Context {A : Type}.

Implicit Types (d acc : dict A) (items : list (string * A)) (k : string) (v : A).

Lemma fill_app items1 items2 acc :
  fill (items1 ++ items2) acc = fill items2 (fill items1 acc).
Proof. apply fold_left_app. Qed.

Lemma dict_set_absent k v d :
  ~ In k (keys d) -> dict_set k v d = d ++ [(k, v)].
Proof.
  induction d as [|[k' v'] d IH]; simpl; intros Hk; [reflexivity|].
  destruct (String.eqb_spec k' k) as [->|Hne].
  - exfalso. apply Hk. now left.
  - rewrite IH; [reflexivity|]. intros Hin. apply Hk. now right.
Qed.

Lemma keys_dict_set_present k v d :
  In k (keys d) -> keys (dict_set k v d) = keys d.
Proof.
  induction d as [|[k' v'] d IH]; simpl; intros Hk; [contradiction|].
  destruct (String.eqb_spec k' k) as [->|Hne]; simpl; [reflexivity|].
  f_equal. apply IH. destruct Hk as [Hk|Hk]; [contradiction|assumption].
Qed.

Lemma in_keys_dict_set k v d : In k (keys (dict_set k v d)).
Proof.
  induction d as [|[k' v'] d IH]; simpl; [now left|].
  destruct (String.eqb_spec k' k) as [->|Hne]; simpl; [now left|now right].
Qed.

Lemma in_keys_dict_set_other k k' v d :
  In k (keys d) -> In k (keys (dict_set k' v d)).
Proof.
  induction d as [|[k1 v1] d IH]; simpl; [contradiction|].
  destruct (String.eqb_spec k1 k'); simpl; intros [H|H]; auto.
Qed.

Lemma nodup_keys_dict_set k v d :
  NoDup (keys d) -> NoDup (keys (dict_set k v d)).
Proof.
  intros Hnd. destruct (in_dec string_dec k (keys d)) as [Hin|Hnin].
  - now rewrite keys_dict_set_present.
  - rewrite dict_set_absent by assumption. unfold keys. rewrite map_app. simpl.
    apply NoDup_app; [assumption | repeat constructor; simpl; tauto |].
    intros x Hx [Hx'|[]]. subst x. contradiction.
Qed.

Lemma nodup_keys_fill items acc :
  NoDup (keys acc) -> NoDup (keys (fill items acc)).
Proof.
  revert acc. induction items as [|[k v] items IH]; simpl; intros acc Hnd;
    [assumption|].
  apply IH. now apply nodup_keys_dict_set.
Qed.

Lemma dict_set_twice k v v0 d : dict_set k v (dict_set k v0 d) = dict_set k v d.
Proof.
  induction d as [|[k' v'] d IH]; simpl.
  - now rewrite String.eqb_refl.
  - destruct (String.eqb_spec k' k) as [->|Hne]; simpl.
    + now rewrite String.eqb_refl.
    + rewrite (proj2 (String.eqb_neq k' k) Hne). now rewrite IH.
Qed.

(** Writing a key that is already present commutes with writing another. *)
Lemma dict_set_swap k k' v v' d :
  In k (keys d) -> k <> k' ->
  dict_set k v (dict_set k' v' d) = dict_set k' v' (dict_set k v d).
Proof.
  induction d as [|[k1 v1] d IH]; simpl; intros Hin Hne; [contradiction|].
  destruct (String.eqb k1 k') eqn:E1; destruct (String.eqb k1 k) eqn:E2; simpl;
    rewrite ?E1, ?E2; try reflexivity.
  - apply String.eqb_eq in E1, E2. congruence.
  - f_equal. apply IH; [|assumption].
    destruct Hin as [Hin|Hin]; [|assumption].
    apply String.eqb_neq in E2. congruence.
Qed.

Lemma dict_set_fill_swap k v items acc :
  In k (keys acc) -> ~ In k (keys items) ->
  dict_set k v (fill items acc) = fill items (dict_set k v acc).
Proof.
  revert acc. induction items as [|[k' v'] items IH]; simpl; intros acc Hin Hnin;
    [reflexivity|].
  rewrite IH.
  - rewrite dict_set_swap; [reflexivity|assumption|].
    intros ->. apply Hnin. now left.
  - now apply in_keys_dict_set_other.
  - intros H. apply Hnin. now right.
Qed.

(** Inserting the items of a dict after one more write is that write
    after inserting them. *)
Lemma fill_dict_set k v d acc :
  NoDup (keys d) ->
  fill (dict_set k v d) acc = dict_set k v (fill d acc).
Proof.
  revert acc. induction d as [|[k1 v1] d IH]; simpl; intros acc Hnd;
    [reflexivity|].
  inversion Hnd as [|? ? Hnin Hnd']; subst.
  destruct (String.eqb_spec k1 k) as [->|Hne]; simpl.
  - rewrite dict_set_fill_swap.
    + now rewrite dict_set_twice.
    + apply in_keys_dict_set.
    + assumption.
  - now apply IH.
Qed.

(** [dict(items).items()] inserts like [items]. *)
Lemma fill_dict_of_items items acc :
  fill (dict_of_items items) acc = fill items acc.
Proof.
  unfold dict_of_items. fold (fill items []).
  induction items as [|[k v] items IH] using rev_ind; [reflexivity|].
  rewrite !fill_app. simpl.
  rewrite fill_dict_set by (apply nodup_keys_fill; constructor).
  now rewrite IH.
Qed.

Lemma fill_nodup d acc :
  NoDup (keys (acc ++ d)) -> fill d acc = acc ++ d.
Proof.
  revert acc. induction d as [|[k v] d IH]; simpl; intros acc Hnd.
  - now rewrite app_nil_r.
  - assert (Hnin : ~ In k (keys acc)).
    { unfold keys in *. rewrite map_app in Hnd. simpl in Hnd.
      apply NoDup_remove_2 in Hnd. intros H. apply Hnd.
      apply in_or_app. now left. }
    rewrite dict_set_absent by assumption.
    rewrite IH; rewrite <- app_assoc; simpl; [reflexivity|assumption].
Qed.

(** [dict(d.items()) == d], in the same order. *)
Lemma dict_of_items_nodup d : NoDup (keys d) -> dict_of_items d = d.
Proof. intros H. apply (fill_nodup d []). assumption. Qed.

Lemma forall_values_dict_set (Q : A -> Prop) k v d :
  Q v -> Forall (fun kv => Q (snd kv)) d ->
  Forall (fun kv => Q (snd kv)) (dict_set k v d).
Proof.
  intros Hv. induction d as [|[k' v'] d IH]; simpl; intros Hd.
  - repeat constructor. assumption.
  - inversion Hd; subst. destruct (String.eqb k' k); constructor; auto.
Qed.

Lemma forall_values_fill (Q : A -> Prop) items acc :
  Forall (fun kv => Q (snd kv)) items -> Forall (fun kv => Q (snd kv)) acc ->
  Forall (fun kv => Q (snd kv)) (fill items acc).
Proof.
  revert acc. induction items as [|[k v] items IH]; simpl; intros acc Hi Ha;
    [assumption|].
  inversion Hi; subst. apply IH; [assumption|].
  now apply forall_values_dict_set.
Qed.

End DictFacts.

(* ================================================================== *)
(** ** The flattener *)
(* ================================================================== *)

(** Induction on a JSON value through the entries of its mappings. *)
Lemma value_dict_ind (P : value -> Prop) :
  (forall v, (forall d, v <> VDict d) -> P v) ->
  (forall d, Forall (fun kv => P (snd kv)) d -> P (VDict d)) ->
  forall v, P v.
Proof.
  intros Hother Hdict. fix IH 1.
  intros v. destruct v as [ | b | z | f | s | l | d];
    try (apply Hother; intros d0; discriminate).
  apply Hdict. induction d as [|[k v] d IHd]; constructor.
  - simpl. apply IH.
  - exact IHd.
Qed.

Section FlattenFacts.

Variable env : Env.

Lemma same_items_app l1 l2 r1 r2 :
  same_items l1 l2 -> same_items r1 r2 -> same_items (l1 ++ r1) (l2 ++ r2).
Proof. intros Hl Hr acc. rewrite !fill_app, Hl. apply Hr. Qed.

Lemma flatten_items_cons k v rest parent_key sep :
  flatten_items env (VDict ((k, v) :: rest)) parent_key sep =
  match v with
  | VDict _ =>
      dict_of_items
        (flatten_items env v
           (if String.eqb parent_key "" then k else (parent_key ++ sep ++ k)%string)
           sep)
  | VList l =>
      [(if String.eqb parent_key "" then k else (parent_key ++ sep ++ k)%string,
        match l with [] => VNone | _ => VStr (json_dumps env l) end)]
  | _ => [(if String.eqb parent_key "" then k else (parent_key ++ sep ++ k)%string, v)]
  end ++ flatten_items env (VDict rest) parent_key sep.
Proof. reflexivity. Qed.

Lemma leaves_cons k v rest path :
  leaves (VDict ((k, v) :: rest)) path =
  match v with
  | VDict _ => leaves v (path ++ [k])
  | _ => [(path ++ [k], v)]
  end ++ leaves (VDict rest) path.
Proof. reflexivity. Qed.

Lemma string_append_assoc (s1 s2 s3 : string) :
  ((s1 ++ s2) ++ s3)%string = (s1 ++ s2 ++ s3)%string.
Proof. induction s1 as [|c s1 IH]; simpl; [reflexivity|now rewrite IH]. Qed.

Lemma concat_snoc sep p k :
  p <> [] -> String.concat sep (p ++ [k]) = (String.concat sep p ++ sep ++ k)%string.
Proof.
  induction p as [|x p IH]; intros Hp; [congruence|].
  destruct p as [|y p].
  - reflexivity.
  - change (String.concat sep ((x :: y :: p) ++ [k]))
      with (x ++ sep ++ String.concat sep ((y :: p) ++ [k]))%string.
    rewrite IH by discriminate.
    change (String.concat sep (x :: y :: p))
      with (x ++ sep ++ String.concat sep (y :: p))%string.
    rewrite !string_append_assoc. reflexivity.
Qed.

Lemma append_empty_l (s1 s2 : string) : (s1 ++ s2)%string = "" -> s1 = "".
Proof. destruct s1; simpl; [reflexivity|discriminate]. Qed.

Lemma concat_nonempty sep x p : x <> "" -> String.concat sep (x :: p) <> "".
Proof.
  intros Hx H. destruct p; simpl in H; [contradiction|].
  apply append_empty_l in H. contradiction.
Qed.

Lemma drop_empty_prefix_head path :
  match drop_empty_prefix path with
  | [] => True
  | x :: _ => x <> ""
  end.
Proof.
  induction path as [|k path IH]; simpl; [exact I|].
  destruct (String.eqb_spec k ""); assumption.
Qed.

Lemma drop_empty_prefix_snoc path k :
  drop_empty_prefix (path ++ [k]) =
  match drop_empty_prefix path with
  | [] => if String.eqb k "" then [] else [k]
  | p => p ++ [k]
  end.
Proof.
  induction path as [|x path IH]; simpl; [reflexivity|].
  destruct (String.eqb x ""); [assumption|reflexivity].
Qed.

(** The key built for a child is the key of the extended path. *)
Lemma path_key_snoc sep path k :
  (if String.eqb (path_key sep path) "" then k
   else (path_key sep path ++ sep ++ k)%string) = path_key sep (path ++ [k]).
Proof.
  unfold path_key. rewrite drop_empty_prefix_snoc.
  pose proof (drop_empty_prefix_head path) as Hhd.
  destruct (drop_empty_prefix path) as [|x p].
  - simpl. destruct (String.eqb_spec k ""); simpl; congruence.
  - rewrite concat_snoc by discriminate.
    rewrite (proj2 (String.eqb_neq _ _) (concat_nonempty sep x p Hhd)).
    reflexivity.
Qed.

Lemma path_key_concat sep path :
  hd "" path <> "" -> path_key sep path = String.concat sep path.
Proof.
  unfold path_key. destruct path as [|k path]; simpl; [reflexivity|].
  intros Hk. now rewrite (proj2 (String.eqb_neq _ _) Hk).
Qed.

(** The items built by the code insert like the leaves of the input
    under their path keys. *)
Lemma flatten_items_leaves sep v :
  forall path,
    same_items (flatten_items env v (path_key sep path) sep)
               (map (fun pv => (path_key sep (fst pv), stored env (snd pv)))
                    (leaves v path)).
Proof.
  induction v as [v Hv | d IHd] using value_dict_ind; intros path.
  - destruct v; try (intros acc; reflexivity). exfalso. now apply (Hv d).
  - induction d as [|[k v] d IH]; [intros acc; reflexivity|].
    inversion IHd as [|? ? Hhead Htail]; subst. simpl in Hhead.
    rewrite flatten_items_cons, leaves_cons, map_app.
    rewrite path_key_snoc.
    apply same_items_app; [|apply IH; assumption].
    destruct v as [ | b | z | f | s | l | d']; try (intros acc; reflexivity).
    intros acc. rewrite fill_dict_of_items. apply Hhead.
Qed.

Lemma flatten_items_scalar sep v :
  forall parent_key,
    Forall (fun kv => is_scalar (snd kv) = true)
           (flatten_items env v parent_key sep).
Proof.
  induction v as [v Hv | d IHd] using value_dict_ind; intros parent_key.
  - destruct v; try constructor. exfalso. now apply (Hv d).
  - induction d as [|[k v] d IH]; [constructor|].
    inversion IHd as [|? ? Hhead Htail]; subst. simpl in Hhead.
    rewrite flatten_items_cons. apply Forall_app. split; [|now apply IH].
    destruct v as [ | b | z | f | s | l | d'];
      try (repeat constructor; fail).
    + destruct l; repeat constructor.
    + apply (forall_values_fill (fun v => is_scalar v = true));
        [apply Hhead | constructor].
Qed.

Lemma flatten_dict_scalar d parent_key sep :
  Forall (fun kv => is_scalar (snd kv) = true) (flatten_dict env d parent_key sep).
Proof.
  apply (forall_values_fill (fun v => is_scalar v = true));
    [apply flatten_items_scalar | constructor].
Qed.

Lemma flatten_dict_nodup d parent_key sep :
  NoDup (keys (flatten_dict env d parent_key sep)).
Proof. apply nodup_keys_fill. constructor. Qed.

Lemma flatten_items_flat sep d :
  Forall (fun kv => is_scalar (snd kv) = true) d ->
  flatten_items env (VDict d) "" sep = d.
Proof.
  induction d as [|[k v] d IH]; intros Hd; [reflexivity|].
  inversion Hd as [|? ? Hv Hd']; subst. simpl in Hv.
  rewrite flatten_items_cons, IH by assumption.
  destruct v; try discriminate; reflexivity.
Qed.

(** C8. Flattening is idempotent: the flattened result of any mapping
    holds no nested value (no mapping and no sequence), and flattening
    it again gives it back, keys in the same order. *)
Theorem flatten_dict_idempotent (d : dict value) :
  Forall (fun kv => is_scalar (snd kv) = true) (flatten_dict env d "" "_") /\
  flatten_dict env (flatten_dict env d "" "_") "" "_" = flatten_dict env d "" "_".
Proof.
  split; [apply flatten_dict_scalar|].
  unfold flatten_dict at 1.
  rewrite flatten_items_flat by apply flatten_dict_scalar.
  apply dict_of_items_nodup, flatten_dict_nodup.
Qed.

(** C9, amended. [flatten_dict] stores, for every leaf of the input in
    document order (a later entry with the same key overwriting an
    earlier one in place), the key path joined with [_] after dropping
    the leading empty-string keys of the path, mapped to: the JSON
    serialization of a non-empty sequence, null for an empty sequence,
    the value itself for a scalar.  For a path whose first key is not
    empty that key is the whole path joined with [_], so
    [{"a": {"b": 1}}] yields [a_b] mapped to [1]. *)
Theorem flatten_dict_paths (d : dict value) :
  flatten_dict env d "" "_" =
    dict_of_items
      (map (fun pv => (path_key "_" (fst pv), stored env (snd pv)))
           (leaves (VDict d) [])) /\
  (forall path, hd "" path <> "" -> path_key "_" path = String.concat "_" path) /\
  (forall l, stored env (VList l) =
             match l with [] => VNone | _ => VStr (json_dumps env l) end) /\
  (forall v, is_scalar v = true -> stored env v = v) /\
  flatten_dict env [("a", VDict [("b", VInt 1)])] "" "_" = [("a_b", VInt 1)].
Proof.
  split; [|split; [|split; [|split]]].
  - unfold flatten_dict, dict_of_items.
    apply (flatten_items_leaves "_" (VDict d) [] []).
  - intros path. apply path_key_concat.
  - intros [|x l]; reflexivity.
  - intros v Hv. destruct v; try discriminate; reflexivity.
  - reflexivity.
Qed.

End FlattenFacts.

(** C9, as stated, fails: under an empty-string key the nested keys are
    not prefixed with the separator. *)
Lemma flatten_dict_empty_key_counterexample :
  flatten_dict (demo_env []) [("", VDict [("b", VInt 1)])] "" "_"
    = [("b", VInt 1)] /\
  spec_flatten_dict (demo_env []) [("", VDict [("b", VInt 1)])]
    = [("_b", VInt 1)] /\
  flatten_dict (demo_env []) [("", VDict [("b", VInt 1)])] "" "_"
    <> spec_flatten_dict (demo_env []) [("", VDict [("b", VInt 1)])].
Proof. repeat split. discriminate. Qed.

(* ================================================================== *)
(** ** Running computations *)
(* ================================================================== *)

Lemma prepend_nil {A : Type} (o : outcome A) : prepend [] o = o.
Proof. destruct o; reflexivity. Qed.

Lemma prepend_prepend {A : Type} (p q : list event) (o : outcome A) :
  prepend p (prepend q o) = prepend (p ++ q) o.
Proof. destruct o; simpl; now rewrite ?app_assoc. Qed.

Lemma bind_emit {A : Type} (ev : event) (k : unit -> M A) (w : World) :
  bind (emit ev) k w = prepend [ev] (k tt w).
Proof. unfold bind, emit. destruct (k tt w); reflexivity. Qed.

Lemma bind_log {A : Type} lvl msg (k : unit -> M A) (w : World) :
  bind (log lvl msg) k w = prepend [EvLog lvl msg] (k tt w).
Proof. apply bind_emit. Qed.

Lemma bind_ret {A B : Type} (a : A) (k : A -> M B) (w : World) :
  bind (ret a) k w = k a w.
Proof. unfold bind, ret. destruct (k a w); reflexivity. Qed.

Lemma bind_raise {A B : Type} (e : exn) (k : A -> M B) (w : World) :
  bind (raise e) k w = Raise e [] w.
Proof. reflexivity. Qed.

Lemma bind_lift {A B : Type} (r : exn + A) (k : A -> M B) (w : World) :
  bind (lift r) k w = match r with inl e => Raise e [] w | inr a => k a w end.
Proof. destruct r; [reflexivity|apply bind_ret]. Qed.

Lemma checkpoints_app evs1 evs2 :
  checkpoints (evs1 ++ evs2) = checkpoints evs1 ++ checkpoints evs2.
Proof.
  induction evs1 as [|ev evs1 IH]; simpl; [reflexivity|].
  destruct ev; simpl; now rewrite IH.
Qed.

Lemma fetches_app evs1 evs2 :
  fetches (evs1 ++ evs2) = fetches evs1 ++ fetches evs2.
Proof.
  induction evs1 as [|ev evs1 IH]; simpl; [reflexivity|].
  destruct ev; simpl; now rewrite IH.
Qed.

Lemma sleeps_app evs1 evs2 : sleeps (evs1 ++ evs2) = sleeps evs1 ++ sleeps evs2.
Proof.
  induction evs1 as [|ev evs1 IH]; simpl; [reflexivity|].
  destruct ev; simpl; now rewrite IH.
Qed.

Lemma processed_batches_app evs1 evs2 :
  processed_batches (evs1 ++ evs2) =
  processed_batches evs1 ++ processed_batches evs2.
Proof.
  induction evs1 as [|ev evs1 IH]; simpl; [reflexivity|].
  destruct ev as [| | | |lvl msg]; simpl; try assumption.
  destruct msg; simpl; now rewrite IH.
Qed.

Lemma fetched_pages_app evs1 evs2 :
  fetched_pages (evs1 ++ evs2) = fetched_pages evs1 ++ fetched_pages evs2.
Proof.
  induction evs1 as [|ev evs1 IH]; simpl; [reflexivity|].
  destruct ev as [url params a| | | |]; simpl; try assumption.
  destruct (page_of a); simpl; now rewrite IH.
Qed.

Lemma silent_checkpoints evs :
  forallb silent evs = true -> checkpoints evs = [].
Proof.
  induction evs as [|ev evs IH]; simpl; [reflexivity|].
  intros H. apply andb_prop in H as [Hev H].
  destruct ev; simpl in *; try discriminate; auto.
Qed.

Lemma silent_fetched_pages evs :
  forallb silent evs = true -> fetched_pages evs = [].
Proof.
  induction evs as [|ev evs IH]; simpl; [reflexivity|].
  intros H. apply andb_prop in H as [Hev H].
  destruct ev as [url params a| | | |]; simpl in *; auto.
  destruct (page_of a); [discriminate|auto].
Qed.

Lemma silent_processed_batches evs :
  forallb silent evs = true -> processed_batches evs = [].
Proof.
  induction evs as [|ev evs IH]; simpl; [reflexivity|].
  intros H. apply andb_prop in H as [Hev H].
  destruct ev as [| | | |lvl msg]; simpl in *; auto.
  destruct msg; simpl in *; try discriminate; auto.
Qed.

Lemma marks_app evs1 evs2 : marks (evs1 ++ evs2) = marks evs1 ++ marks evs2.
Proof.
  induction evs1 as [|ev evs1 IH]; simpl; [reflexivity|].
  destruct ev as [url params a| | | |lvl msg]; simpl; try (now rewrite IH).
  - destruct (page_of a); simpl; now rewrite IH.
  - destruct msg; simpl; now rewrite IH.
Qed.

Lemma silent_marks evs : forallb silent evs = true -> marks evs = [].
Proof.
  induction evs as [|ev evs IH]; simpl; [reflexivity|].
  intros H. apply andb_prop in H as [Hev H].
  destruct ev as [url params a| | | |lvl msg]; simpl in *; auto.
  - destruct (page_of a); [discriminate|auto].
  - discriminate.
  - destruct msg; simpl in *; try discriminate; auto.
Qed.

Lemma silent_not_exhausted evs :
  forallb silent evs = true -> ~ In retries_exhausted evs.
Proof.
  intros H Hin. rewrite forallb_forall in H. apply H in Hin. discriminate.
Qed.

Lemma silent_not_no_response evs :
  forallb silent evs = true -> ~ In no_response_warning evs.
Proof.
  intros H Hin. rewrite forallb_forall in H. apply H in Hin. discriminate.
Qed.

Lemma silent_app evs1 evs2 :
  forallb silent evs1 = true -> forallb silent evs2 = true ->
  forallb silent (evs1 ++ evs2) = true.
Proof. intros H1 H2. rewrite forallb_app, H1, H2. reflexivity. Qed.

(* ================================================================== *)
(** ** The retry client *)
(* ================================================================== *)

Section RetryFacts.

Variable env : Env.

Lemma attempt_error_request_exception a e :
  attempt_error a = Some e -> is_request_exception e = true.
Proof.
  destruct a as [msg|r]; simpl.
  - intros [= <-]. reflexivity.
  - destruct (response_ok r); [discriminate|]. intros [= <-]. reflexivity.
Qed.

Lemma attempt_error_no_page a e : attempt_error a = Some e -> page_of a = None.
Proof.
  destruct a as [msg|r]; simpl; [reflexivity|].
  destruct (response_ok r); [discriminate|reflexivity].
Qed.

(** One iteration of the retry loop, by the outcome of its request. *)
Lemma retry_attempts_step todo attempt url params max_retries w :
  retry_attempts env (S todo) attempt url params max_retries w =
  let a := http_get env (calls w) params in
  let w' := mkWorld (S (calls w)) (reads w) in
  match attempt_error a with
  | Some e =>
      if attempt <? max_retries - 1 then
        prepend [EvGet url params a;
                 EvLog Warning (MsgRequestFailed (attempt + 1) max_retries e);
                 EvLog Info (MsgRetrying (2 ^ attempt));
                 EvSleep (inject_Z (2 ^ attempt))]
          (retry_attempts env todo (attempt + 1) url params max_retries w')
      else
        Raise e [EvGet url params a;
                 EvLog Warning (MsgRequestFailed (attempt + 1) max_retries e);
                 retries_exhausted] w'
  | None =>
      match a with
      | Responded r => Return (Some r) [EvGet url params a] w'
      | NetworkFailure msg => Raise (ConnectionError msg) [] w'
      end
  end.
Proof.
  cbv zeta. simpl.
  unfold try_except, bind, requests_get, raise_for_status, log, sleep, emit,
    ret, raise.
  destruct (http_get env (calls w) params) as [msg|r]; simpl.
  - destruct (attempt <? max_retries - 1); simpl; [|reflexivity].
    now destruct (retry_attempts env todo (attempt + 1) url params max_retries _).
  - destruct (response_ok r); simpl; [reflexivity|].
    destruct (attempt <? max_retries - 1); simpl; [|reflexivity].
    now destruct (retry_attempts env todo (attempt + 1) url params max_retries _).
Qed.

(** What a call of the retry loop can do when its iterations run up to
    [max_retries - 1]: return an ok response obtained by its last
    request, or raise the request exception of its last attempt after
    logging that the retries are exhausted; it returns [None] only when
    there is no iteration to run. *)
Lemma retry_attempts_spec url params max_retries todo :
  forall attempt w,
    attempt + Z.of_nat todo = max_retries ->
    match retry_attempts env todo attempt url params max_retries w with
    | Return (Some r) evs w' =>
        response_ok r = true /\ reads w' = reads w /\
        exists pre, evs = pre ++ [EvGet url params (Responded r)] /\
                    forallb silent pre = true
    | Return None evs w' => todo = 0%nat /\ evs = [] /\ w' = w
    | Raise e evs w' =>
        is_request_exception e = true /\ reads w' = reads w /\
        exists pre, evs = pre ++ [retries_exhausted] /\
                    forallb silent pre = true
    | OutOfFuel => False
    end.
Proof.
  induction todo as [|todo IH]; intros attempt w Hmax.
  - simpl. auto.
  - rewrite retry_attempts_step. cbv zeta.
    destruct (attempt_error (http_get env (calls w) params)) as [e|] eqn:Herr.
    + pose proof (attempt_error_no_page _ _ Herr) as Hpage.
      destruct (attempt <? max_retries - 1) eqn:Hlt.
      * apply Z.ltb_lt in Hlt.
        specialize (IH (attempt + 1)
                       {| calls := S (calls w); reads := reads w |}).
        destruct (retry_attempts env todo (attempt + 1) url params max_retries _)
          as [[r|] evs w'|e' evs w'|]; simpl.
        -- destruct IH as (Hok & Hreads & pre & -> & Hpre); [lia|].
           repeat split; [assumption|assumption|].
           eexists (_ :: _ :: _ :: _ :: pre). split; [reflexivity|].
           simpl. now rewrite Hpage.
        -- destruct IH as (Htodo & _); [lia|]. subst todo. simpl in Hmax. lia.
        -- destruct IH as (Hexn & Hreads & pre & -> & Hpre); [lia|].
           repeat split; [assumption|assumption|].
           eexists (_ :: _ :: _ :: _ :: pre). split; [reflexivity|].
           simpl. now rewrite Hpage.
        -- apply IH. lia.
      * split; [eapply attempt_error_request_exception; eassumption|].
        split; [reflexivity|].
        eexists [_; _]. split; [reflexivity|]. simpl. now rewrite Hpage.
    + destruct (http_get env (calls w) params) as [msg|r]; [discriminate|].
      simpl in Herr. destruct (response_ok r) eqn:Hok; [|discriminate].
      repeat split; try reflexivity. exists []. split; reflexivity.
Qed.

Lemma make_api_request_with_retry_spec url params max_retries w :
  1 <= max_retries ->
  match make_api_request_with_retry env url params max_retries w with
  | Return (Some r) evs w' =>
      response_ok r = true /\ reads w' = reads w /\
      exists pre, evs = pre ++ [EvGet url params (Responded r)] /\
                  forallb silent pre = true
  | Return None evs w' => False
  | Raise e evs w' =>
      is_request_exception e = true /\ reads w' = reads w /\
      exists pre, evs = pre ++ [retries_exhausted] /\
                  forallb silent pre = true
  | OutOfFuel => False
  end.
Proof.
  intros Hmax. unfold make_api_request_with_retry.
  pose proof (retry_attempts_spec url params max_retries
                (Z.to_nat max_retries) 0 w) as H.
  destruct (retry_attempts env (Z.to_nat max_retries) 0 url params max_retries w)
    as [[r|] evs w'|e evs w'|]; try (apply H; lia).
  destruct H as (Htodo & _); lia.
Qed.

(** C5. With the default of 3 attempts, when the first two attempts of
    a request fail transiently (network error or 4xx/5xx status) and
    the third succeeds, the retry client issues exactly three requests,
    sleeps [2^0 = 1] second after the first failure and [2^1 = 2]
    seconds after the second (3 seconds in total), and returns the
    response of the third request. *)
Theorem retry_succeeds_on_third_attempt url params w e1 e2 r :
  attempt_error (http_get env (calls w) params) = Some e1 ->
  attempt_error (http_get env (S (calls w)) params) = Some e2 ->
  http_get env (S (S (calls w))) params = Responded r ->
  response_ok r = true ->
  let evs :=
    [EvGet url params (http_get env (calls w) params);
     EvLog Warning (MsgRequestFailed 1 3 e1);
     EvLog Info (MsgRetrying 1);
     EvSleep 1;
     EvGet url params (http_get env (S (calls w)) params);
     EvLog Warning (MsgRequestFailed 2 3 e2);
     EvLog Info (MsgRetrying 2);
     EvSleep 2;
     EvGet url params (Responded r)] in
  make_api_request_with_retry env url params 3 w
    = Return (Some r) evs (mkWorld (S (S (S (calls w)))) (reads w)) /\
  sleeps evs = [1%Q; 2%Q] /\
  total_delay (sleeps evs) = 3%Q /\
  List.length (fetches evs) = 3%nat.
Proof.
  intros H1 H2 H3 Hok evs. subst evs.
  split; [|repeat split].
  unfold make_api_request_with_retry.
  change (Z.to_nat 3) with 3%nat.
  rewrite retry_attempts_step. cbv zeta. rewrite H1.
  change (0 <? 3 - 1) with true. cbv iota.
  rewrite retry_attempts_step. cbv zeta. cbn [calls reads]. rewrite H2.
  change (0 + 1 <? 3 - 1) with true. cbv iota.
  rewrite retry_attempts_step. cbv zeta. cbn [calls reads]. rewrite H3.
  simpl attempt_error. rewrite Hok. reflexivity.
Qed.

End RetryFacts.

Lemma retry_succeeds_on_third_attempt_witness :
  make_api_request_with_retry flaky_env base_url demo_params 3 w0
    = Return (Some (mkResponse 200
                      (Some (VDict [("results",
                                     VList [recall "F-1" "20240315"])]))))
        [EvGet base_url demo_params (NetworkFailure "timeout");
         EvLog Warning (MsgRequestFailed 1 3 (ConnectionError "timeout"));
         EvLog Info (MsgRetrying 1);
         EvSleep 1;
         EvGet base_url demo_params (Responded (mkResponse 503 None));
         EvLog Warning (MsgRequestFailed 2 3 (HTTPError 503));
         EvLog Info (MsgRetrying 2);
         EvSleep 2;
         EvGet base_url demo_params (page [recall "F-1" "20240315"])]
        (mkWorld 3 0).
Proof.
  exact (proj1 (retry_succeeds_on_third_attempt flaky_env base_url demo_params w0
                  (ConnectionError "timeout") (HTTPError 503)
                  (mkResponse 200
                     (Some (VDict [("results", VList [recall "F-1" "20240315"])])))
                  eq_refl eq_refl eq_refl eq_refl)).
Defined.

(* ================================================================== *)
(** ** The cursor extractor *)
(* ================================================================== *)

Section CursorFacts.

Variable env : Env.

Lemma iso_of_not_empty year month day : iso_of year month day <> "".
Proof. unfold iso_of. destruct year; discriminate. Qed.

(** On records whose [report_date] is absent, null or a string, the
    scan keeps the newest of the normalized 8-character entries. *)
Lemma scan_records_string_dated records :
  Forall string_dated records ->
  forall latest_date,
    scan_records env records latest_date =
    inr (fold_left (fun acc s => newer (normalize s) acc)
                   (raw_dates has_length_8 records) latest_date).
Proof.
  induction 1 as [|record records Hrec _ IH]; intros latest_date; [reflexivity|].
  destruct record as [ | | | | | |d]; try contradiction.
  simpl in *. destruct (dict_get "report_date" d) as [[ | | | |s| | ]|];
    try contradiction; simpl; try apply IH.
  unfold has_length_8.
  destruct (String.eqb_spec s "") as [->|Hne]; simpl; [apply IH|].
  destruct (Nat.eqb (String.length s) 8); simpl; apply IH.
Qed.

Lemma newer_spec iso_date latest_date :
  exists c, newer iso_date latest_date = Some c /\
            str_le iso_date c /\
            (c = iso_date \/ latest_date = Some c) /\
            (forall c0, latest_date = Some c0 -> str_le c0 c).
Proof.
  destruct latest_date as [cur|]; simpl.
  - destruct (String.ltb cur iso_date) eqn:Hlt.
    + exists iso_date. repeat split; auto using str_le_refl.
      intros c0 [= <-]. now apply ltb_str_le.
    + exists cur. repeat split; auto.
      * now apply not_ltb_str_le.
      * intros c0 [= <-]. apply str_le_refl.
  - exists iso_date. repeat split; auto using str_le_refl. discriminate.
Qed.

(** The newest of a non-empty list of dates is one of them (or the
    date held before) and is above all of them. *)
Lemma fold_newer_spec dates :
  forall latest_date,
    match fold_left (fun acc s => newer (normalize s) acc) dates latest_date with
    | Some c =>
        (In c (map normalize dates) \/ latest_date = Some c) /\
        Forall (fun d => str_le d c) (map normalize dates) /\
        (forall c0, latest_date = Some c0 -> str_le c0 c)
    | None => dates = [] /\ latest_date = None
    end.
Proof.
  induction dates as [|s dates IH]; intros latest_date; simpl.
  - destruct latest_date as [c|]; [|auto].
    repeat split; auto. intros c0 [= <-]. apply str_le_refl.
  - destruct (newer_spec (normalize s) latest_date) as (c1 & Hc1 & Hle & Hor & Hold).
    rewrite Hc1. specialize (IH (Some c1)).
    destruct (fold_left _ dates (Some c1)) as [c|].
    + destruct IH as (Hin & Hall & Hprev).
      assert (Hc1c : str_le c1 c) by (apply Hprev; reflexivity).
      repeat split.
      * destruct Hin as [Hin|[= ->]]; [left; now right|].
        destruct Hor as [->|Hor]; [left; now left|now right].
      * constructor; [eapply str_le_trans; eassumption|assumption].
      * intros c0 Hc0. eapply str_le_trans; [apply Hold; assumption|assumption].
    + destruct IH as [_ [=]].
Qed.

(** On a page that has a newest date the scan of the cursor extractor
    ends with that date. *)
Lemma newest_date_page_cursor page c :
  newest_date page c -> page_cursor env page = inr (Some c).
Proof.
  intros [Hdated Hmax]. unfold page_cursor.
  rewrite (scan_records_string_dated page Hdated None).
  pose proof (fold_newer_spec (raw_dates has_length_8 page) None) as Hfold.
  pose proof (max_string_spec (map normalize (raw_dates has_length_8 page))) as Hspec.
  rewrite Hmax in Hspec. destruct Hspec as [Hin Hall].
  destruct (fold_left _ (raw_dates has_length_8 page) None) as [c'|].
  - destruct Hfold as ([Hin'|[=]] & Hall' & _).
    do 2 f_equal. apply str_le_antisym.
    + rewrite Forall_forall in Hall. now apply Hall.
    + rewrite Forall_forall in Hall'. now apply Hall'.
  - destruct Hfold as [Hnil _]. rewrite Hnil in Hin. contradiction.
Qed.

(** C2, amended. On a batch of records whose [report_date] is absent,
    null or a string, the cursor extractor never raises; it skips the
    entries that are absent, null, empty or not 8 characters long,
    turns every 8-character entry [s] (numeric or not) into
    [s[0:4]-s[4:6]-s[6:8]T00:00:00Z] and returns the maximum of these
    under string comparison; when there is none it returns the reading
    of the clock taken at that moment. *)
Theorem get_latest_report_date_max (records : list value) (w : World) :
  Forall string_dated records ->
  match map normalize (raw_dates has_length_8 records) with
  | [] =>
      get_latest_report_date env (VList records) w
        = Return (utc_now env (reads w)) [] (mkWorld (calls w) (S (reads w)))
  | dates =>
      exists latest,
        get_latest_report_date env (VList records) w = Return latest [] w /\
        In latest dates /\
        Forall (fun d => str_le d latest) dates
  end.
Proof.
  intros Hrecords. unfold get_latest_report_date.
  simpl py_iter. rewrite bind_lift.
  rewrite (scan_records_string_dated records Hrecords None), bind_lift.
  pose proof (fold_newer_spec (raw_dates has_length_8 records) None) as Hfold.
  destruct (fold_left _ (raw_dates has_length_8 records) None) as [c|].
  - destruct Hfold as ([Hin|[=]] & Hall & _).
    destruct (map normalize (raw_dates has_length_8 records)) as [|d dates] eqn:Hd;
      [contradiction|].
    exists c. split; [|split; assumption].
    destruct (String.eqb_spec c "") as [->|Hne]; [|reflexivity].
    exfalso. clear - Hin Hd.
    assert (Hiso : forall l, In "" (map normalize l) -> False).
    { induction l as [|x l IHl]; simpl; [tauto|].
      intros [H|H]; [|auto]. now apply iso_of_not_empty in H. }
    rewrite <- Hd in Hin. exact (Hiso _ Hin).
  - destruct Hfold as [-> _]. reflexivity.
Qed.

End CursorFacts.

Lemma get_latest_report_date_max_witness :
  exists latest,
    get_latest_report_date (demo_env [])
      (VList [recall "F-1" "20240101"; recall "F-2" "20240315";
              recall "F-3" "2024"]) w0
      = Return latest [] w0 /\
    In latest ["2024-01-01T00:00:00Z"; "2024-03-15T00:00:00Z"] /\
    Forall (fun d => str_le d latest)
           ["2024-01-01T00:00:00Z"; "2024-03-15T00:00:00Z"].
Proof.
  apply (get_latest_report_date_max (demo_env [])
           [recall "F-1" "20240101"; recall "F-2" "20240315";
            recall "F-3" "2024"] w0).
  repeat constructor.
Defined.

(** C2, as stated, fails: a non-numeric entry of 8 characters is not
    skipped, it becomes the cursor. *)
Lemma get_latest_report_date_non_numeric_counterexample :
  well_formed_raw_date "abcdefgh" = false /\
  get_latest_report_date (demo_env []) (VList [recall "F-1" "abcdefgh"]) w0
    = Return "abcd-ef-ghT00:00:00Z" [] w0 /\
  spec_latest_report_date (demo_env []) [recall "F-1" "abcdefgh"] w0
    = Return demo_now [] (mkWorld 0 1) /\
  get_latest_report_date (demo_env []) (VList [recall "F-1" "abcdefgh"]) w0
    <> spec_latest_report_date (demo_env []) [recall "F-1" "abcdefgh"] w0.
Proof. repeat split. discriminate. Qed.

(* ================================================================== *)
(** ** Processing a page *)
(* ================================================================== *)

Section ProcessFacts.

Variable env : Env.

Lemma process_each_spec records :
  forall processed w,
    match process_each env records processed w with
    | Return out evs w' =>
        evs = [] /\ forallb is_dict_value records = true /\
        List.length out = (List.length processed + List.length records)%nat
    | Raise e evs w' => evs = []
    | OutOfFuel => False
    end.
Proof.
  induction records as [|record records IH]; intros processed w; simpl.
  - auto.
  - destruct record as [ | | | | | |d]; simpl; auto.
    unfold bind at 1, now_iso.
    match goal with |- context [process_each env records ?p ?w1] =>
      specialize (IH p w1); destruct (process_each env records p w1) end.
    + destruct IH as (-> & Hd & Hlen). repeat split; auto.
      rewrite Hlen, length_app. simpl. lia.
    + subst. reflexivity.
    + assumption.
Qed.

Lemma upsert_all_spec processed w :
  upsert_all processed w
    = Return tt (map (EvUpsert "food_enforcement_records") processed) w.
Proof.
  induction processed as [|record processed IH]; simpl; [reflexivity|].
  unfold upsert. rewrite bind_emit, IH. reflexivity.
Qed.

Lemma silent_upserts processed :
  forallb silent (map (EvUpsert "food_enforcement_records") processed) = true.
Proof. induction processed; simpl; auto. Qed.

(** A page goes through only if it is a sequence of mappings; the count
    returned is then its length, and nothing but upserts and one log
    line is emitted. *)
Lemma process_food_enforcement_records_spec records w :
  match process_food_enforcement_records env records w with
  | Return n evs w' =>
      forallb silent evs = true /\
      exists rs, py_iter records = inr rs /\
                 forallb is_dict_value rs = true /\
                 n = Z.of_nat (List.length rs)
  | Raise e evs w' => evs = []
  | OutOfFuel => False
  end.
Proof.
  unfold process_food_enforcement_records. rewrite bind_lift.
  destruct (py_iter records) as [e|rs]; [reflexivity|].
  unfold bind at 1.
  pose proof (process_each_spec rs [] w) as H.
  destruct (process_each env rs [] w) as [out evs w'|e evs w'|];
    [|assumption|assumption].
  destruct H as (-> & Hd & Hlen). simpl in Hlen.
  destruct out as [|record out].
  - rewrite !bind_ret. split; [reflexivity|].
    exists rs. repeat split; auto; now rewrite Hlen.
  - unfold bind at 1. unfold bind at 1. rewrite upsert_all_spec.
    unfold log, emit. cbn [app]. split.
    + rewrite app_nil_r. apply silent_app; [apply silent_upserts|reflexivity].
    + exists rs. repeat split; auto; now rewrite Hlen.
Qed.

(** A truthy value that iterates over mappings only is a non-empty list. *)
Lemma truthy_page records rs :
  truthy records = true -> py_iter records = inr rs ->
  forallb is_dict_value rs = true ->
  records = VList rs /\ rs <> [].
Proof.
  destruct records as [ | | | |s|l|d]; simpl; try discriminate.
  - destruct s as [|c s]; [discriminate|]. intros _ [= <-]. discriminate.
  - intros Ht [= <-]. split; [reflexivity|]. now destruct l.
  - destruct d as [|kv d]; [discriminate|]. intros _ [= <-]. discriminate.
Qed.

Lemma scan_record_not_empty record latest_date latest_date' :
  latest_date <> Some "" ->
  scan_record env record latest_date = inr latest_date' ->
  latest_date' <> Some "".
Proof.
  intros Hne. unfold scan_record.
  assert (Hnewer : forall y m d, newer (iso_of y m d) latest_date <> Some "").
  { intros y m d. unfold newer. destruct latest_date as [cur|].
    - destruct (String.ltb cur (iso_of y m d)); [|assumption].
      intros [= H]. now apply iso_of_not_empty in H.
    - intros [= H]. now apply iso_of_not_empty in H. }
  destruct record as [ | | | | | |d]; try discriminate.
  destruct (dict_get "report_date" d) as [v|]; [|now intros [= <-]].
  destruct (truthy v); [|now intros [= <-]].
  destruct v as [ | | | |s|l|d']; try discriminate.
  - destruct (Nat.eqb (String.length s) 8); intros [= <-]; auto.
  - destruct (Nat.eqb (List.length l) 8); intros [= <-]; auto.
  - destruct (Nat.eqb (List.length d') 8); [discriminate|]. now intros [= <-].
Qed.

Lemma scan_records_not_empty records :
  forall latest_date latest_date',
    latest_date <> Some "" ->
    scan_records env records latest_date = inr latest_date' ->
    latest_date' <> Some "".
Proof.
  induction records as [|record records IH]; simpl; intros latest_date latest_date' Hne.
  - now intros [= <-].
  - destruct (scan_record env record latest_date) as [e|l1] eqn:Hrec;
      [discriminate|].
    apply IH. eapply scan_record_not_empty; eassumption.
Qed.

(** The cursor extractor on a list, by the result of the scan. *)
Lemma get_latest_report_date_eq page w :
  get_latest_report_date env (VList page) w =
  match page_cursor env page with
  | inl e => Raise e [] w
  | inr (Some c) => Return c [] w
  | inr None => Return (utc_now env (reads w)) [] (mkWorld (calls w) (S (reads w)))
  end.
Proof.
  unfold get_latest_report_date, page_cursor. simpl py_iter.
  rewrite !bind_lift.
  destruct (scan_records env page None) as [e|[c|]] eqn:Hscan; try reflexivity.
  destruct (String.eqb_spec c "") as [->|Hne]; [|reflexivity].
  exfalso. eapply scan_records_not_empty; [|exact Hscan|reflexivity]. discriminate.
Qed.

End ProcessFacts.

(* ================================================================== *)
(** ** One iteration of the pagination loop *)
(* ================================================================== *)

Section LoopFacts.

Variable env : Env.

Lemma page_of_page r d rs :
  response_ok r = true -> json_body r = Some (VDict d) ->
  dict_get "results" d = Some (VList rs) -> rs <> [] ->
  page_of (Responded r) = Some rs.
Proof.
  intros Hok Hbody Hres Hne. simpl. rewrite Hok, Hbody, Hres.
  destruct rs; [contradiction|reflexivity].
Qed.

Lemma page_of_no_page r d :
  json_body r = Some (VDict d) ->
  truthy_opt (dict_get "results" d) = false ->
  page_of (Responded r) = None.
Proof.
  intros Hbody Hres. simpl. rewrite Hbody.
  destruct (response_ok r); [|reflexivity].
  destruct (dict_get "results" d) as [[ | | | | |[|record rs]| ]|];
    try reflexivity. discriminate.
Qed.

Ltac split_in H :=
  repeat match type of H with
         | _ \/ _ => destruct H as [H|H]
         | False => contradiction
         | _ = _ => discriminate
         | In _ _ =>
             first
               [ rewrite in_app_iff in H
               | exfalso; revert H; apply silent_not_exhausted; assumption
               | exfalso; revert H; apply silent_not_no_response; assumption
               | contradiction
               | progress simpl in H ]
         end.

Ltac not_in := let H := fresh "Hin" in intros H; split_in H.

Ltac project :=
  repeat
    first
      [ rewrite checkpoints_app
      | rewrite fetched_pages_app
      | rewrite processed_batches_app
      | rewrite marks_app
      | progress cbn [checkpoints fetched_pages processed_batches marks app]
      | match goal with
        | H : forallb silent ?l = true |- _ =>
            first [ rewrite (silent_checkpoints l H)
                  | rewrite (silent_fetched_pages l H)
                  | rewrite (silent_processed_batches l H)
                  | rewrite (silent_marks l H) ]
        | H : page_of _ = _ |- _ => rewrite H
        end ].

(** What one iteration does.  It continues only after processing a full
    page and writing its checkpoint; it stops without a checkpoint on an
    empty result or after a page shorter than the page size; when it
    raises it has written no checkpoint. *)
Lemma loop_body_spec l w :
  match loop_body env l w with
  | Return (Continue l') evs w' =>
      exists rs c,
        rs <> [] /\
        fetched_pages evs = [rs] /\
        data_page (l_data l') = Some rs /\
        data_wf (l_data l') /\
        checkpoints evs =
          [mkSyncState (Some c) (l_total_processed l') (Some (l_skip l'))] /\
        (page_cursor env rs = inr (Some c) \/
         (page_cursor env rs = inr None /\ exists n, c = utc_now env n)) /\
        processed_batches evs = [Z.of_nat (List.length rs)] /\
        l_total_processed l' = l_total_processed l + Z.of_nat (List.length rs) /\
        p_limit (l_params l) <= Z.of_nat (List.length rs) /\
        l_skip l' = l_skip l + p_limit (l_params l) /\
        p_limit (l_params l') = p_limit (l_params l) /\
        ~ In retries_exhausted evs /\
        ~ In no_response_warning evs
  | Return (Break l') evs w' =>
      checkpoints evs = [] /\
      ~ In retries_exhausted evs /\
      ~ In no_response_warning evs /\
      l_skip l' = l_skip l /\
      p_limit (l_params l') = p_limit (l_params l) /\
      data_wf (l_data l') /\
      ((fetched_pages evs = [] /\
        processed_batches evs = [] /\
        l_total_processed l' = l_total_processed l /\
        data_page (l_data l') = None)
       \/
       (exists rs,
          rs <> [] /\
          fetched_pages evs = [rs] /\
          data_page (l_data l') = Some rs /\
          processed_batches evs = [Z.of_nat (List.length rs)] /\
          l_total_processed l' = l_total_processed l + Z.of_nat (List.length rs) /\
          Z.of_nat (List.length rs) < p_limit (l_params l)))
  | Raise e evs w' =>
      checkpoints evs = [] /\
      ~ In no_response_warning evs /\
      (In retries_exhausted evs ->
       is_request_exception e = true /\
       exists pre, evs = pre ++ [retries_exhausted])
  | OutOfFuel => False
  end.
Proof.
  unfold loop_body.
  set (params := if l_skip l >? 0 then _ else _).
  assert (Hlimit : p_limit params = p_limit (l_params l))
    by (subst params; destruct (l_skip l >? 0); reflexivity).
  rewrite bind_log. unfold bind at 1.
  pose proof (make_api_request_with_retry_spec env base_url params 3 w
                ltac:(lia)) as Hf.
  destruct (make_api_request_with_retry env base_url params 3 w)
    as [[r|] fev w1|e fev w1|]; [| contradiction | | contradiction].
  2:{ (* the retries are exhausted *)
    destruct Hf as (Hexn & _ & pre & -> & Hpre). cbn [prepend].
    split; [project; reflexivity|]. split; [not_in|].
    intros _. split; [assumption|].
    exists (EvLog Info (MsgFetchingBatch (l_skip l) (p_limit params)) :: pre).
    reflexivity. }
  destruct Hf as (Hok & _ & pre & -> & Hpre). rewrite Hok. cbn [negb].
  unfold response_json.
  destruct (json_body r) as [data|] eqn:Hbody.
  2:{ (* the body is not JSON *)
    cbn [bind raise prepend]. rewrite ?app_nil_r.
    split; [project; reflexivity|]. split; [not_in|]. not_in. }
  rewrite bind_ret. unfold data_get_results.
  destruct data as [ | | | | | |d];
    try (cbn [bind raise prepend]; rewrite ?app_nil_r;
         split; [project; reflexivity|]; split; [not_in|not_in]).
  rewrite bind_ret.
  assert (Hnomore :
    truthy_opt (dict_get "results" d) = false ->
    match
      prepend [EvLog Info (MsgFetchingBatch (l_skip l) (p_limit params))]
        (match
           (log Info MsgNoMoreResults ;;
            ret (Break (mkLocals params (l_skip l) (l_current_batch_processed l)
                          (l_total_processed l) (Some (VDict d))))) w1
         with
         | Return b evs' w'' =>
             Return b ((pre ++ [EvGet base_url params (Responded r)]) ++ evs') w''
         | Raise e evs' w'' =>
             Raise e ((pre ++ [EvGet base_url params (Responded r)]) ++ evs') w''
         | OutOfFuel => OutOfFuel
         end)
    with
    | Return (Break l') evs w' =>
        checkpoints evs = [] /\
        ~ In retries_exhausted evs /\
        ~ In no_response_warning evs /\
        l_skip l' = l_skip l /\
        p_limit (l_params l') = p_limit (l_params l) /\
        data_wf (l_data l') /\
        ((fetched_pages evs = [] /\
          processed_batches evs = [] /\
          l_total_processed l' = l_total_processed l /\
          data_page (l_data l') = None)
         \/
         (exists rs,
            rs <> [] /\
            fetched_pages evs = [rs] /\
            data_page (l_data l') = Some rs /\
            processed_batches evs = [Z.of_nat (List.length rs)] /\
            l_total_processed l' = l_total_processed l + Z.of_nat (List.length rs) /\
            Z.of_nat (List.length rs) < p_limit (l_params l)))
    | _ => False
    end).
  { intros Hfalsy.
    pose proof (page_of_no_page r d Hbody Hfalsy) as Hpage.
    rewrite bind_log. unfold ret. cbn [prepend app l_skip l_params l_data
                                        l_total_processed].
    split; [project; reflexivity|]. split; [not_in|]. split; [not_in|].
    split; [reflexivity|]. split; [assumption|].
    split.
    - simpl. destruct (dict_get "results" d) as [v|]; [|exact I].
      simpl in Hfalsy. congruence.
    - left. split; [project; reflexivity|]. split; [project; reflexivity|].
      split; [reflexivity|]. simpl.
      destruct (dict_get "results" d) as [[ | | | | |[|record rs]| ]|];
        try reflexivity. discriminate. }
  destruct (dict_get "results" d) as [records|] eqn:Hres.
  2:{ specialize (Hnomore eq_refl).
      destruct (prepend _ _) as [[l'|l'] evs w'|e evs w'|]; try contradiction.
      exact Hnomore. }
  destruct (truthy records) eqn:Htr; cbn [negb].
  2:{ specialize (Hnomore Htr).
      destruct (prepend _ _) as [[l'|l'] evs w'|e evs w'|]; try contradiction.
      exact Hnomore. }
  clear Hnomore.
  unfold bind at 1.
  pose proof (process_food_enforcement_records_spec env records w1) as Hp.
  destruct (process_food_enforcement_records env records w1)
    as [n pev w2|e pev w2|]; [| |contradiction].
  2:{ (* processing the page raises *)
    subst pev. cbn [prepend]. rewrite ?app_nil_r.
    split; [project; reflexivity|]. split; [not_in|]. not_in. }
  destruct Hp as (Hsil & rs & Hiter & Hdicts & ->).
  destruct (truthy_page records rs Htr Hiter Hdicts) as [-> Hne].
  pose proof (page_of_page r d rs Hok Hbody Hres Hne) as Hpage.
  assert (Hdata : data_page (Some (VDict d)) = Some rs).
  { simpl. rewrite Hres. destruct rs; [contradiction|reflexivity]. }
  assert (Hwf : data_wf (Some (VDict d))).
  { simpl. rewrite Hres. intros _. now exists rs. }
  rewrite bind_log. simpl py_len. rewrite bind_lift.
  destruct (Z.of_nat (List.length rs) <? p_limit params) eqn:Hlim.
  - (* a short page: end of data *)
    apply Z.ltb_lt in Hlim.
    rewrite bind_log. unfold ret.
    cbn [prepend app l_skip l_params l_data l_total_processed
           l_current_batch_processed].
    split; [project; reflexivity|]. split; [not_in|]. split; [not_in|].
    split; [reflexivity|]. split; [assumption|]. split; [assumption|].
    right. exists rs. split; [assumption|].
    split; [project; reflexivity|]. split; [assumption|].
    split; [project; reflexivity|]. split; [reflexivity|]. lia.
  - (* a full page: checkpoint and continue *)
    apply Z.ltb_ge in Hlim.
    cbn [l_skip l_params l_data l_total_processed l_current_batch_processed].
    unfold bind at 1. rewrite get_latest_report_date_eq.
    destruct (page_cursor env rs) as [e|[c|]] eqn:Hcur.
    + cbn [prepend app]. rewrite ?app_nil_r.
      split; [project; reflexivity|]. split; [not_in|]. not_in.
    + unfold checkpoint, sleep. rewrite !bind_emit. unfold ret.
      cbn [prepend app l_skip l_params l_data l_total_processed].
      exists rs, c. split; [assumption|].
      split; [project; reflexivity|]. split; [assumption|]. split; [assumption|].
      split; [project; reflexivity|]. split; [now left|].
      split; [project; reflexivity|]. split; [reflexivity|].
      split; [lia|]. split; [now rewrite Hlimit|]. split; [assumption|].
      split; not_in.
    + unfold checkpoint, sleep. rewrite !bind_emit. unfold ret.
      cbn [prepend app l_skip l_params l_data l_total_processed].
      exists rs, (utc_now env (reads w2)). split; [assumption|].
      split; [project; reflexivity|]. split; [assumption|]. split; [assumption|].
      split; [project; reflexivity|]. split; [right; split; eauto|].
      split; [project; reflexivity|]. split; [reflexivity|].
      split; [lia|]. split; [now rewrite Hlimit|]. split; [assumption|].
      split; not_in.
Qed.

(** The progress of one iteration, in order.  An iteration that
    continues fetched a page at least as long as the page size, logged
    it as processed and then wrote its checkpoint, which holds the
    cursor extracted from that page, the new total and the new offset.
    An iteration that stops made no progress (no results), or fetched a
    page shorter than the page size and logged it as processed, without
    a checkpoint. *)
Lemma loop_body_marks l w :
  match loop_body env l w with
  | Return (Continue l') evs w' =>
      exists rs st,
        marks evs = full_page (rs, st) /\
        carries env st rs (l_total_processed l') (l_skip l') /\
        data_page (l_data l') = Some rs /\
        l_total_processed l' = l_total_processed l + Z.of_nat (List.length rs) /\
        p_limit (l_params l) <= Z.of_nat (List.length rs) /\
        l_skip l' = l_skip l + p_limit (l_params l) /\
        p_limit (l_params l') = p_limit (l_params l)
  | Return (Break l') evs w' =>
      l_skip l' = l_skip l /\
      ((marks evs = [] /\
        l_total_processed l' = l_total_processed l /\
        data_page (l_data l') = None)
       \/
       (exists rs,
          rs <> [] /\
          marks evs = short_page rs /\
          data_page (l_data l') = Some rs /\
          l_total_processed l' = l_total_processed l + Z.of_nat (List.length rs) /\
          Z.of_nat (List.length rs) < p_limit (l_params l)))
  | Raise _ _ _ => True
  | OutOfFuel => True
  end.
Proof.
  unfold loop_body.
  set (params := if l_skip l >? 0 then _ else _).
  assert (Hlimit : p_limit params = p_limit (l_params l))
    by (subst params; destruct (l_skip l >? 0); reflexivity).
  rewrite bind_log. unfold bind at 1.
  pose proof (make_api_request_with_retry_spec env base_url params 3 w
                ltac:(lia)) as Hf.
  destruct (make_api_request_with_retry env base_url params 3 w)
    as [[r|] fev w1|e fev w1|]; [| contradiction | exact I | exact I].
  destruct Hf as (Hok & _ & pre & -> & Hpre). rewrite Hok. cbn [negb].
  unfold response_json.
  destruct (json_body r) as [data|] eqn:Hbody; [|exact I].
  rewrite bind_ret. unfold data_get_results.
  destruct data as [ | | | | | |d]; try exact I.
  rewrite bind_ret.
  assert (Hnomore :
    truthy_opt (dict_get "results" d) = false ->
    match
      prepend [EvLog Info (MsgFetchingBatch (l_skip l) (p_limit params))]
        (match
           (log Info MsgNoMoreResults ;;
            ret (Break (mkLocals params (l_skip l) (l_current_batch_processed l)
                          (l_total_processed l) (Some (VDict d))))) w1
         with
         | Return b evs' w'' =>
             Return b ((pre ++ [EvGet base_url params (Responded r)]) ++ evs') w''
         | Raise e evs' w'' =>
             Raise e ((pre ++ [EvGet base_url params (Responded r)]) ++ evs') w''
         | OutOfFuel => OutOfFuel
         end)
    with
    | Return (Break l') evs w' =>
        l_skip l' = l_skip l /\
        ((marks evs = [] /\
          l_total_processed l' = l_total_processed l /\
          data_page (l_data l') = None)
         \/
         (exists rs,
            rs <> [] /\
            marks evs = short_page rs /\
            data_page (l_data l') = Some rs /\
            l_total_processed l' = l_total_processed l + Z.of_nat (List.length rs) /\
            Z.of_nat (List.length rs) < p_limit (l_params l)))
    | _ => False
    end).
  { intros Hfalsy.
    pose proof (page_of_no_page r d Hbody Hfalsy) as Hpage.
    rewrite bind_log. unfold ret. cbn [prepend app l_skip l_params l_data
                                        l_total_processed].
    split; [reflexivity|].
    left. split; [project; reflexivity|]. split; [reflexivity|]. simpl.
    destruct (dict_get "results" d) as [[ | | | | |[|record rs]| ]|];
      try reflexivity. discriminate. }
  destruct (dict_get "results" d) as [records|] eqn:Hres.
  2:{ specialize (Hnomore eq_refl).
      destruct (prepend _ _) as [[l'|l'] evs w'|e evs w'|]; try contradiction.
      exact Hnomore. }
  destruct (truthy records) eqn:Htr; cbn [negb].
  2:{ specialize (Hnomore Htr).
      destruct (prepend _ _) as [[l'|l'] evs w'|e evs w'|]; try contradiction.
      exact Hnomore. }
  clear Hnomore.
  unfold bind at 1.
  pose proof (process_food_enforcement_records_spec env records w1) as Hp.
  destruct (process_food_enforcement_records env records w1)
    as [n pev w2|e pev w2|]; [|exact I|exact I].
  destruct Hp as (Hsil & rs & Hiter & Hdicts & ->).
  destruct (truthy_page records rs Htr Hiter Hdicts) as [-> Hne].
  pose proof (page_of_page r d rs Hok Hbody Hres Hne) as Hpage.
  assert (Hdata : data_page (Some (VDict d)) = Some rs).
  { simpl. rewrite Hres. destruct rs; [contradiction|reflexivity]. }
  rewrite bind_log. simpl py_len. rewrite bind_lift.
  destruct (Z.of_nat (List.length rs) <? p_limit params) eqn:Hlim.
  - (* a short page: end of data *)
    apply Z.ltb_lt in Hlim.
    rewrite bind_log. unfold ret.
    cbn [prepend app l_skip l_params l_data l_total_processed
           l_current_batch_processed].
    split; [reflexivity|].
    right. exists rs. split; [assumption|].
    split; [project; reflexivity|]. split; [assumption|].
    split; [reflexivity|]. lia.
  - (* a full page: checkpoint and continue *)
    apply Z.ltb_ge in Hlim.
    cbn [l_skip l_params l_data l_total_processed l_current_batch_processed].
    unfold bind at 1. rewrite get_latest_report_date_eq.
    destruct (page_cursor env rs) as [e|[c|]] eqn:Hcur.
    + exact I.
    + unfold checkpoint, sleep. rewrite !bind_emit. unfold ret.
      cbn [prepend app l_skip l_params l_data l_total_processed].
      eexists rs, _. split; [project; reflexivity|].
      split.
      { split; [|split; reflexivity].
        exists c. split; [reflexivity|now left]. }
      split; [assumption|]. split; [reflexivity|].
      split; [lia|]. split; [now rewrite Hlimit|assumption].
    + unfold checkpoint, sleep. rewrite !bind_emit. unfold ret.
      cbn [prepend app l_skip l_params l_data l_total_processed].
      eexists rs, _. split; [project; reflexivity|].
      split.
      { split; [|split; reflexivity].
        eexists. split; [reflexivity|]. right. split; eauto. }
      split; [assumption|]. split; [reflexivity|].
      split; [lia|]. split; [now rewrite Hlimit|assumption].
Qed.

(* ================================================================== *)
(** ** The pagination loop and the run *)
(* ================================================================== *)

(** Invariant rule for the loop: [P] holds at the loop head of the
    events emitted so far, [Qret] at a normal exit, [Qexn] when an
    iteration raises. *)
Lemma sync_loop_invariant (max_records : Z)
  (P Qret : Locals -> list event -> Prop) (Qexn : exn -> list event -> Prop) :
  (forall l acc, P l acc -> max_records <= l_total_processed l -> Qret l acc) ->
  (forall l acc w,
     P l acc -> l_total_processed l < max_records ->
     match loop_body env l w with
     | Return (Continue l') evs _ => P l' (acc ++ evs)
     | Return (Break l') evs _ => Qret l' (acc ++ evs)
     | Raise e evs _ => Qexn e (acc ++ evs)
     | OutOfFuel => True
     end) ->
  forall fuel l acc w,
    P l acc ->
    match sync_loop env fuel max_records l w with
    | Return l' evs _ => Qret l' (acc ++ evs)
    | Raise e evs _ => Qexn e (acc ++ evs)
    | OutOfFuel => True
    end.
Proof.
  intros Hexit Hstep. induction fuel as [|fuel IH]; intros l acc w HP; simpl.
  - destruct (l_total_processed l <? max_records) eqn:Hlt; [exact I|].
    apply Z.ltb_ge in Hlt. unfold ret. rewrite app_nil_r. auto.
  - destruct (l_total_processed l <? max_records) eqn:Hlt.
    + apply Z.ltb_lt in Hlt. unfold bind.
      specialize (Hstep l acc w HP Hlt).
      destruct (loop_body env l w) as [[l'|l'] evs w1|e evs w1|]; auto.
      * specialize (IH l' (acc ++ evs) w1 Hstep).
        destruct (sync_loop env fuel max_records l' w1);
          rewrite ?app_assoc; auto.
      * unfold ret. now rewrite app_nil_r.
    + apply Z.ltb_ge in Hlt. unfold ret. rewrite app_nil_r. auto.
Qed.

(** The fuel [update] gives the loop is enough. *)
Lemma sync_loop_total max_records fuel :
  forall l w,
    max_records - l_total_processed l <= Z.of_nat fuel ->
    sync_loop env fuel max_records l w <> OutOfFuel.
Proof.
  induction fuel as [|fuel IH]; intros l w Hfuel; simpl.
  - destruct (l_total_processed l <? max_records) eqn:Hlt; [|discriminate].
    apply Z.ltb_lt in Hlt. simpl in Hfuel. lia.
  - destruct (l_total_processed l <? max_records) eqn:Hlt; [|discriminate].
    unfold bind. pose proof (loop_body_spec l w) as Hbody.
    destruct (loop_body env l w) as [[l'|l'] evs w1|e evs w1|];
      try discriminate; [|contradiction].
    destruct Hbody as (rs & c & Hne & _ & _ & _ & _ & _ & _ & Htotal & _).
    assert (Hfuel' : max_records - l_total_processed l' <= Z.of_nat fuel).
    { destruct rs; [contradiction|]. simpl List.length in Htotal. lia. }
    specialize (IH l' w1 Hfuel').
    destruct (sync_loop env fuel max_records l' w1); congruence.
Qed.

(** The local [data] stays well formed and the page size unchanged. *)
Lemma sync_loop_locals max_records fuel l w :
  data_wf (l_data l) ->
  match sync_loop env fuel max_records l w with
  | Return l' _ _ =>
      data_wf (l_data l') /\ p_limit (l_params l') = p_limit (l_params l)
  | _ => True
  end.
Proof.
  intros Hwf.
  pose proof (sync_loop_invariant max_records
    (fun l' _ => data_wf (l_data l') /\ p_limit (l_params l') = p_limit (l_params l))
    (fun l' _ => data_wf (l_data l') /\ p_limit (l_params l') = p_limit (l_params l))
    (fun _ _ => True)) as H.
  specialize (H ltac:(auto)).
  assert (Hstep : forall l0 (acc : list event) w0,
    data_wf (l_data l0) /\ p_limit (l_params l0) = p_limit (l_params l) ->
    l_total_processed l0 < max_records ->
    match loop_body env l0 w0 with
    | Return (Continue l') _ _ | Return (Break l') _ _ =>
        data_wf (l_data l') /\ p_limit (l_params l') = p_limit (l_params l)
    | _ => True
    end).
  { intros l0 acc w0 [Hwf0 Hlim0] _. pose proof (loop_body_spec l0 w0) as Hb.
    destruct (loop_body env l0 w0) as [[l'|l'] evs w1|e evs w1|]; auto.
    - destruct Hb as (rs & c & _ & _ & _ & Hwf' & _ & _ & _ & _ & _ & _ & Hl & _).
      split; [assumption|congruence].
    - destruct Hb as (_ & _ & _ & _ & Hl & Hwf' & _). split; [assumption|congruence]. }
  specialize (H Hstep fuel l [] w (conj Hwf eq_refl)).
  destruct (sync_loop env fuel max_records l w); auto.
Qed.

(** The final checkpoint, by the page the local [data] holds. *)
Lemma final_checkpoint_eq l w :
  data_wf (l_data l) ->
  final_checkpoint env l w =
  let written c :=
    [EvCheckpoint (mkSyncState (Some c) (l_total_processed l) (Some (l_skip l)));
     EvLog Info (MsgSyncCompleted (l_total_processed l))] in
  let from_clock :=
    Return tt (written (utc_now env (reads w)))
           (mkWorld (calls w) (S (reads w))) in
  match data_page (l_data l) with
  | Some rs =>
      match page_cursor env rs with
      | inl e => Raise e [] w
      | inr (Some c) => Return tt (written c) w
      | inr None => from_clock
      end
  | None => from_clock
  end.
Proof.
  intros Hwf. cbv zeta. unfold final_checkpoint.
  assert (Hclock : forall w,
    bind (now_iso env) (fun latest_report_date =>
      checkpoint (mkSyncState (Some latest_report_date) (l_total_processed l)
                    (Some (l_skip l))) ;;
      log Info (MsgSyncCompleted (l_total_processed l))) w
    = Return tt
        [EvCheckpoint (mkSyncState (Some (utc_now env (reads w)))
                         (l_total_processed l) (Some (l_skip l)));
         EvLog Info (MsgSyncCompleted (l_total_processed l))]
        (mkWorld (calls w) (S (reads w)))) by reflexivity.
  destruct (l_data l) as [[ | | | | | |d]|]; simpl in Hwf; try contradiction;
    [|apply Hclock].
  simpl data_page. unfold data_get_results.
  unfold bind at 2. unfold ret at 1. cbn [app].
  destruct (dict_get "results" d) as [v|] eqn:Hres.
  - destruct (truthy v) eqn:Htr.
    + destruct (Hwf eq_refl) as [rs ->]. destruct rs as [|record rs]; [discriminate|].
      unfold bind at 1. rewrite get_latest_report_date_eq.
      destruct (page_cursor env (record :: rs)) as [e|[c|]]; reflexivity.
    + destruct v as [ | | | | |[|r0 rs0]| ]; try discriminate; reflexivity.
  - reflexivity.
Qed.

Lemma update_try_eq api_key limit max_records sync_mode last_sync_date total w :
  update_try env api_key limit max_records sync_mode last_sync_date total w =
  prepend [mode_line sync_mode last_sync_date]
    (bind (sync_loop env (Z.to_nat (max_records - total)) max_records
             (mkLocals (initial_params api_key limit sync_mode last_sync_date)
                       0 0 total None))
          (final_checkpoint env) w).
Proof.
  unfold update_try, mode_line, initial_params, incremental_since.
  destruct last_sync_date as [since|].
  - destruct (String.eqb sync_mode "incremental" && negb (String.eqb since ""));
      unfold bind at 1; rewrite bind_log; unfold ret; cbn [prepend app];
      match goal with |- context [bind ?m ?f ?w] => destruct (bind m f w) end;
      reflexivity.
  - unfold bind at 1; rewrite bind_log; unfold ret; cbn [prepend app];
      match goal with |- context [bind ?m ?f ?w] => destruct (bind m f w) end;
      reflexivity.
Qed.

(** [update] raises the configuration error before anything else, or
    runs its [try] block and wraps what it raises. *)
Lemma update_eq configuration state w :
  update env configuration state w =
  match read_configuration env configuration with
  | inl e => Raise e [EvLog Info MsgStartingSync] w
  | inr (limit, max_records) =>
      prepend [EvLog Info MsgStartingSync]
        (wrap_failure
           (update_try env (dict_get "api_key" configuration) limit max_records
              (configured_sync_mode configuration)
              (last_sync_date (start_state state))
              (total_processed (start_state state)) w))
  end.
Proof.
  unfold update, read_configuration, validate_configuration, validate_keys,
    int_setting, configured_sync_mode, start_state.
  rewrite bind_log.
  destruct (dict_get "api_key" configuration) as [key|]; [|reflexivity].
  destruct (String.eqb key ""); [reflexivity|].
  rewrite bind_ret.
  destruct (dict_get "limit" configuration) as [s|].
  - destruct (py_int env s) as [limit|]; [|reflexivity]. rewrite bind_ret.
    destruct (dict_get "max_records" configuration) as [s'|].
    + destruct (py_int env s') as [max_records|]; [|reflexivity]. rewrite bind_ret.
      unfold try_except, wrap_failure.
      destruct (update_try _ _ _ _ _ _ _ _); reflexivity.
    + rewrite bind_ret. unfold try_except, wrap_failure.
      destruct (update_try _ _ _ _ _ _ _ _); reflexivity.
  - rewrite bind_ret.
    destruct (dict_get "max_records" configuration) as [s'|].
    + destruct (py_int env s') as [max_records|]; [|reflexivity]. rewrite bind_ret.
      unfold try_except, wrap_failure.
      destruct (update_try _ _ _ _ _ _ _ _); reflexivity.
    + rewrite bind_ret. unfold try_except, wrap_failure.
      destruct (update_try _ _ _ _ _ _ _ _); reflexivity.
Qed.

(** A run of [update], by the outcome of its loop. *)
Lemma update_run configuration state w limit max_records :
  read_configuration env configuration = inr (limit, max_records) ->
  let s := start_state state in
  let l0 := initial_locals configuration limit s in
  let head := [EvLog Info MsgStartingSync;
               mode_line (configured_sync_mode configuration) (last_sync_date s)] in
  match sync_loop env (Z.to_nat (max_records - total_processed s)) max_records l0 w
  with
  | Return l evs w1 =>
      data_wf (l_data l) /\
      p_limit (l_params l) = Z.min limit 1000 /\
      update env configuration state w =
        prepend (head ++ evs) (wrap_failure (final_checkpoint env l w1))
  | Raise e evs w1 =>
      update env configuration state w =
        Raise (RuntimeError e) (head ++ evs ++ [EvLog Severe (MsgSyncFailed e)]) w1
  | OutOfFuel => False
  end.
Proof.
  intros Hcfg s l0 head. rewrite update_eq, Hcfg, update_try_eq.
  fold s. unfold initial_locals in l0. fold l0.
  pose proof (sync_loop_total max_records
                (Z.to_nat (max_records - total_processed s)) l0 w) as Htotal.
  pose proof (sync_loop_locals max_records
                (Z.to_nat (max_records - total_processed s)) l0 w I) as Hloc.
  unfold bind.
  destruct (sync_loop env _ max_records l0 w) as [l evs w1|e evs w1|].
  - destruct Hloc as [Hwf Hlim]. split; [assumption|]. split.
    + rewrite Hlim. subst l0. unfold initial_params. cbn [l_params].
      destruct (incremental_since _ _); reflexivity.
    + subst head.
      destruct (final_checkpoint env l w1);
        cbn [prepend wrap_failure app]; rewrite <- ?app_assoc; reflexivity.
  - subst head. cbn [prepend wrap_failure app]. reflexivity.
  - apply Htotal; [|reflexivity]. subst l0. cbn [l_total_processed]. lia.
Qed.

(** [update] always terminates: the fuel of the loop never runs out. *)
Lemma update_total configuration state w :
  update env configuration state w <> OutOfFuel.
Proof.
  destruct (read_configuration env configuration) as [e|[limit max_records]] eqn:Hcfg.
  - rewrite update_eq, Hcfg. discriminate.
  - pose proof (update_run configuration state w limit max_records Hcfg) as Hrun.
    cbv zeta in Hrun.
    destruct (sync_loop env _ max_records _ w) as [l evs w1|e evs w1|];
      [|rewrite Hrun; discriminate|contradiction].
    destruct Hrun as (Hwf & _ & ->).
    rewrite (final_checkpoint_eq l w1 Hwf). cbv zeta.
    destruct (data_page (l_data l)) as [rs|]; [|discriminate].
    destruct (page_cursor env rs) as [e|[c|]]; discriminate.
Qed.

Lemma head_silent sync_mode last_sync_date :
  forallb silent [EvLog Info MsgStartingSync; mode_line sync_mode last_sync_date]
    = true.
Proof. unfold mode_line. destruct (incremental_since _ _); reflexivity. Qed.

(** The three ways a configured run ends: the loop raises; the loop
    ends and the final checkpoint is written; the loop ends and the
    cursor extraction of the final checkpoint raises. *)
Lemma update_outcome configuration state w limit max_records :
  read_configuration env configuration = inr (limit, max_records) ->
  let s := start_state state in
  let l0 := initial_locals configuration limit s in
  let head := [EvLog Info MsgStartingSync;
               mode_line (configured_sync_mode configuration) (last_sync_date s)] in
  match sync_loop env (Z.to_nat (max_records - total_processed s)) max_records l0 w
  with
  | Return l evs w1 =>
      p_limit (l_params l) = Z.min limit 1000 /\
      ((exists c w2,
          final_cursor env l c /\
          update env configuration state w =
            Return tt
              (head ++ evs ++
               [EvCheckpoint (mkSyncState (Some c) (l_total_processed l)
                                          (Some (l_skip l)));
                EvLog Info (MsgSyncCompleted (l_total_processed l))]) w2)
       \/
       (exists e,
          update env configuration state w =
            Raise (RuntimeError e)
                  (head ++ evs ++ [EvLog Severe (MsgSyncFailed e)]) w1))
  | Raise e evs w1 =>
      update env configuration state w =
        Raise (RuntimeError e) (head ++ evs ++ [EvLog Severe (MsgSyncFailed e)]) w1
  | OutOfFuel => False
  end.
Proof.
  intros Hcfg s l0 head.
  pose proof (update_run configuration state w limit max_records Hcfg) as Hrun.
  cbv zeta in Hrun. fold s l0 head in Hrun.
  destruct (sync_loop env _ max_records l0 w) as [l evs w1|e evs w1|];
    [|assumption|assumption].
  destruct Hrun as (Hwf & Hlim & ->). split; [assumption|].
  rewrite (final_checkpoint_eq l w1 Hwf). cbv zeta. unfold final_cursor.
  unfold page_cursor.
  destruct (data_page (l_data l)) as [rs|].
  - destruct (scan_records env rs None) as [e|[c|]].
    + right. exists e. cbn [wrap_failure prepend app].
      rewrite <- app_assoc. reflexivity.
    + left. exists c, w1. split; [now left|].
      cbn [wrap_failure prepend]. rewrite <- app_assoc. reflexivity.
    + left. eexists _, _. split; [right; split; eauto|].
      cbn [wrap_failure prepend]. rewrite <- app_assoc. reflexivity.
  - left. eexists _, _. split; [eauto|].
    cbn [wrap_failure prepend]. rewrite <- app_assoc. reflexivity.
Qed.

Lemma strongly_sorted_snoc {A : Type} (R : A -> A -> Prop) (l : list A) (x : A) :
  StronglySorted R l -> Forall (fun y => R y x) l -> StronglySorted R (l ++ [x]).
Proof.
  induction 1 as [|y l Hl IH Hy]; intros Hx; simpl.
  - repeat constructor.
  - inversion Hx; subst. constructor; [auto|].
    apply Forall_app. split; [assumption|]. repeat constructor. assumption.
Qed.

(** C7. In every run, from any starting state, the [total_processed]
    values written by the successive checkpoints never decrease and
    none is below the [total_processed] of the input state: the list
    that starts with the input value and goes on with the written ones
    is sorted. *)
Theorem total_processed_monotone configuration state w :
  match update env configuration state w with
  | Return _ evs _ | Raise _ evs _ =>
      StronglySorted Z.le
        (total_processed (start_state state)
           :: map total_processed (checkpoints evs))
  | OutOfFuel => False
  end.
Proof.
  set (t0 := total_processed (start_state state)).
  destruct (read_configuration env configuration) as [e|[limit max_records]] eqn:Hcfg.
  { rewrite update_eq, Hcfg. simpl. repeat constructor. }
  pose proof (update_outcome configuration state w limit max_records Hcfg) as Hout.
  cbv zeta in Hout.
  pose proof (head_silent (configured_sync_mode configuration)
                (last_sync_date (start_state state))) as Hhead.
  set (head := [EvLog Info MsgStartingSync; _]) in *.
  set (totals := fun acc : list event => t0 :: map total_processed (checkpoints acc)).
  pose proof (sync_loop_invariant max_records
    (fun l acc => StronglySorted Z.le (totals acc) /\
                  Forall (fun t => t <= l_total_processed l) (totals acc))
    (fun l acc => StronglySorted Z.le (totals acc) /\
                  Forall (fun t => t <= l_total_processed l) (totals acc))
    (fun _ acc => StronglySorted Z.le (totals acc))) as Hinv.
  specialize (Hinv ltac:(auto)).
  assert (Hstep : forall l acc w0,
    StronglySorted Z.le (totals acc) /\
    Forall (fun t => t <= l_total_processed l) (totals acc) ->
    l_total_processed l < max_records ->
    match loop_body env l w0 with
    | Return (Continue l') evs _ | Return (Break l') evs _ =>
        StronglySorted Z.le (totals (acc ++ evs)) /\
        Forall (fun t => t <= l_total_processed l') (totals (acc ++ evs))
    | Raise _ evs _ => StronglySorted Z.le (totals (acc ++ evs))
    | OutOfFuel => True
    end).
  { intros l acc w0 [Hsorted Hbound] _. pose proof (loop_body_spec l w0) as Hb.
    unfold totals in *.
    destruct (loop_body env l w0) as [[l'|l'] evs w1|e evs w1|]; auto.
    - destruct Hb as (rs & c & _ & _ & _ & _ & Hck & _ & _ & Htot & _).
      rewrite checkpoints_app, Hck, map_app. cbn [map total_processed].
      assert (Hbound' : Forall (fun t => t <= l_total_processed l')
                               (t0 :: map total_processed (checkpoints acc))).
      { eapply Forall_impl; [|exact Hbound]. cbv beta. intros t Ht. lia. }
      split.
      + apply (strongly_sorted_snoc Z.le (t0 :: _)); assumption.
      + change (Forall (fun t => t <= l_total_processed l')
                  ((t0 :: map total_processed (checkpoints acc))
                     ++ [l_total_processed l'])).
        apply Forall_app. split; [assumption|]. repeat constructor. lia.
    - destruct Hb as (Hck & _ & _ & _ & _ & _ & Hcases).
      rewrite checkpoints_app, Hck, app_nil_r. split; [assumption|].
      eapply Forall_impl; [|exact Hbound]. cbv beta. intros t Ht.
      destruct Hcases as [(_ & _ & -> & _)|(rs & _ & _ & _ & _ & -> & _)]; lia.
    - destruct Hb as (Hck & _). now rewrite checkpoints_app, Hck, app_nil_r. }
  specialize (Hinv Hstep
    (Z.to_nat (max_records - total_processed (start_state state)))
    (initial_locals configuration limit (start_state state)) [] w).
  cbn [app] in Hinv.
  assert (Hstart : StronglySorted Z.le (totals []) /\
                   Forall (fun t => t <= t0) (totals [])).
  { unfold totals. simpl. split; repeat constructor. lia. }
  specialize (Hinv Hstart). unfold totals in Hinv.
  destruct (sync_loop env _ max_records _ w) as [l evs w1|e evs w1|];
    [|rewrite Hout|contradiction].
  - destruct Hinv as [Hsorted Hbound].
    destruct Hout as (_ & [(c & w2 & _ & ->)|(e & ->)]).
    + rewrite !checkpoints_app, (silent_checkpoints head Hhead).
      cbn [app checkpoints]. rewrite map_app. cbn [map total_processed].
      apply (strongly_sorted_snoc Z.le (t0 :: _)); assumption.
    + rewrite !checkpoints_app, (silent_checkpoints head Hhead).
      cbn [app checkpoints]. now rewrite app_nil_r.
  - rewrite !checkpoints_app, (silent_checkpoints head Hhead).
    cbn [app checkpoints]. now rewrite app_nil_r.
Qed.

(** C10. With at least one attempt configured the retry client never
    returns [None]: it returns a response that passed
    [raise_for_status], or it raises.  Hence no run of [update] (which
    calls it with 3 attempts) takes the branch [if not response:]: the
    warning "No response received from FDA API" is never logged. *)
Theorem retry_never_returns_none :
  (forall url params max_retries w,
     1 <= max_retries ->
     match make_api_request_with_retry env url params max_retries w with
     | Return (Some r) _ _ => response_ok r = true
     | Return None _ _ => False
     | Raise _ _ _ => True
     | OutOfFuel => False
     end) /\
  (forall configuration state w,
     match update env configuration state w with
     | Return _ evs _ | Raise _ evs _ => ~ In no_response_warning evs
     | OutOfFuel => False
     end).
Proof.
  split.
  { intros url params max_retries w Hmax.
    pose proof (make_api_request_with_retry_spec env url params max_retries w Hmax)
      as H.
    destruct (make_api_request_with_retry env url params max_retries w)
      as [[r|] evs w'|e evs w'|]; auto. apply H. }
  intros configuration state w.
  destruct (read_configuration env configuration) as [e|[limit max_records]] eqn:Hcfg.
  { rewrite update_eq, Hcfg. simpl. intros [H|[]]. discriminate. }
  pose proof (update_outcome configuration state w limit max_records Hcfg) as Hout.
  cbv zeta in Hout.
  pose proof (head_silent (configured_sync_mode configuration)
                (last_sync_date (start_state state))) as Hhead.
  set (head := [EvLog Info MsgStartingSync; _]) in *.
  pose proof (sync_loop_invariant max_records
    (fun _ acc => ~ In no_response_warning acc)
    (fun _ acc => ~ In no_response_warning acc)
    (fun _ acc => ~ In no_response_warning acc)) as Hinv.
  specialize (Hinv ltac:(auto)).
  assert (Hstep : forall l acc w0,
    ~ In no_response_warning acc ->
    l_total_processed l < max_records ->
    match loop_body env l w0 with
    | Return (Continue _) evs _ | Return (Break _) evs _ | Raise _ evs _ =>
        ~ In no_response_warning (acc ++ evs)
    | OutOfFuel => True
    end).
  { intros l acc w0 Hacc _. pose proof (loop_body_spec l w0) as Hb.
    destruct (loop_body env l w0) as [[l'|l'] evs w1|e evs w1|]; auto;
      rewrite in_app_iff; intros [H|H]; try contradiction.
    - destruct Hb as (rs & c & Hb). decompose [and] Hb. contradiction.
    - decompose [and] Hb. contradiction.
    - decompose [and] Hb. contradiction. }
  specialize (Hinv Hstep
    (Z.to_nat (max_records - total_processed (start_state state)))
    (initial_locals configuration limit (start_state state)) [] w
    (fun H => H)).
  cbn [app] in Hinv.
  destruct (sync_loop env _ max_records _ w) as [l evs w1|e evs w1|];
    [|rewrite Hout|contradiction].
  - destruct Hout as (_ & [(c & w2 & _ & ->)|(e & ->)]); not_in.
  - not_in.
Qed.

(** When every attempt of the retry client fails, it raises the
    exception of its last attempt. *)
Lemma retry_attempts_exhausted url params max_retries todo :
  forall attempt w,
    attempt + Z.of_nat todo = max_retries -> (0 < todo)%nat ->
    (forall i, (i < todo)%nat ->
               attempt_error (http_get env (calls w + i) params) <> None) ->
    exists e pre w',
      retry_attempts env todo attempt url params max_retries w
        = Raise e (pre ++ [retries_exhausted]) w' /\
      is_request_exception e = true.
Proof.
  induction todo as [|todo IH]; intros attempt w Hmax Hpos Hfail; [lia|].
  rewrite retry_attempts_step. cbv zeta.
  pose proof (Hfail 0%nat ltac:(lia)) as H0. rewrite Nat.add_0_r in H0.
  destruct (attempt_error (http_get env (calls w) params)) as [e|] eqn:Herr;
    [|congruence].
  destruct (attempt <? max_retries - 1) eqn:Hlt.
  - apply Z.ltb_lt in Hlt.
    destruct (IH (attempt + 1) {| calls := S (calls w); reads := reads w |})
      as (e' & pre & w' & -> & Hexn); [lia|lia| |].
    + intros i Hi. cbn [calls]. specialize (Hfail (S i) ltac:(lia)).
      now rewrite Nat.add_succ_r in Hfail.
    + simpl. eexists e', (_ :: _ :: _ :: _ :: pre), w'. split; [reflexivity|assumption].
  - eexists e, [_; _], _. split; [reflexivity|].
    eapply attempt_error_request_exception; eassumption.
Qed.

(** C6. Exhausted retries are not swallowed.  When every attempt of
    the retry client fails it raises (after logging that all attempts
    failed).  In every run of [update] in which that happened, [update]
    raises one [RuntimeError] that wraps the request exception, the
    failure is the last thing the run does (nothing but the log line of
    the failure follows), and every event emitted before it, the
    checkpoints among them, is still part of the run; a run that
    returns normally never exhausted its retries. *)
Theorem exhausted_retries_surface :
  (forall url params max_retries w,
     1 <= max_retries ->
     (forall i, (i < Z.to_nat max_retries)%nat ->
                attempt_error (http_get env (calls w + i) params) <> None) ->
     exists e pre w',
       make_api_request_with_retry env url params max_retries w
         = Raise e (pre ++ [retries_exhausted]) w' /\
       is_request_exception e = true) /\
  (forall configuration state w,
     match update env configuration state w with
     | Return _ evs _ => ~ In retries_exhausted evs
     | Raise e evs _ =>
         In retries_exhausted evs ->
         exists cause pre,
           is_request_exception cause = true /\
           e = RuntimeError cause /\
           evs = pre ++ [retries_exhausted; EvLog Severe (MsgSyncFailed cause)] /\
           checkpoints evs = checkpoints pre
     | OutOfFuel => False
     end).
Proof.
  split.
  { intros url params max_retries w Hmax Hfail.
    apply retry_attempts_exhausted; [lia|lia|assumption]. }
  intros configuration state w.
  destruct (read_configuration env configuration) as [e|[limit max_records]] eqn:Hcfg.
  { rewrite update_eq, Hcfg. simpl. intros [H|[]]. discriminate. }
  pose proof (update_outcome configuration state w limit max_records Hcfg) as Hout.
  cbv zeta in Hout.
  pose proof (head_silent (configured_sync_mode configuration)
                (last_sync_date (start_state state))) as Hhead.
  set (head := [EvLog Info MsgStartingSync; _]) in *.
  pose proof (sync_loop_invariant max_records
    (fun _ acc => ~ In retries_exhausted acc)
    (fun _ acc => ~ In retries_exhausted acc)
    (fun e acc =>
       In retries_exhausted acc ->
       is_request_exception e = true /\
       exists pre, acc = pre ++ [retries_exhausted])) as Hinv.
  specialize (Hinv ltac:(auto)).
  assert (Hstep : forall l acc w0,
    ~ In retries_exhausted acc ->
    l_total_processed l < max_records ->
    match loop_body env l w0 with
    | Return (Continue _) evs _ | Return (Break _) evs _ =>
        ~ In retries_exhausted (acc ++ evs)
    | Raise e evs _ =>
        In retries_exhausted (acc ++ evs) ->
        is_request_exception e = true /\
        exists pre, acc ++ evs = pre ++ [retries_exhausted]
    | OutOfFuel => True
    end).
  { intros l acc w0 Hacc _. pose proof (loop_body_spec l w0) as Hb.
    destruct (loop_body env l w0) as [[l'|l'] evs w1|e evs w1|]; auto;
      rewrite in_app_iff.
    - intros [H|H]; [contradiction|].
      destruct Hb as (rs & c & Hb). decompose [and] Hb. contradiction.
    - intros [H|H]; [contradiction|]. decompose [and] Hb. contradiction.
    - intros [H|H]; [contradiction|].
      destruct Hb as (_ & _ & Hb). destruct (Hb H) as (Hexn & pre & ->).
      split; [assumption|]. exists (acc ++ pre). now rewrite app_assoc. }
  specialize (Hinv Hstep
    (Z.to_nat (max_records - total_processed (start_state state)))
    (initial_locals configuration limit (start_state state)) [] w
    (fun H => H)).
  cbn [app] in Hinv.
  destruct (sync_loop env _ max_records _ w) as [l evs w1|e evs w1|];
    [|rewrite Hout|contradiction].
  - destruct Hout as (_ & [(c & w2 & _ & ->)|(e & ->)]); not_in.
  - intros Hin.
    assert (Hevs : In retries_exhausted evs) by (split_in Hin; assumption).
    destruct (Hinv Hevs) as (Hexn & pre & ->).
    exists e, (head ++ pre). split; [assumption|]. split; [reflexivity|].
    split; [now rewrite <- !app_assoc|].
    rewrite !checkpoints_app. cbn [checkpoints]. now rewrite !app_nil_r.
Qed.

(** The number of writes of a run that ends normally: one per processed
    page that is at least as long as the page size, and one more at the
    end; every processed page but the last is that long. *)
Lemma update_write_count configuration state w limit max_records :
  read_configuration env configuration = inr (limit, max_records) ->
  match update env configuration state w with
  | Return _ evs _ =>
      List.length (checkpoints evs) =
        S (List.length (filter (fun b => Z.min limit 1000 <=? b)
                               (processed_batches evs))) /\
      Forall (fun b => Z.min limit 1000 <= b) (removelast (processed_batches evs))
  | _ => True
  end.
Proof.
  intros Hcfg.
  pose proof (update_outcome configuration state w limit max_records Hcfg) as Hout.
  cbv zeta in Hout.
  pose proof (head_silent (configured_sync_mode configuration)
                (last_sync_date (start_state state))) as Hhead.
  set (head := [EvLog Info MsgStartingSync; _]) in *.
  set (size := Z.min limit 1000).
  set (full := fun b : Z => size <=? b).
  pose proof (sync_loop_invariant max_records
    (fun l acc =>
       p_limit (l_params l) = size /\
       List.length (checkpoints acc) = List.length (processed_batches acc) /\
       Forall (fun b => size <= b) (processed_batches acc))
    (fun l acc =>
       List.length (checkpoints acc) =
         List.length (filter full (processed_batches acc)) /\
       Forall (fun b => size <= b) (removelast (processed_batches acc)))
    (fun _ _ => True)) as Hinv.
  assert (Hfilter : forall bs, Forall (fun b => size <= b) bs -> filter full bs = bs).
  { induction 1 as [|b bs Hb _ IH]; simpl; [reflexivity|].
    unfold full at 1. rewrite (proj2 (Z.leb_le size b) Hb). now rewrite IH. }
  assert (Hexit : forall l acc,
    p_limit (l_params l) = size /\
    List.length (checkpoints acc) = List.length (processed_batches acc) /\
    Forall (fun b => size <= b) (processed_batches acc) ->
    List.length (checkpoints acc) =
      List.length (filter full (processed_batches acc)) /\
    Forall (fun b => size <= b) (removelast (processed_batches acc))).
  { intros l acc (_ & Hlen & Hfull). rewrite Hfilter by assumption.
    split; [assumption|].
    apply Forall_forall. intros b Hb. rewrite Forall_forall in Hfull.
    apply Hfull. clear - Hb. induction (processed_batches acc) as [|x xs IH];
      simpl in *; [contradiction|].
    destruct xs; [contradiction|]. destruct Hb as [Hb|Hb]; [now left|right; auto]. }
  specialize (Hinv (fun l acc HP _ => Hexit l acc HP)).
  assert (Hstep : forall l acc w0,
    p_limit (l_params l) = size /\
    List.length (checkpoints acc) = List.length (processed_batches acc) /\
    Forall (fun b => size <= b) (processed_batches acc) ->
    l_total_processed l < max_records ->
    match loop_body env l w0 with
    | Return (Continue l') evs _ =>
        p_limit (l_params l') = size /\
        List.length (checkpoints (acc ++ evs)) =
          List.length (processed_batches (acc ++ evs)) /\
        Forall (fun b => size <= b) (processed_batches (acc ++ evs))
    | Return (Break l') evs _ =>
        List.length (checkpoints (acc ++ evs)) =
          List.length (filter full (processed_batches (acc ++ evs))) /\
        Forall (fun b => size <= b) (removelast (processed_batches (acc ++ evs)))
    | Raise _ _ _ => True
    | OutOfFuel => True
    end).
  { intros l acc w0 (Hsize & Hlen & Hfull) _.
    pose proof (loop_body_spec l w0) as Hb.
    destruct (loop_body env l w0) as [[l'|l'] evs w1|e evs w1|]; auto.
    - destruct Hb as (rs & c & _ & _ & _ & _ & Hck & _ & Hpb & _ & Hge & _ & Hl & _).
      rewrite checkpoints_app, processed_batches_app, Hck, Hpb.
      split; [congruence|]. split.
      + rewrite !length_app. simpl. lia.
      + apply Forall_app. split; [assumption|]. repeat constructor. lia.
    - destruct Hb as (Hck & _ & _ & _ & _ & _ & Hcases).
      rewrite checkpoints_app, processed_batches_app, Hck, app_nil_r.
      destruct Hcases as [(_ & -> & _)|(rs & _ & _ & _ & -> & _ & Hshort)].
      + rewrite app_nil_r. apply (Hexit l). auto.
      + rewrite filter_app, removelast_last, Hfilter by assumption.
        simpl. unfold full.
        rewrite (proj2 (Z.leb_gt size (Z.of_nat (List.length rs)))) by lia.
        rewrite app_nil_r. split; assumption. }
  specialize (Hinv Hstep
    (Z.to_nat (max_records - total_processed (start_state state)))
    (initial_locals configuration limit (start_state state)) [] w).
  cbn [app] in Hinv.
  assert (Hstart :
    p_limit (l_params (initial_locals configuration limit (start_state state)))
      = size /\
    List.length (checkpoints []) = List.length (processed_batches []) /\
    Forall (fun b => size <= b) (processed_batches [])).
  { split; [|split; [reflexivity|constructor]].
    unfold initial_locals, initial_params. cbn [l_params].
    destruct (incremental_since _ _); reflexivity. }
  specialize (Hinv Hstart).
  destruct (sync_loop env _ max_records _ w) as [l evs w1|e evs w1|];
    [|rewrite Hout; exact I|contradiction].
  destruct Hinv as [Hlen Hfull].
  destruct Hout as (_ & [(c & w2 & _ & ->)|(e & ->)]); [|exact I].
  rewrite !checkpoints_app, !processed_batches_app.
  rewrite (silent_checkpoints head Hhead), (silent_processed_batches head Hhead).
  cbn [app checkpoints processed_batches]. rewrite app_nil_r.
  split; [|assumption].
  rewrite length_app. simpl. lia.
Qed.

Lemma records_in_snoc pages (page : list value) :
  records_in (pages ++ [page]) = records_in pages + Z.of_nat (List.length page).
Proof.
  induction pages as [|p pages IH]; simpl; [lia|]. unfold records_in in *.
  simpl. rewrite IH. lia.
Qed.

Lemma carries_eq st page total skip total' skip' :
  carries env st page total skip -> total = total' -> skip = skip' ->
  carries env st page total' skip'.
Proof. intros H <- <-. exact H. Qed.

Lemma page_writes_snoc size full page st :
  forall total skip,
    page_writes env size total skip full ->
    size <= Z.of_nat (List.length page) ->
    carries env st page
      (total + records_in (map fst full) + Z.of_nat (List.length page))
      (skip + size * Z.of_nat (List.length full) + size) ->
    page_writes env size total skip (full ++ [(page, st)]).
Proof.
  induction full as [|[p s] full IH]; intros total skip Hfull Hsize Hcar.
  - simpl. split; [assumption|]. split; [|exact I].
    eapply carries_eq; [exact Hcar| |]; simpl; lia.
  - simpl in Hfull. destruct Hfull as (Hp & Hs & Hrest).
    cbn [app page_writes]. cbv zeta. split; [assumption|]. split; [assumption|].
    apply IH; [assumption|assumption|].
    eapply carries_eq; [exact Hcar| |].
    + cbn [map fst]. change (records_in (p :: map fst full))
        with (Z.of_nat (List.length p) + records_in (map fst full)). lia.
    + cbn [List.length]. lia.
Qed.

(** C4, amended. The progress of a run that ends normally, in order:
    every page that is at least as long as the page size is fetched,
    logged as processed and then followed by a write of its own, which
    holds the cursor extracted from that page, the running total after
    it and the offset after it; a last page shorter than the page size
    is fetched and logged as processed but gets no write of its own;
    the final write comes last.  The final write holds the offset of
    the last per-page write (0 when there is none); after a short last
    page it holds the cursor extracted from that page and the total
    that includes it; otherwise it holds the total of the last per-page
    write and a reading of the clock or the cursor extracted again from
    the last full page.  So [n] processed pages give [n + 1] writes,
    except when the last page is shorter than the page size: then the
    run makes [n] writes. *)
Theorem checkpoint_count configuration state w limit max_records :
  read_configuration env configuration = inr (limit, max_records) ->
  match update env configuration state w with
  | Return _ evs _ =>
      let size := Z.min limit 1000 in
      let t0 := total_processed (start_state state) in
      (exists full tail final,
         marks evs = flat_map full_page full ++ tail ++ [Written final] /\
         page_writes env size t0 0 full /\
         last_cursor final = Some (size * Z.of_nat (List.length full)) /\
         ((tail = [] /\
           total_processed final = t0 + records_in (map fst full) /\
           ((exists n, last_sync_date final = Some (utc_now env n)) \/
            (exists before ps,
               full = before ++ [ps] /\ cursor_of_page env final (fst ps))))
          \/
          (exists rs,
             tail = short_page rs /\
             rs <> [] /\
             Z.of_nat (List.length rs) < size /\
             cursor_of_page env final rs /\
             total_processed final
               = t0 + records_in (map fst full) + Z.of_nat (List.length rs)))) /\
      List.length (checkpoints evs) =
        S (List.length (filter (fun b => size <=? b) (processed_batches evs))) /\
      Forall (fun b => size <= b) (removelast (processed_batches evs))
  | Raise _ _ _ => True
  | OutOfFuel => False
  end.
Proof.
  intros Hcfg.
  pose proof (update_write_count configuration state w limit max_records Hcfg)
    as Hcount.
  pose proof (update_outcome configuration state w limit max_records Hcfg) as Hout.
  cbv zeta in Hout.
  pose proof (head_silent (configured_sync_mode configuration)
                (last_sync_date (start_state state))) as Hhead.
  set (head := [EvLog Info MsgStartingSync; _]) in *.
  set (size := Z.min limit 1000) in *.
  set (t0 := total_processed (start_state state)).
  set (last_is := fun (l : Locals) (full : list (list value * SyncState)) =>
    match data_page (l_data l) with
    | Some rs => exists before st, full = before ++ [(rs, st)]
    | None => True
    end).
  set (P := fun (l : Locals) (acc : list event) =>
    exists full,
      marks acc = flat_map full_page full /\
      page_writes env size t0 0 full /\
      l_total_processed l = t0 + records_in (map fst full) /\
      l_skip l = size * Z.of_nat (List.length full) /\
      p_limit (l_params l) = size /\
      last_is l full).
  set (Q := fun (l : Locals) (acc : list event) =>
    exists full tail,
      marks acc = flat_map full_page full ++ tail /\
      page_writes env size t0 0 full /\
      l_skip l = size * Z.of_nat (List.length full) /\
      ((tail = [] /\
        l_total_processed l = t0 + records_in (map fst full) /\
        last_is l full)
       \/
       (exists rs,
          tail = short_page rs /\
          rs <> [] /\
          Z.of_nat (List.length rs) < size /\
          data_page (l_data l) = Some rs /\
          l_total_processed l
            = t0 + records_in (map fst full) + Z.of_nat (List.length rs)))).
  pose proof (sync_loop_invariant max_records P Q (fun _ _ => True)) as Hinv.
  assert (Hexit : forall l acc,
    P l acc -> max_records <= l_total_processed l -> Q l acc).
  { intros l acc (full & Hm & Hw & Htot & Hsk & _ & Hlast) _.
    exists full, []. rewrite app_nil_r.
    split; [assumption|]. split; [assumption|]. split; [assumption|].
    left. split; [reflexivity|]. split; assumption. }
  specialize (Hinv Hexit).
  assert (Hstep : forall l acc w0,
    P l acc -> l_total_processed l < max_records ->
    match loop_body env l w0 with
    | Return (Continue l') evs _ => P l' (acc ++ evs)
    | Return (Break l') evs _ => Q l' (acc ++ evs)
    | Raise _ _ _ => True
    | OutOfFuel => True
    end).
  { intros l acc w0 (full & Hm & Hw & Htot & Hsk & Hsize & Hlast) _.
    pose proof (loop_body_marks l w0) as Hb.
    destruct (loop_body env l w0) as [[l'|l'] evs w1|e evs w1|]; auto.
    - destruct Hb as (rs & st & Hm' & Hcar & Hdata & Htot' & Hge & Hsk' & Hl').
      exists (full ++ [(rs, st)]).
      split; [rewrite marks_app, Hm, Hm', flat_map_app; cbn [flat_map];
              now rewrite ?app_nil_r|].
      split.
      { apply page_writes_snoc; [assumption|lia|].
        eapply carries_eq; [exact Hcar|lia|lia]. }
      split; [rewrite map_app; cbn [map fst]; rewrite records_in_snoc; lia|].
      split; [rewrite length_app; simpl; lia|].
      split; [congruence|].
      unfold last_is. rewrite Hdata. now exists full, st.
    - destruct Hb as (Hsk' & [(Hm' & Htot' & Hdata)|
                              (rs & Hne & Hm' & Hdata & Htot' & Hshort)]).
      + exists full, []. rewrite marks_app, Hm, Hm'.
        split; [reflexivity|]. split; [assumption|]. split; [congruence|].
        left. split; [reflexivity|]. split; [congruence|].
        unfold last_is. now rewrite Hdata.
      + exists full, (short_page rs). rewrite marks_app, Hm, Hm'.
        split; [reflexivity|]. split; [assumption|]. split; [congruence|].
        right. exists rs. split; [reflexivity|]. split; [assumption|].
        split; [lia|]. split; [assumption|lia]. }
  specialize (Hinv Hstep
    (Z.to_nat (max_records - total_processed (start_state state)))
    (initial_locals configuration limit (start_state state)) [] w).
  cbn [app] in Hinv.
  assert (Hstart : P (initial_locals configuration limit (start_state state)) []).
  { exists []. unfold initial_locals, initial_params, last_is.
    cbn [l_params l_skip l_total_processed l_data data_page marks flat_map
           page_writes map List.length].
    split; [reflexivity|]. split; [exact I|].
    split; [unfold records_in; simpl; lia|]. split; [lia|].
    split; [destruct (incremental_since _ _); reflexivity|exact I]. }
  specialize (Hinv Hstart).
  destruct (sync_loop env _ max_records _ w) as [l evs w1|e evs w1|];
    [|rewrite Hout; exact I|contradiction].
  destruct Hinv as (full & tail & Hm & Hw & Hsk & Hcases).
  destruct Hout as (_ & [(c & w2 & Hfinal & Hrun)|(e & ->)]); [|exact I].
  rewrite Hrun in Hcount |- *. cbv zeta. split; [|exact Hcount].
  exists full, tail,
    (mkSyncState (Some c) (l_total_processed l) (Some (l_skip l))).
  split.
  { rewrite !marks_app, (silent_marks head Hhead), Hm.
    cbn [app marks]. now rewrite <- app_assoc. }
  split; [assumption|]. split; [cbn [last_cursor]; now rewrite Hsk|].
  unfold final_cursor in Hfinal.
  destruct Hcases as [(-> & Htot & Hlast)|(rs & -> & Hne & Hshort & Hdata & Htot)].
  - left. split; [reflexivity|]. split; [exact Htot|].
    unfold last_is in Hlast.
    destruct (data_page (l_data l)) as [rs|].
    + right. destruct Hlast as (before & st & ->).
      exists before, (rs, st). split; [reflexivity|].
      exists c. split; [reflexivity|exact Hfinal].
    + left. destruct Hfinal as [n ->]. now exists n.
  - right. exists rs. rewrite Hdata in Hfinal.
    split; [reflexivity|]. split; [assumption|]. split; [assumption|].
    split; [|exact Htot]. exists c. split; [reflexivity|exact Hfinal].
Qed.

Lemma sync_loop_exit max_records fuel l w :
  max_records <= l_total_processed l ->
  sync_loop env fuel max_records l w = Return l [] w.
Proof.
  intros H. apply Z.ltb_ge in H. destruct fuel; simpl; now rewrite H.
Qed.

(** C3, amended. When the starting state already has [total_processed]
    at or above [max_records] (and the configuration is readable), the
    run makes no request and writes exactly one checkpoint, the final
    one; its [last_sync_date] is the reading of the clock, whatever
    cursor the input state held, its [total_processed] is the input
    value and its [last_cursor] is 0. *)
Theorem capped_run_checkpoint configuration state w limit max_records :
  read_configuration env configuration = inr (limit, max_records) ->
  max_records <= total_processed (start_state state) ->
  exists evs,
    update env configuration state w
      = Return tt evs (mkWorld (calls w) (S (reads w))) /\
    fetches evs = [] /\
    checkpoints evs =
      [mkSyncState (Some (utc_now env (reads w)))
                   (total_processed (start_state state)) (Some 0)].
Proof.
  intros Hcfg Hcap.
  pose proof (update_run configuration state w limit max_records Hcfg) as Hrun.
  cbv zeta in Hrun.
  rewrite sync_loop_exit in Hrun by assumption.
  destruct Hrun as (Hwf & _ & ->).
  rewrite (final_checkpoint_eq _ w Hwf). cbv zeta.
  unfold initial_locals. cbn [l_data data_page wrap_failure prepend
                               l_total_processed l_skip app].
  eexists. split; [reflexivity|].
  unfold mode_line. destruct (incremental_since _ _); split; reflexivity.
Qed.

Lemma strongly_sorted_app_l {A : Type} (R : A -> A -> Prop) (l1 l2 : list A) :
  StronglySorted R (l1 ++ l2) -> StronglySorted R l1.
Proof.
  induction l1 as [|x l1 IH]; simpl; intros H; [constructor|].
  inversion H as [|? ? Hs Hx]; subst. constructor; [auto|].
  apply Forall_app in Hx. tauto.
Qed.

Lemma strongly_sorted_last (l : list string) (x : string) :
  StronglySorted str_le (l ++ [x]) -> Forall (fun y => str_le y x) (l ++ [x]).
Proof.
  induction l as [|y l IH]; simpl; intros H.
  - repeat constructor. apply str_le_refl.
  - inversion H as [|? ? Hs Hy]; subst. constructor; [|auto].
    rewrite Forall_forall in Hy. apply Hy. apply in_or_app. right. now left.
Qed.

(** How the cursors written by a run relate to the pages it fetched:
    the per-page checkpoints carry, in order, the cursors of the first
    fetched pages, and the final checkpoint, written when the run ends
    normally, carries the cursor of the last fetched page or a clock
    reading. *)
Lemma update_cursors configuration state w :
  match update env configuration state w with
  | Return _ evs _ =>
      exists per_page st c pages rest,
        checkpoints evs = per_page ++ [st] /\
        fetched_pages evs = pages ++ rest /\
        Forall2 (cursor_of_page env) per_page pages /\
        last_sync_date st = Some c /\
        ((exists n, c = utc_now env n) \/
         (exists before page,
            fetched_pages evs = before ++ [page] /\
            page_cursor env page = inr (Some c)))
  | Raise _ evs _ =>
      exists pages rest,
        fetched_pages evs = pages ++ rest /\
        Forall2 (cursor_of_page env) (checkpoints evs) pages
  | OutOfFuel => False
  end.
Proof.
  destruct (read_configuration env configuration) as [e|[limit max_records]] eqn:Hcfg.
  { rewrite update_eq, Hcfg. exists [], []. split; [reflexivity|constructor]. }
  pose proof (update_outcome configuration state w limit max_records Hcfg) as Hout.
  cbv zeta in Hout.
  pose proof (head_silent (configured_sync_mode configuration)
                (last_sync_date (start_state state))) as Hhead.
  set (head := [EvLog Info MsgStartingSync; _]) in *.
  set (holds := fun (l : Locals) (acc : list event) =>
    match data_page (l_data l) with
    | Some rs => exists before, fetched_pages acc = before ++ [rs]
    | None => True
    end).
  pose proof (sync_loop_invariant max_records
    (fun l acc =>
       Forall2 (cursor_of_page env) (checkpoints acc) (fetched_pages acc) /\
       holds l acc)
    (fun l acc =>
       (exists pages rest,
          fetched_pages acc = pages ++ rest /\
          Forall2 (cursor_of_page env) (checkpoints acc) pages) /\
       holds l acc)
    (fun _ acc =>
       exists pages rest,
         fetched_pages acc = pages ++ rest /\
         Forall2 (cursor_of_page env) (checkpoints acc) pages)) as Hinv.
  assert (Hexit : forall l acc,
    Forall2 (cursor_of_page env) (checkpoints acc) (fetched_pages acc) /\
    holds l acc ->
    max_records <= l_total_processed l ->
    (exists pages rest,
       fetched_pages acc = pages ++ rest /\
       Forall2 (cursor_of_page env) (checkpoints acc) pages) /\
    holds l acc).
  { intros l acc [HF Hh] _. split; [|assumption].
    exists (fetched_pages acc), []. now rewrite app_nil_r. }
  specialize (Hinv Hexit).
  assert (Hstep : forall l acc w0,
    Forall2 (cursor_of_page env) (checkpoints acc) (fetched_pages acc) /\
    holds l acc ->
    l_total_processed l < max_records ->
    match loop_body env l w0 with
    | Return (Continue l') evs _ =>
        Forall2 (cursor_of_page env) (checkpoints (acc ++ evs))
                (fetched_pages (acc ++ evs)) /\
        holds l' (acc ++ evs)
    | Return (Break l') evs _ =>
        (exists pages rest,
           fetched_pages (acc ++ evs) = pages ++ rest /\
           Forall2 (cursor_of_page env) (checkpoints (acc ++ evs)) pages) /\
        holds l' (acc ++ evs)
    | Raise _ evs _ =>
        exists pages rest,
          fetched_pages (acc ++ evs) = pages ++ rest /\
          Forall2 (cursor_of_page env) (checkpoints (acc ++ evs)) pages
    | OutOfFuel => True
    end).
  { intros l acc w0 [HF _] _. pose proof (loop_body_spec l w0) as Hb.
    unfold holds.
    destruct (loop_body env l w0) as [[l'|l'] evs w1|e evs w1|]; auto.
    - destruct Hb as (rs & c & _ & Hpages & Hdata & _ & Hck & Hcur & _).
      rewrite checkpoints_app, fetched_pages_app, Hck, Hpages, Hdata.
      split; [|eauto].
      apply Forall2_app; [assumption|]. repeat constructor.
      exists c. split; [reflexivity|exact Hcur].
    - destruct Hb as (Hck & _ & _ & _ & _ & _ & Hcases).
      rewrite checkpoints_app, fetched_pages_app, Hck, app_nil_r.
      destruct Hcases as [(-> & _ & _ & ->)|(rs & _ & -> & -> & _)].
      + split; [|exact I]. exists (fetched_pages acc), [].
        rewrite !app_nil_r. auto.
      + split; [|eauto]. exists (fetched_pages acc), [rs]. auto.
    - destruct Hb as (Hck & _).
      rewrite checkpoints_app, fetched_pages_app, Hck, app_nil_r.
      exists (fetched_pages acc), (fetched_pages evs). auto. }
  specialize (Hinv Hstep
    (Z.to_nat (max_records - total_processed (start_state state)))
    (initial_locals configuration limit (start_state state)) [] w).
  cbn [app] in Hinv.
  specialize (Hinv (conj (Forall2_nil _) I)).
  destruct (sync_loop env _ max_records _ w) as [l evs w1|e evs w1|];
    [|rewrite Hout|contradiction].
  - destruct Hinv as [(pages & rest & Hpages & HF) Hholds].
    destruct Hout as (_ & [(c & w2 & Hfinal & ->)|(e & ->)]).
    + rewrite !checkpoints_app, !fetched_pages_app.
      rewrite (silent_checkpoints head Hhead), (silent_fetched_pages head Hhead).
      cbn [app checkpoints fetched_pages]. rewrite app_nil_r.
      eexists (checkpoints evs), _, c, pages, rest.
      split; [reflexivity|]. split; [assumption|]. split; [assumption|].
      split; [reflexivity|].
      unfold final_cursor in Hfinal. unfold holds in Hholds.
      destruct (data_page (l_data l)) as [rs|]; [|now left].
      destruct Hfinal as [Hc|[_ Hn]]; [|now left].
      right. destruct Hholds as [before Hbefore]. exists before, rs. auto.
    + rewrite !checkpoints_app, !fetched_pages_app.
      rewrite (silent_checkpoints head Hhead), (silent_fetched_pages head Hhead).
      cbn [app checkpoints fetched_pages]. rewrite !app_nil_r.
      exists pages, rest. auto.
  - destruct Hinv as (pages & rest & Hpages & HF).
    rewrite !checkpoints_app, !fetched_pages_app.
    rewrite (silent_checkpoints head Hhead), (silent_fetched_pages head Hhead).
    cbn [app checkpoints fetched_pages]. rewrite !app_nil_r.
    exists pages, rest. auto.
Qed.

Lemma forall2_singleton_l {A B : Type} (R : A -> B -> Prop) (x : A) (l : list B) :
  Forall2 R [x] l -> exists y, l = [y] /\ R x y.
Proof.
  intros H. inversion H as [|? y ? l' Hxy Hnil]; subst.
  inversion Hnil; subst. eauto.
Qed.

(** Checkpoints that carry the cursors of pages with a newest date
    carry these newest dates. *)
Lemma per_page_dates per_page pages cursors :
  Forall2 (cursor_of_page env) per_page pages ->
  Forall2 newest_date pages cursors ->
  map last_sync_date per_page = map Some cursors.
Proof.
  intros H. revert cursors.
  induction H as [|st page per_page pages Hst _ IH]; intros cursors Hc;
    inversion Hc as [|? c ? cs Hpage Hrest]; subst; [reflexivity|].
  simpl. rewrite (IH cs Hrest). f_equal.
  apply (newest_date_page_cursor env) in Hpage.
  destruct Hst as (c' & -> & [Hs|[Hs _]]); congruence.
Qed.

(** The dates of the checkpoints written for the first pages of a run
    whose pages have the newest dates [cursors]. *)
Lemma prefix_dates per_page pages rest cursors :
  Forall2 (cursor_of_page env) per_page pages ->
  Forall2 newest_date (pages ++ rest) cursors ->
  map last_sync_date per_page
    = map Some (firstn (List.length per_page) cursors) /\
  exists others, cursors = firstn (List.length per_page) cursors ++ others.
Proof.
  intros HF Hnewest.
  apply Forall2_app_inv_l in Hnewest as (cs1 & cs2 & Hcs1 & _ & ->).
  assert (Hfirst : firstn (List.length per_page) (cs1 ++ cs2) = cs1).
  { rewrite (Forall2_length HF), (Forall2_length Hcs1).
    rewrite firstn_app, Nat.sub_diag, firstn_all. simpl. apply app_nil_r. }
  rewrite Hfirst. split; [now apply (per_page_dates per_page pages)|].
  now exists cs2.
Qed.

(** C1, amended. In every run in which each fetched page has a newest
    date (every [report_date] is absent, null or a string, and the
    newest date is the maximum of the normalized 8-character ones),
    these newest dates do not decrease from one fetched page to the
    next, and no reading of the clock is below any of them: the [k]-th
    per-page checkpoint carries the newest date of the [k]-th fetched
    page alone; the final checkpoint, written when the run ends
    normally, carries the newest date of the last fetched page or a
    reading of the clock; and the [last_sync_date] values written by
    the successive checkpoints (per-page, then final) do not decrease
    under string comparison. *)
Theorem last_sync_date_monotone configuration state w cursors :
  match update env configuration state w with
  | Return _ evs _ =>
      Forall2 newest_date (fetched_pages evs) cursors ->
      StronglySorted str_le cursors ->
      Forall (fun c => forall n, str_le c (utc_now env n)) cursors ->
      exists per_page final c,
        checkpoints evs = per_page ++ [final] /\
        map last_sync_date per_page
          = map Some (firstn (List.length per_page) cursors) /\
        last_sync_date final = Some c /\
        ((exists before, cursors = before ++ [c]) \/
         (exists n, c = utc_now env n)) /\
        map last_sync_date (checkpoints evs)
          = map Some (firstn (List.length per_page) cursors ++ [c]) /\
        StronglySorted str_le (firstn (List.length per_page) cursors ++ [c])
  | Raise _ evs _ =>
      Forall2 newest_date (fetched_pages evs) cursors ->
      StronglySorted str_le cursors ->
      Forall (fun c => forall n, str_le c (utc_now env n)) cursors ->
      map last_sync_date (checkpoints evs)
        = map Some (firstn (List.length (checkpoints evs)) cursors) /\
      StronglySorted str_le (firstn (List.length (checkpoints evs)) cursors)
  | OutOfFuel => False
  end.
Proof.
  pose proof (update_cursors configuration state w) as Hrun.
  destruct (update env configuration state w) as [[] evs w'|e evs w'|];
    [| |assumption].
  - destruct Hrun as (per_page & st & c & pages & rest & Hck & Hpages & HF & Hst & Hc).
    intros Hnewest Hsorted Hclock.
    pose proof Hnewest as Hsplit. rewrite Hpages in Hsplit.
    destruct (prefix_dates per_page pages rest cursors HF Hsplit)
      as (Hdates & others & Hcs).
    set (cs1 := firstn (List.length per_page) cursors) in *.
    assert (Hsorted1 : StronglySorted str_le cs1).
    { rewrite Hcs in Hsorted. eapply strongly_sorted_app_l. eassumption. }
    assert (Hbelow : Forall (fun y => str_le y c) cs1 /\
                     ((exists before, cursors = before ++ [c]) \/
                      (exists n, c = utc_now env n))).
    { destruct Hc as [[n ->]|(before & page & Hbefore & Hpage)].
      - split; [|right; now exists n].
        rewrite Hcs in Hclock. apply Forall_app in Hclock as [Hclock _].
        eapply Forall_impl; [|exact Hclock]. cbv beta. auto.
      - rewrite Hbefore in Hnewest.
        apply Forall2_app_inv_l in Hnewest as (cs3 & cs4 & _ & Hlast & Hcs').
        apply forall2_singleton_l in Hlast as (c' & -> & Hc').
        apply (newest_date_page_cursor env) in Hc'.
        assert (c' = c) by congruence. subst c'.
        split; [|left; now exists cs3].
        assert (Hall : Forall (fun y => str_le y c) cursors).
        { rewrite Hcs'. apply strongly_sorted_last. now rewrite <- Hcs'. }
        rewrite Hcs in Hall. apply Forall_app in Hall. tauto. }
    destruct Hbelow as [Hbelow Hwhich].
    exists per_page, st, c.
    split; [exact Hck|]. split; [exact Hdates|]. split; [exact Hst|].
    split; [exact Hwhich|]. split.
    + rewrite Hck, !map_app, Hdates. simpl. now rewrite Hst.
    + now apply strongly_sorted_snoc.
  - destruct Hrun as (pages & rest & Hpages & HF).
    intros Hnewest Hsorted _. rewrite Hpages in Hnewest.
    destruct (prefix_dates (checkpoints evs) pages rest cursors HF Hnewest)
      as (Hdates & others & Hcs).
    split; [exact Hdates|].
    rewrite Hcs in Hsorted. eapply strongly_sorted_app_l. eassumption.
Qed.

End LoopFacts.

(* ================================================================== *)
(** ** Concrete runs *)
(* ================================================================== *)

(** The assertions of [test_data_flattening]. *)
Example flatten_dict_sample_record :
  flatten_dict (demo_env []) sample_record "" "_" =
  [("recall_number", VStr "F-1234-2024");
   ("recalling_firm", VStr "Test Company Inc.");
   ("openfda_brand_name", VStr ("[" ++ demo_quote "Test Brand" ++ "]"));
   ("openfda_manufacturer_name",
    VStr ("[" ++ demo_quote "Test Manufacturer" ++ "]"));
   ("upc_codes",
    VStr ("[" ++ demo_quote "123456789" ++ ", " ++ demo_quote "987654321" ++ "]"));
   ("classification", VStr "Class I")].
Proof. reflexivity. Qed.

(** Raw dates [20240101] and [20240315] give the cursor of the later one. *)
Example get_latest_report_date_two_dates :
  get_latest_report_date (demo_env [])
    (VList [recall "F-1" "20240101"; recall "F-2" "20240315"]) w0
  = Return "2024-03-15T00:00:00Z" [] w0.
Proof. reflexivity. Qed.

(** A configuration without API key fails before any request. *)
Example update_missing_api_key :
  update (demo_env []) [("limit", "1000")] None w0
  = Raise (ValueError "Missing required configuration value: api_key")
          [EvLog Info MsgStartingSync] w0.
Proof. reflexivity. Qed.

Lemma flatten_dict_paths_witness :
  path_key "_" ["a"; "b"] = String.concat "_" ["a"; "b"] /\
  stored (demo_env []) (VInt 1) = VInt 1.
Proof.
  pose proof (flatten_dict_paths (demo_env []) [("a", VDict [("b", VInt 1)])])
    as (_ & Hkey & _ & Hscalar & _).
  split.
  - apply Hkey. discriminate.
  - apply Hscalar. reflexivity.
Defined.

Lemma retry_never_returns_none_witness :
  match make_api_request_with_retry down_env base_url demo_params 3 w0 with
  | Return (Some r) _ _ => response_ok r = true
  | Return None _ _ => False
  | Raise _ _ _ => True
  | OutOfFuel => False
  end.
Proof.
  apply (proj1 (retry_never_returns_none down_env)). discriminate.
Defined.

Lemma exhausted_retries_surface_witness :
  (exists e pre w',
     make_api_request_with_retry down_env base_url demo_params 3 w0
       = Raise e (pre ++ [retries_exhausted]) w' /\
     is_request_exception e = true) /\
  (exists cause pre,
     is_request_exception cause = true /\
     failing_run = Raise (RuntimeError cause)
                     (pre ++ [retries_exhausted; EvLog Severe (MsgSyncFailed cause)])
                     (mkWorld 4 1) /\
     checkpoints (events_of failing_run) = checkpoints pre /\
     checkpoints pre = [mkSyncState (Some "2024-03-15T00:00:00Z") 1 (Some 1)]).
Proof.
  split.
  - apply (proj1 (exhausted_retries_surface down_env)); [discriminate|].
    intros [|[|[|i]]] Hi; try discriminate.
    exfalso. simpl in Hi. lia.
  - pose proof (proj2 (exhausted_retries_surface failing_env) demo_config None w0)
      as H.
    fold failing_run in H.
    assert (Hrun : failing_run =
                   Raise (RuntimeError (ConnectionError "timeout"))
                         (events_of failing_run) (mkWorld 4 1))
      by (vm_compute; reflexivity).
    rewrite Hrun in H. cbv beta iota in H.
    destruct H as (cause & pre & Hexn & Hcause & Hevs & Hck).
    + vm_compute. tauto.
    + exists cause, pre. split; [assumption|]. split.
      * rewrite Hrun. now rewrite Hcause, Hevs.
      * split; [assumption|]. rewrite <- Hck. reflexivity.
Defined.

Lemma last_sync_date_monotone_witness :
  exists per_page final c,
    checkpoints (events_of growing_run) = per_page ++ [final] /\
    map last_sync_date per_page
      = map Some (firstn (List.length per_page)
                         ["2024-01-01T00:00:00Z"; "2024-03-15T00:00:00Z"]) /\
    last_sync_date final = Some c /\
    ((exists before,
        ["2024-01-01T00:00:00Z"; "2024-03-15T00:00:00Z"] = before ++ [c]) \/
     (exists n, c = utc_now growing_env n)) /\
    map last_sync_date (checkpoints (events_of growing_run))
      = map Some (firstn (List.length per_page)
                         ["2024-01-01T00:00:00Z"; "2024-03-15T00:00:00Z"] ++ [c]) /\
    StronglySorted str_le
      (firstn (List.length per_page)
              ["2024-01-01T00:00:00Z"; "2024-03-15T00:00:00Z"] ++ [c]).
Proof.
  pose proof (last_sync_date_monotone growing_env demo_config None w0
                ["2024-01-01T00:00:00Z"; "2024-03-15T00:00:00Z"]) as H.
  fold growing_run in H.
  assert (Hrun : growing_run = Return tt (events_of growing_run) (mkWorld 3 3))
    by (vm_compute; reflexivity).
  rewrite Hrun in H. cbv beta iota in H.
  assert (Hpages : fetched_pages (events_of growing_run)
                   = [[recall "F-1" "20240101"]; [recall "F-2" "20240315"]])
    by (vm_compute; reflexivity).
  rewrite Hpages in H.
  apply H.
  - repeat (constructor; [split; [repeat constructor|reflexivity]|]). constructor.
  - repeat constructor.
  - repeat constructor; intros n; reflexivity.
Defined.

(** C1, as stated, fails: when a later page holds earlier dates than the
    page before it, the cursor written goes back. *)
Lemma last_sync_date_regression_counterexample :
  map last_sync_date (checkpoints (events_of regressing_run))
    = [Some "2024-03-15T00:00:00Z"; Some "2024-01-01T00:00:00Z"; Some demo_now] /\
  ~ (exists dates,
       map last_sync_date (checkpoints (events_of regressing_run)) = map Some dates /\
       StronglySorted str_le dates).
Proof.
  assert (Hdates :
    map last_sync_date (checkpoints (events_of regressing_run))
      = [Some "2024-03-15T00:00:00Z"; Some "2024-01-01T00:00:00Z"; Some demo_now])
    by (vm_compute; reflexivity).
  split; [assumption|].
  intros (dates & Hmap & Hsorted). rewrite Hdates in Hmap.
  destruct dates as [|d1 [|d2 [|d3 [|d4 dates]]]]; try discriminate.
  injection Hmap as <- <- <-.
  inversion Hsorted as [|? ? _ Hall]; subst.
  inversion Hall as [|? ? Hle _]; subst.
  discriminate Hle.
Qed.

Lemma capped_run_checkpoint_witness :
  exists evs,
    capped_run = Return tt evs (mkWorld 0 1) /\
    fetches evs = [] /\
    checkpoints evs = [mkSyncState (Some demo_now) 10000 (Some 0)].
Proof.
  apply (capped_run_checkpoint (demo_env []) default_config (Some capped_state)
           w0 1000 10000).
  - reflexivity.
  - discriminate.
Defined.

(** C3, as stated, fails: the final checkpoint of a capped run carries
    the clock reading, not the cursor of the input state. *)
Lemma capped_run_cursor_counterexample :
  last_sync_date capped_state = Some "2024-01-01T00:00:00Z" /\
  map last_sync_date (checkpoints (events_of capped_run)) = [Some demo_now] /\
  map last_sync_date (checkpoints (events_of capped_run))
    <> [last_sync_date capped_state].
Proof.
  split; [reflexivity|]. split; [vm_compute; reflexivity|].
  vm_compute. discriminate.
Qed.

(** Two records in a full page, then one record in a short page: the
    full page has a write of its own, the short page has none and is
    persisted by the final write. *)
Example tailing_run_marks :
  marks (events_of tailing_run) =
  [Fetched [recall "F-1" "20240101"; recall "F-2" "20240315"];
   Processed 2;
   Written (mkSyncState (Some "2024-03-15T00:00:00Z") 2 (Some 2));
   Fetched [recall "F-3" "20240402"];
   Processed 1;
   Written (mkSyncState (Some "2024-04-02T00:00:00Z") 3 (Some 2))].
Proof. vm_compute. reflexivity. Qed.

Lemma checkpoint_count_witness :
  (exists full tail final,
     marks (events_of tailing_run)
       = flat_map full_page full ++ tail ++ [Written final] /\
     page_writes tailing_env 2 0 0 full /\
     last_cursor final = Some (2 * Z.of_nat (List.length full)) /\
     ((tail = [] /\
       total_processed final = 0 + records_in (map fst full) /\
       ((exists n, last_sync_date final = Some (utc_now tailing_env n)) \/
        (exists before ps,
           full = before ++ [ps] /\ cursor_of_page tailing_env final (fst ps))))
      \/
      (exists rs,
         tail = short_page rs /\
         rs <> [] /\
         Z.of_nat (List.length rs) < 2 /\
         cursor_of_page tailing_env final rs /\
         total_processed final
           = 0 + records_in (map fst full) + Z.of_nat (List.length rs)))) /\
  List.length (checkpoints (events_of tailing_run)) =
    S (List.length (filter (fun b => 2 <=? b)
                           (processed_batches (events_of tailing_run)))) /\
  Forall (fun b => 2 <= b) (removelast (processed_batches (events_of tailing_run))).
Proof.
  pose proof (checkpoint_count tailing_env pairs_config None w0 2 10000 eq_refl)
    as H.
  fold tailing_run in H.
  assert (Hrun : tailing_run = Return tt (events_of tailing_run) (mkWorld 2 3))
    by (vm_compute; reflexivity).
  rewrite Hrun in H. exact H.
Defined.

(** C4, as stated, fails: a run that processes one page shorter than
    the page size writes the state once (the final write), not twice. *)
Lemma short_page_single_write_counterexample :
  processed_batches (events_of short_page_run) = [1] /\
  List.length (checkpoints (events_of short_page_run)) = 1%nat /\
  List.length (checkpoints (events_of short_page_run))
    <> S (List.length (processed_batches (events_of short_page_run))).
Proof.
  split; [vm_compute; reflexivity|]. split; [vm_compute; reflexivity|].
  vm_compute. discriminate.
Qed.

(* ================================================================== *)
(** ** More on the retry client *)
(* ================================================================== *)

Section RetryTrace.

Variable env : Env.


Lemma total_delay_backoff n :
  forall attempt,
    0 <= attempt ->
    (total_delay (backoff attempt n)
     == inject_Z (2 ^ attempt * (2 ^ Z.of_nat n - 1)))%Q.
Proof.
  induction n as [|n IH]; intros attempt Ha.
  - simpl. rewrite Z.mul_0_r. reflexivity.
  - cbn [backoff total_delay fold_right].
    fold (total_delay (backoff (attempt + 1) n)).
    rewrite IH by lia. rewrite <- inject_Z_plus.
    apply inject_Z_injective.
    rewrite Nat2Z.inj_succ, Z.pow_succ_r by lia.
    rewrite Z.pow_add_r by lia. change (2 ^ 1) with 2. ring.
Qed.

(** The whole behaviour of the retry loop: it answers with the first
    attempt that does not fail, having slept [2^attempt] seconds after
    each failed one, or raises the error of its last attempt. *)
Lemma retry_attempts_trace url params max_retries todo :
  forall attempt w,
    attempt + Z.of_nat todo = max_retries ->
    match retry_attempts env todo attempt url params max_retries w with
    | Return None evs w' => todo = 0%nat /\ evs = [] /\ w' = w
    | Return (Some r) evs w' =>
        exists n,
          (n < todo)%nat /\
          http_get env (calls w + n) params = Responded r /\
          response_ok r = true /\
          (forall i, (i < n)%nat ->
                     attempt_error (http_get env (calls w + i) params) <> None) /\
          List.length (fetches evs) = S n /\
          sleeps evs = backoff attempt n /\
          w' = mkWorld (calls w + S n) (reads w)
    | Raise e evs w' =>
        (0 < todo)%nat /\
        attempt_error (http_get env (calls w + (todo - 1)) params) = Some e /\
        (forall i, (i < todo)%nat ->
                   attempt_error (http_get env (calls w + i) params) <> None) /\
        List.length (fetches evs) = todo /\
        sleeps evs = backoff attempt (todo - 1) /\
        w' = mkWorld (calls w + todo) (reads w)
    | OutOfFuel => False
    end.
Proof.
  induction todo as [|todo IH]; intros attempt w Hmax.
  - simpl. auto.
  - rewrite retry_attempts_step. cbv zeta.
    destruct (attempt_error (http_get env (calls w) params)) as [e|] eqn:Herr.
    + destruct (attempt <? max_retries - 1) eqn:Hlt.
      * apply Z.ltb_lt in Hlt.
        specialize (IH (attempt + 1)
                       {| calls := S (calls w); reads := reads w |}).
        cbn [calls reads] in IH.
        assert (Hshift : forall i, (S (calls w) + i = calls w + S i)%nat)
          by (intros; lia).
        destruct (retry_attempts env todo (attempt + 1) url params max_retries _)
          as [[r|] evs w'|e' evs w'|]; cbn [prepend].
        -- destruct IH as (n & Hn & Hget & Hok & Hfail & Hlen & Hsl & ->); [lia|].
           exists (S n). split; [lia|]. rewrite <- Hshift.
           split; [assumption|]. split; [assumption|]. split.
           { intros [|i] Hi; [rewrite Nat.add_0_r; congruence|].
             rewrite <- Hshift. apply Hfail. lia. }
           cbn [app fetches sleeps List.length backoff]. rewrite Hlen, Hsl.
           repeat split. f_equal. lia.
        -- destruct IH as (Htodo & _); [lia|]. subst todo. simpl in Hmax. lia.
        -- destruct IH as (Hpos & Hlast & Hfail & Hlen & Hsl & ->); [lia|].
           split; [lia|]. split.
           { replace (calls w + (S todo - 1))%nat
               with (S (calls w) + (todo - 1))%nat by lia. assumption. }
           split.
           { intros [|i] Hi; [rewrite Nat.add_0_r; congruence|].
             rewrite <- Hshift. apply Hfail. lia. }
           cbn [app fetches sleeps List.length]. rewrite Hlen, Hsl.
           split; [reflexivity|]. split.
           { destruct todo; [lia|]. simpl. now rewrite Nat.sub_0_r. }
           f_equal. lia.
        -- apply IH. lia.
      * apply Z.ltb_ge in Hlt. assert (todo = 0%nat) by lia. subst todo.
        split; [lia|]. simpl. rewrite Nat.add_0_r.
        split; [assumption|]. split.
        { intros i Hi. assert (i = 0%nat) by lia. subst i.
          rewrite Nat.add_0_r. congruence. }
        repeat split. f_equal. lia.
    + destruct (http_get env (calls w) params) as [msg|r] eqn:Hget;
        [discriminate|].
      simpl in Herr. destruct (response_ok r) eqn:Hok; [|discriminate].
      exists 0%nat. split; [lia|]. rewrite Nat.add_0_r.
      split; [assumption|]. split; [reflexivity|]. split; [intros i Hi; lia|].
      repeat split. f_equal. lia.
Qed.


(** X2. When every one of the [max_retries] attempts fails, the retry
    client issues exactly [max_retries] requests, sleeps 1, 2, 4, ...,
    [2^(max_retries - 2)] seconds between them, that is
    [2^(max_retries - 1) - 1] seconds in all, and raises the error of
    the last attempt. *)
Theorem retry_exhausted_backoff url params max_retries w :
  1 <= max_retries ->
  (forall i, (i < Z.to_nat max_retries)%nat ->
             attempt_error (http_get env (calls w + i) params) <> None) ->
  exists e evs,
    make_api_request_with_retry env url params max_retries w
      = Raise e evs (mkWorld (calls w + Z.to_nat max_retries) (reads w)) /\
    attempt_error (http_get env (calls w + (Z.to_nat max_retries - 1)) params)
      = Some e /\
    List.length (fetches evs) = Z.to_nat max_retries /\
    sleeps evs = backoff 0 (Z.to_nat max_retries - 1) /\
    (total_delay (sleeps evs) == inject_Z (2 ^ (max_retries - 1) - 1))%Q.
Proof.
  intros Hmax Hfail. unfold make_api_request_with_retry.
  pose proof (retry_attempts_trace url params max_retries
                (Z.to_nat max_retries) 0 w ltac:(lia)) as H.
  destruct (retry_attempts env (Z.to_nat max_retries) 0 url params max_retries w)
    as [[r|] evs w'|e evs w'|]; [| | |contradiction].
  - destruct H as (n & Hn & Hget & Hok & _).
    exfalso. apply (Hfail n Hn). rewrite Hget. simpl. now rewrite Hok.
  - destruct H as (H0 & _). lia.
  - destruct H as (_ & Hlast & _ & Hlen & Hsl & ->).
    exists e, evs. repeat split; try assumption.
    rewrite Hsl, total_delay_backoff by lia.
    replace (Z.of_nat (Z.to_nat max_retries - 1)) with (max_retries - 1) by lia.
    change (2 ^ 0) with 1. now rewrite Z.mul_1_l.
Qed.

(** X3. The retry client answers with the first attempt that does not
    fail: if the attempts before the [n]-th fail and the [n]-th
    ([n < max_retries], counted from 0) gets a response that passes
    [raise_for_status], it returns that response after [n + 1] requests
    and waits of 1, 2, ..., [2^(n-1)] seconds, [2^n - 1] in all. *)
Theorem retry_returns_first_success url params max_retries w n r :
  (n < Z.to_nat max_retries)%nat ->
  (forall i, (i < n)%nat ->
             attempt_error (http_get env (calls w + i) params) <> None) ->
  http_get env (calls w + n) params = Responded r ->
  response_ok r = true ->
  exists evs,
    make_api_request_with_retry env url params max_retries w
      = Return (Some r) evs (mkWorld (calls w + S n) (reads w)) /\
    List.length (fetches evs) = S n /\
    sleeps evs = backoff 0 n /\
    (total_delay (sleeps evs) == inject_Z (2 ^ Z.of_nat n - 1))%Q.
Proof.
  intros Hn Hfail Hget Hok. unfold make_api_request_with_retry.
  pose proof (retry_attempts_trace url params max_retries
                (Z.to_nat max_retries) 0 w ltac:(lia)) as H.
  assert (Hnth : attempt_error (http_get env (calls w + n) params) = None)
    by (rewrite Hget; simpl; now rewrite Hok).
  destruct (retry_attempts env (Z.to_nat max_retries) 0 url params max_retries w)
    as [[r'|] evs w'|e evs w'|]; [| | |contradiction].
  - destruct H as (m & Hm & Hget' & Hok' & Hfail' & Hlen & Hsl & ->).
    assert (m = n).
    { destruct (Nat.lt_trichotomy m n) as [Hlt|[Heq|Hgt]]; [|assumption|].
      - exfalso. apply (Hfail m Hlt). rewrite Hget'. simpl. now rewrite Hok'.
      - exfalso. now apply (Hfail' n Hgt). }
    subst m. assert (r' = r) by congruence. subst r'.
    exists evs. repeat split; try assumption.
    rewrite Hsl, total_delay_backoff by lia.
    change (2 ^ 0) with 1. now rewrite Z.mul_1_l.
  - destruct H as (H0 & _). lia.
  - destruct H as (_ & _ & Hfail' & _). exfalso. now apply (Hfail' n Hn).
Qed.

End RetryTrace.

Lemma retry_exhausted_backoff_witness :
  exists e evs,
    make_api_request_with_retry down_env base_url demo_params 3 w0
      = Raise e evs (mkWorld 3 0) /\
    attempt_error (http_get down_env 2 demo_params) = Some e /\
    List.length (fetches evs) = 3%nat /\
    sleeps evs = [1%Q; 2%Q] /\
    (total_delay (sleeps evs) == 3)%Q.
Proof.
  apply (retry_exhausted_backoff down_env base_url demo_params 3 w0).
  - discriminate.
  - intros [|[|[|i]]] Hi; try discriminate.
    exfalso. simpl in Hi. lia.
Defined.

Lemma retry_returns_first_success_witness :
  exists evs,
    make_api_request_with_retry flaky_env base_url demo_params 3 w0
      = Return (Some (mkResponse 200
                        (Some (VDict [("results",
                                       VList [recall "F-1" "20240315"])]))))
               evs (mkWorld 3 0) /\
    List.length (fetches evs) = 3%nat /\
    sleeps evs = [1%Q; 2%Q] /\
    (total_delay (sleeps evs) == 3)%Q.
Proof.
  apply (retry_returns_first_success flaky_env base_url demo_params 3 w0 2).
  - simpl. lia.
  - intros [|[|i]] Hi; try discriminate. exfalso. lia.
  - reflexivity.
  - reflexivity.
Defined.

(* ================================================================== *)
(** ** More on page processing *)
(* ================================================================== *)

Lemma dict_get_set_same {A : Type} (k : string) (v : A) (d : dict A) :
  dict_get k (dict_set k v d) = Some v.
Proof.
  induction d as [|[k' v'] d IH]; simpl.
  - now rewrite String.eqb_refl.
  - destruct (String.eqb k' k) eqn:E; simpl; rewrite E; [reflexivity|assumption].
Qed.

Lemma dict_get_set_other {A : Type} (k k' : string) (v : A) (d : dict A) :
  k' <> k -> dict_get k' (dict_set k v d) = dict_get k' d.
Proof.
  intros Hne. induction d as [|[k1 v1] d IH]; simpl.
  - rewrite (proj2 (String.eqb_neq k k')); [reflexivity|congruence].
  - destruct (String.eqb k1 k) eqn:E; simpl.
    + apply String.eqb_eq in E. subst k1.
      now rewrite (proj2 (String.eqb_neq k k')) by congruence.
    + destruct (String.eqb k1 k'); [reflexivity|assumption].
Qed.

Section ProcessRows.

Variable env : Env.

Lemma process_each_rows ds :
  forall processed w,
    process_each env (map VDict ds) processed w
    = Return (processed ++ rows_from env ds (reads w)) []
             (mkWorld (calls w) (reads w + List.length ds)).
Proof.
  induction ds as [|d ds IH]; intros processed w; simpl.
  - unfold ret. rewrite app_nil_r, Nat.add_0_r. now destruct w.
  - unfold bind at 1, now_iso. rewrite IH. cbn [calls reads app].
    rewrite <- app_assoc. simpl. f_equal. f_equal. lia.
Qed.

Lemma upserts_app evs1 evs2 : upserts (evs1 ++ evs2) = upserts evs1 ++ upserts evs2.
Proof.
  induction evs1 as [|ev evs1 IH]; simpl; [reflexivity|].
  destruct ev; simpl; now rewrite IH.
Qed.

Lemma upserts_map_upsert table rows :
  upserts (map (EvUpsert table) rows) = map (fun row => (table, row)) rows.
Proof. induction rows; simpl; congruence. Qed.

(** The events of a processed batch of mappings. *)
Lemma process_food_enforcement_records_rows records ds w :
  py_iter records = inr (map VDict ds) ->
  process_food_enforcement_records env records w
  = Return (Z.of_nat (List.length ds))
      (map (EvUpsert "food_enforcement_records") (rows_from env ds (reads w))
       ++ match ds with
          | [] => []
          | _ => [EvLog Info (MsgUpserted (Z.of_nat (List.length ds)))]
          end)
      (mkWorld (calls w) (reads w + List.length ds)).
Proof.
  intros Hiter.
  unfold process_food_enforcement_records. rewrite Hiter, bind_lift.
  unfold bind at 1. rewrite process_each_rows. cbn [app].
  assert (Hlen : forall l n, List.length (rows_from env l n) = List.length l).
  { induction l as [|d l' IH]; intros n; simpl; auto. }
  destruct ds as [|d ds'].
  - reflexivity.
  - cbn [rows_from]. unfold bind at 1. unfold bind at 1.
    rewrite upsert_all_spec. unfold log, emit, ret. cbn [app].
    rewrite !app_nil_r. cbn [List.length map]. rewrite !Hlen. reflexivity.
Qed.

Lemma rows_from_nth ds :
  forall n i d,
    nth_error ds i = Some d ->
    nth_error (rows_from env ds n) i = Some (row_of env d (utc_now env (n + i))).
Proof.
  induction ds as [|d0 ds IH]; intros n [|i] d; simpl; try discriminate.
  - intros [= <-]. now rewrite Nat.add_0_r.
  - intros H. rewrite (IH (S n) i d H). do 3 f_equal. lia.
Qed.

(** X4. A batch of [n] mappings is processed without error: the
    function returns [n], reads the clock once per record and upserts
    exactly one row per record, in the order of the batch, into
    [food_enforcement_records].  The row of the [i]-th record has
    [_fivetran_deleted = False], has [_fivetran_synced] equal to the
    clock reading taken for that record, agrees with the flattened
    record on every other key, and holds no nested value. *)
Theorem process_food_enforcement_records_upserts (ds : list (dict value)) (w : World) :
  exists evs,
    process_food_enforcement_records env (VList (map VDict ds)) w
      = Return (Z.of_nat (List.length ds)) evs
               (mkWorld (calls w) (reads w + List.length ds)) /\
    List.length (upserts evs) = List.length ds /\
    checkpoints evs = [] /\ fetches evs = [] /\
    forall i d,
      nth_error ds i = Some d ->
      exists row,
        nth_error (upserts evs) i = Some ("food_enforcement_records", row) /\
        dict_get "_fivetran_deleted" row = Some (VBool false) /\
        dict_get "_fivetran_synced" row = Some (VStr (utc_now env (reads w + i))) /\
        (forall k, k <> "_fivetran_deleted" -> k <> "_fivetran_synced" ->
                   dict_get k row = dict_get k (flatten_dict env d "" "_")) /\
        Forall (fun kv => is_scalar (snd kv) = true) row.
Proof.
  exists (map (EvUpsert "food_enforcement_records") (rows_from env ds (reads w))
          ++ match ds with
             | [] => []
             | _ => [EvLog Info (MsgUpserted (Z.of_nat (List.length ds)))]
             end).
  split; [now apply process_food_enforcement_records_rows|].
  assert (Hup : forall tail,
    upserts tail = [] ->
    upserts (map (EvUpsert "food_enforcement_records")
                 (rows_from env ds (reads w)) ++ tail)
    = map (fun row => ("food_enforcement_records", row))
          (rows_from env ds (reads w))).
  { intros tail Htail. now rewrite upserts_app, upserts_map_upsert, Htail, app_nil_r. }
  assert (Htail : upserts match ds with
                          | [] => []
                          | _ => [EvLog Info (MsgUpserted (Z.of_nat (List.length ds)))]
                          end = []) by (destruct ds; reflexivity).
  rewrite (Hup _ Htail). split; [|split; [|split]].
  - rewrite length_map. clear. generalize (reads w).
    induction ds; intros n; simpl; auto.
  - rewrite checkpoints_app, silent_checkpoints by apply silent_upserts.
    destruct ds; reflexivity.
  - rewrite fetches_app.
    assert (Hf : forall rows, fetches (map (EvUpsert "food_enforcement_records") rows) = [])
      by (induction rows; simpl; auto).
    rewrite Hf. destruct ds; reflexivity.
  - intros i d Hi. exists (row_of env d (utc_now env (reads w + i))).
    split; [|split; [|split; [|split]]].
    + rewrite nth_error_map, (rows_from_nth ds (reads w) i d Hi). reflexivity.
    + apply dict_get_set_same.
    + unfold row_of. rewrite dict_get_set_other by discriminate.
      apply dict_get_set_same.
    + intros k Hk1 Hk2. unfold row_of.
      rewrite !dict_get_set_other by congruence. reflexivity.
    + unfold row_of.
      apply (forall_values_dict_set (fun v => is_scalar v = true)); [reflexivity|].
      apply (forall_values_dict_set (fun v => is_scalar v = true)); [reflexivity|].
      apply flatten_dict_scalar.
Qed.

Lemma process_each_not_dict records :
  forallb is_dict_value records = false ->
  forall processed w,
    exists w', process_each env records processed w = Raise AttributeError [] w' /\
               calls w' = calls w.
Proof.
  induction records as [|record records IH]; simpl; [discriminate|].
  intros Hbad processed w.
  destruct record as [ | | | | | |d]; simpl in *;
    try (exists w; split; reflexivity).
  unfold bind at 1, now_iso.
  destruct (IH Hbad (processed ++
              [dict_set "_fivetran_deleted" (VBool false)
                 (dict_set "_fivetran_synced" (VStr (utc_now env (reads w)))
                    (flatten_dict env d "" "_"))])
              {| calls := calls w; reads := S (reads w) |}) as (w' & -> & Hcalls).
  exists w'. split; [reflexivity|assumption].
Qed.

(** X5. A page that holds one element that is not a mapping is
    rejected as a whole: the function raises [AttributeError] and has
    upserted nothing, not even the records that precede the bad one. *)
Theorem process_food_enforcement_records_rejects (records : list value) (w : World) :
  forallb is_dict_value records = false ->
  exists w',
    process_food_enforcement_records env (VList records) w
      = Raise AttributeError [] w' /\
    calls w' = calls w.
Proof.
  intros Hbad. unfold process_food_enforcement_records. simpl py_iter.
  rewrite bind_lift. unfold bind at 1.
  destruct (process_each_not_dict records Hbad [] w) as (w' & -> & Hcalls).
  exists w'. split; [reflexivity|assumption].
Qed.

End ProcessRows.

Lemma process_food_enforcement_records_rejects_witness :
  exists w',
    process_food_enforcement_records (demo_env [])
      (VList [recall "F-1" "20240315"; VStr "oops"]) w0
      = Raise AttributeError [] w' /\
    calls w' = calls w0.
Proof.
  apply (process_food_enforcement_records_rejects (demo_env [])
           [recall "F-1" "20240315"; VStr "oops"] w0).
  reflexivity.
Defined.

(* ================================================================== *)
(** ** More on the cursor extractor *)
(* ================================================================== *)

Ltac explode_string s H :=
  repeat (destruct s as [|? s]; simpl in H; try discriminate H).

Lemma normalize_compare (s1 s2 : string) :
  String.length s1 = 8%nat -> String.length s2 = 8%nat ->
  String.compare (normalize s1) (normalize s2) = String.compare s1 s2.
Proof.
  intros H1 H2. explode_string s1 H1. explode_string s2 H2.
  unfold normalize, iso_of. cbn [substring String.append String.compare].
  rewrite !ascii_compare_refl.
  repeat match goal with
         | |- context [Ascii.compare ?a ?b] => destruct (Ascii.compare a b)
         end; reflexivity.
Qed.

(** X6. The normalized cursor is a faithful image of the raw date: on
    raw dates of 8 characters, normalization always gives 20
    characters, maps different raw dates to different cursors, and
    keeps their order, so comparing cursors as strings compares the raw
    dates. *)
Theorem normalize_order (s1 s2 : string) :
  String.length s1 = 8%nat -> String.length s2 = 8%nat ->
  String.length (normalize s1) = 20%nat /\
  (normalize s1 = normalize s2 -> s1 = s2) /\
  (str_le (normalize s1) (normalize s2) <-> str_le s1 s2) /\
  String.ltb (normalize s1) (normalize s2) = String.ltb s1 s2.
Proof.
  intros H1 H2. pose proof (normalize_compare s1 s2 H1 H2) as Hcmp.
  split; [|split; [|split]].
  - clear - H1. explode_string s1 H1. reflexivity.
  - intros Heq. apply String.compare_eq_iff. rewrite <- Hcmp, Heq.
    apply string_compare_refl.
  - unfold str_le, String.leb. now rewrite Hcmp.
  - unfold String.ltb. now rewrite Hcmp.
Qed.

Lemma normalize_order_witness :
  String.length (normalize "20240101") = 20%nat /\
  (normalize "20240101" = normalize "20240315" -> "20240101" = "20240315") /\
  (str_le (normalize "20240101") (normalize "20240315")
   <-> str_le "20240101" "20240315") /\
  String.ltb (normalize "20240101") (normalize "20240315")
    = String.ltb "20240101" "20240315".
Proof.
  apply (normalize_order "20240101" "20240315"); reflexivity.
Defined.

Section CursorMore.

Variable env : Env.

(** The cursor extractor on a batch whose dates are absent, null or
    strings, by the newest of its 8-character dates. *)
Lemma get_latest_report_date_string_dated records w :
  Forall string_dated records ->
  get_latest_report_date env (VList records) w =
  match fold_left (fun acc s => newer (normalize s) acc)
                  (raw_dates has_length_8 records) None with
  | Some c => Return c [] w
  | None => Return (utc_now env (reads w)) [] (mkWorld (calls w) (S (reads w)))
  end.
Proof.
  intros H. rewrite get_latest_report_date_eq. unfold page_cursor.
  now rewrite (scan_records_string_dated env records H None).
Qed.

Lemma raw_dates_permutation accept records records' :
  Permutation records records' ->
  Permutation (raw_dates accept records) (raw_dates accept records').
Proof.
  induction 1 as [|x l l' _ IH|x y l|l l' l'' _ IH1 _ IH2].
  - constructor.
  - simpl. destruct x as [ | | | | | |d]; try assumption.
    destruct (dict_get "report_date" d) as [[ | | | |s| | ]|]; try assumption.
    destruct (accept s); [now constructor|assumption].
  - simpl.
    assert (Hone : forall r rest rest',
      Permutation rest rest' ->
      Permutation
        (match r with
         | VDict d =>
             match dict_get "report_date" d with
             | Some (VStr s) => if accept s then s :: rest else rest
             | _ => rest
             end
         | _ => rest
         end)
        (match r with
         | VDict d =>
             match dict_get "report_date" d with
             | Some (VStr s) => if accept s then s :: rest' else rest'
             | _ => rest'
             end
         | _ => rest'
         end)).
    { intros r rest rest' Hp. destruct r as [ | | | | | |d]; try assumption.
      destruct (dict_get "report_date" d) as [[ | | | |s| | ]|]; try assumption.
      destruct (accept s); [now constructor|assumption]. }
    destruct x as [ | | | | | |dx]; destruct y as [ | | | | | |dy];
      try apply Permutation_refl.
    destruct (dict_get "report_date" dx) as [[ | | | |sx| | ]|];
      destruct (dict_get "report_date" dy) as [[ | | | |sy| | ]|];
      try apply Permutation_refl.
    destruct (accept sx); destruct (accept sy); try apply Permutation_refl.
    apply perm_swap.
  - eapply Permutation_trans; eassumption.
Qed.

(** X7. The cursor does not depend on the order of the records: on
    batches whose [report_date] entries are absent, null or strings,
    two batches that hold the same records in a different order give
    the same result. *)
Theorem get_latest_report_date_order_independent records records' w :
  Forall string_dated records ->
  Permutation records records' ->
  get_latest_report_date env (VList records) w
    = get_latest_report_date env (VList records') w.
Proof.
  intros Hdated Hperm.
  assert (Hdated' : Forall string_dated records').
  { rewrite Forall_forall in *. intros r Hr. apply Hdated.
    eapply Permutation_in; [apply Permutation_sym|]; eassumption. }
  rewrite !get_latest_report_date_string_dated by assumption.
  pose proof (raw_dates_permutation has_length_8 _ _ Hperm) as Hraw.
  pose proof (fold_newer_spec (raw_dates has_length_8 records) None) as H1.
  pose proof (fold_newer_spec (raw_dates has_length_8 records') None) as H2.
  assert (Hmap : Permutation (map normalize (raw_dates has_length_8 records))
                             (map normalize (raw_dates has_length_8 records')))
    by now apply Permutation_map.
  destruct (fold_left _ (raw_dates has_length_8 records) None) as [c1|];
    destruct (fold_left _ (raw_dates has_length_8 records') None) as [c2|].
  - destruct H1 as ([Hin1|[=]] & Hall1 & _). destruct H2 as ([Hin2|[=]] & Hall2 & _).
    rewrite Forall_forall in Hall1, Hall2.
    assert (c1 = c2); [|now subst].
    apply String.leb_antisym.
    + apply Hall2. eapply Permutation_in; eassumption.
    + apply Hall1. eapply Permutation_in; [apply Permutation_sym|]; eassumption.
  - destruct H2 as [Hnil _]. rewrite Hnil in Hraw.
    apply Permutation_sym, Permutation_nil in Hraw. rewrite Hraw in H1.
    simpl in H1. destruct H1 as ([[]|[=]] & _).
  - destruct H1 as [Hnil _]. rewrite Hnil in Hraw.
    apply Permutation_nil in Hraw. rewrite Hraw in H2.
    simpl in H2. destruct H2 as ([[]|[=]] & _).
  - reflexivity.
Qed.

Lemma scan_records_app records1 records2 latest_date :
  scan_records env (records1 ++ records2) latest_date =
  match scan_records env records1 latest_date with
  | inl e => inl e
  | inr latest_date' => scan_records env records2 latest_date'
  end.
Proof.
  revert latest_date. induction records1 as [|r records1 IH]; intros; simpl;
    [reflexivity|].
  destruct (scan_record env r latest_date); [reflexivity|apply IH].
Qed.

(** X8. A [report_date] that is a non-zero number or [True] aborts the
    extraction: when the records before it have dates that are absent,
    null or strings, the extractor raises [TypeError] (from [len]),
    which its [except (ValueError, IndexError)] clause lets through,
    whatever the records after it hold. *)
Theorem get_latest_report_date_type_error before d v after w :
  Forall string_dated before ->
  dict_get "report_date" d = Some v ->
  unsized v = true -> truthy v = true ->
  get_latest_report_date env (VList (before ++ VDict d :: after)) w
    = Raise TypeError [] w.
Proof.
  intros Hbefore Hd Hv Ht. rewrite get_latest_report_date_eq. unfold page_cursor.
  rewrite scan_records_app, (scan_records_string_dated env before Hbefore None).
  simpl. rewrite Hd, Ht. destruct v; try discriminate; reflexivity.
Qed.

End CursorMore.

Lemma get_latest_report_date_order_independent_witness :
  get_latest_report_date (demo_env [])
    (VList [recall "F-1" "20240101"; recall "F-2" "20240315"]) w0
  = get_latest_report_date (demo_env [])
      (VList [recall "F-2" "20240315"; recall "F-1" "20240101"]) w0.
Proof.
  apply (get_latest_report_date_order_independent (demo_env [])).
  - repeat constructor.
  - apply perm_swap.
Defined.

Lemma get_latest_report_date_type_error_witness :
  get_latest_report_date (demo_env [])
    (VList ([recall "F-1" "20240101"]
            ++ VDict [("report_date", VInt 20240315)]
            :: [recall "F-3" "20240401"])) w0
  = Raise TypeError [] w0.
Proof.
  apply (get_latest_report_date_type_error (demo_env [])
           [recall "F-1" "20240101"] [("report_date", VInt 20240315)]
           (VInt 20240315) [recall "F-3" "20240401"] w0).
  - repeat constructor.
  - reflexivity.
  - reflexivity.
  - reflexivity.
Defined.

(* ================================================================== *)
(** ** More on the flattener *)
(* ================================================================== *)

Section FlattenMore.

Variable env : Env.

Lemma flatten_items_no_nesting sep d :
  Forall (fun kv => is_dict_value (snd kv) = false) d ->
  flatten_items env (VDict d) "" sep
    = map (fun kv => (fst kv, stored env (snd kv))) d.
Proof.
  induction d as [|[k v] d IH]; intros Hd; [reflexivity|].
  inversion Hd as [|? ? Hv Hd']; subst. simpl in Hv.
  rewrite flatten_items_cons, IH by assumption.
  destruct v as [ | | | | |l| ]; try discriminate; reflexivity.
Qed.

(** X9. On a mapping with distinct keys and no nested mapping,
    flattening (with any separator) keeps every key, in the same order,
    and changes only the sequences: a non-empty one becomes its
    [json.dumps] string, an empty one becomes null. *)
Theorem flatten_dict_without_nesting (d : dict value) (sep : string) :
  NoDup (keys d) ->
  Forall (fun kv => is_dict_value (snd kv) = false) d ->
  flatten_dict env d "" sep = map (fun kv => (fst kv, stored env (snd kv))) d /\
  keys (flatten_dict env d "" sep) = keys d.
Proof.
  intros Hnd Hd.
  assert (Hkeys : keys (map (fun kv => (fst kv, stored env (snd kv))) d) = keys d).
  { unfold keys. rewrite map_map. reflexivity. }
  assert (Heq : flatten_dict env d "" sep
                = map (fun kv => (fst kv, stored env (snd kv))) d).
  { unfold flatten_dict. rewrite flatten_items_no_nesting by assumption.
    apply dict_of_items_nodup. now rewrite Hkeys. }
  split; [assumption|]. now rewrite Heq.
Qed.

Lemma lookup_last_from {A : Type} (k : string) (items : list (string * A)) :
  forall found,
    fold_left (fun found kv => if String.eqb (fst kv) k then Some (snd kv) else found)
              items found
    = match lookup_last k items with
      | Some v => Some v
      | None => found
      end.
Proof.
  unfold lookup_last.
  induction items as [|[k1 v1] items IH]; intros found; simpl; [reflexivity|].
  rewrite IH. rewrite (IH (if String.eqb k1 k then Some v1 else None)).
  destruct (fold_left _ items None); [reflexivity|].
  destruct (String.eqb k1 k); reflexivity.
Qed.

(** Looking a key up after inserting items: the last item with that key
    wins over what the dict held. *)
Lemma dict_get_fill {A : Type} (k : string) (items : list (string * A)) :
  forall acc,
    dict_get k (fill items acc)
    = match lookup_last k items with
      | Some v => Some v
      | None => dict_get k acc
      end.
Proof.
  induction items as [|[k1 v1] items IH]; intros acc; [reflexivity|].
  simpl fill. rewrite IH. unfold lookup_last at 2. simpl fold_left.
  rewrite lookup_last_from.
  destruct (lookup_last k items) as [v|]; [reflexivity|].
  destruct (String.eqb_spec k1 k) as [->|Hne].
  - apply dict_get_set_same.
  - apply dict_get_set_other. congruence.
Qed.

(** X10. Looking a key up in a flattened record gives what is stored
    for the last leaf of the input, in document order, whose key path
    flattens to that key, and nothing when no leaf does: when two
    leaves collide on a flattened key, the later one wins. *)
Theorem flatten_dict_lookup (d : dict value) (k : string) :
  dict_get k (flatten_dict env d "" "_")
  = lookup_last k
      (map (fun pv => (path_key "_" (fst pv), stored env (snd pv)))
           (leaves (VDict d) [])).
Proof.
  transitivity
    (dict_get k
       (fill (map (fun pv => (path_key "_" (fst pv), stored env (snd pv)))
                  (leaves (VDict d) [])) [])).
  - unfold flatten_dict, dict_of_items. f_equal.
    exact (flatten_items_leaves env "_" (VDict d) [] []).
  - rewrite dict_get_fill. destruct (lookup_last k _); reflexivity.
Qed.

End FlattenMore.

Lemma flatten_dict_without_nesting_witness :
  flatten_dict (demo_env [])
    [("recall_number", VStr "F-1"); ("codes", VList []); ("n", VInt 3)] "" "_"
  = [("recall_number", VStr "F-1"); ("codes", VNone); ("n", VInt 3)] /\
  keys (flatten_dict (demo_env [])
          [("recall_number", VStr "F-1"); ("codes", VList []); ("n", VInt 3)]
          "" "_")
  = ["recall_number"; "codes"; "n"].
Proof.
  apply (flatten_dict_without_nesting (demo_env [])
           [("recall_number", VStr "F-1"); ("codes", VList []); ("n", VInt 3)] "_").
  - repeat constructor; simpl; intuition discriminate.
  - repeat constructor.
Defined.

(** A nested entry that flattens to [recall_number] replaces the
    record's own [recall_number]. *)
Example flatten_dict_collision :
  dict_get "recall_number"
    (flatten_dict (demo_env [])
       [("recall_number", VStr "F-1"); ("recall", VDict [("number", VStr "X")])]
       "" "_")
  = Some (VStr "X").
Proof. reflexivity. Qed.

(* ================================================================== *)
(** ** More on the runs of [update] *)
(* ================================================================== *)

Section RunMore.

Variable env : Env.

Lemma read_configuration_error configuration e :
  read_configuration env configuration = inl e -> is_value_error e = true.
Proof.
  unfold read_configuration.
  destruct (dict_get "api_key" configuration) as [key|]; [|now intros [= <-]].
  destruct (String.eqb key ""); [now intros [= <-]|].
  destruct (dict_get "limit" configuration) as [s|].
  - destruct (py_int env s); [|now intros [= <-]].
    destruct (dict_get "max_records" configuration) as [s'|]; [|discriminate].
    destruct (py_int env s'); [discriminate|now intros [= <-]].
  - destruct (dict_get "max_records" configuration) as [s'|]; [|discriminate].
    destruct (py_int env s'); [discriminate|now intros [= <-]].
Qed.

(** X11. What [update] can raise.  A configuration it cannot read (no
    or empty [api_key], a [limit] or [max_records] that [int] rejects)
    makes it raise that [ValueError] itself, not wrapped, after the
    first log line only: no request, no upsert, no checkpoint.  Every
    other failure surfaces as a [RuntimeError] that wraps its cause,
    and the last thing the run does is to log that cause. *)
Theorem update_raises (configuration : dict string) (state : option SyncState)
  (w : World) :
  match update env configuration state w with
  | Return _ _ _ =>
      exists limit max_records,
        read_configuration env configuration = inr (limit, max_records)
  | Raise e evs w' =>
      (read_configuration env configuration = inl e /\
       is_value_error e = true /\
       evs = [EvLog Info MsgStartingSync] /\ w' = w)
      \/
      (exists limit max_records cause pre,
         read_configuration env configuration = inr (limit, max_records) /\
         e = RuntimeError cause /\
         evs = pre ++ [EvLog Severe (MsgSyncFailed cause)])
  | OutOfFuel => False
  end.
Proof.
  destruct (read_configuration env configuration) as [e|[limit max_records]] eqn:Hcfg.
  { rewrite update_eq, Hcfg. left. repeat split.
    eapply read_configuration_error; eassumption. }
  pose proof (update_outcome env configuration state w limit max_records Hcfg)
    as Hout.
  cbv zeta in Hout.
  destruct (sync_loop env _ max_records _ w) as [l evs w1|e evs w1|];
    [|rewrite Hout|contradiction].
  - destruct Hout as (_ & [(c & w2 & _ & ->)|(e & ->)]); [eauto|].
    right. exists limit, max_records, e. eexists. split; [reflexivity|].
    split; [reflexivity|]. now rewrite !app_assoc.
  - right. exists limit, max_records, e. eexists. split; [reflexivity|].
    split; [reflexivity|]. now rewrite !app_assoc.
Qed.

Lemma offsets_snoc size n :
  offsets size (S n) = offsets size n ++ [Some (size * Z.of_nat (S n))].
Proof. unfold offsets. rewrite seq_S, map_app. reflexivity. Qed.

Lemma offsets_length size n : List.length (offsets size n) = n.
Proof. unfold offsets. now rewrite length_map, length_seq. Qed.

(** X12. The offset a run records.  With page size
    [min(limit, 1000)], the [i]-th per-page checkpoint of a run has
    [last_cursor = i * page size], and the final checkpoint repeats the
    offset of the last per-page checkpoint (0 when there is none): a
    last page shorter than the page size does not advance it. *)
Theorem last_cursor_offsets (configuration : dict string)
  (state : option SyncState) (w : World) (limit max_records : Z) :
  read_configuration env configuration = inr (limit, max_records) ->
  match update env configuration state w with
  | Return _ evs _ =>
      exists per_page final,
        checkpoints evs = per_page ++ [final] /\
        map last_cursor per_page
          = offsets (Z.min limit 1000) (List.length per_page) /\
        last_cursor final
          = Some (Z.min limit 1000 * Z.of_nat (List.length per_page))
  | Raise _ evs _ =>
      map last_cursor (checkpoints evs)
        = offsets (Z.min limit 1000) (List.length (checkpoints evs))
  | OutOfFuel => False
  end.
Proof.
  intros Hcfg.
  pose proof (update_outcome env configuration state w limit max_records Hcfg)
    as Hout.
  cbv zeta in Hout.
  pose proof (head_silent (configured_sync_mode configuration)
                (last_sync_date (start_state state))) as Hhead.
  set (head := [EvLog Info MsgStartingSync; _]) in *.
  set (size := Z.min limit 1000).
  set (inv := fun (l : Locals) (acc : list event) =>
    p_limit (l_params l) = size /\
    l_skip l = size * Z.of_nat (List.length (checkpoints acc)) /\
    map last_cursor (checkpoints acc)
      = offsets size (List.length (checkpoints acc))).
  pose proof (sync_loop_invariant env max_records inv inv
    (fun _ acc => map last_cursor (checkpoints acc)
                  = offsets size (List.length (checkpoints acc)))) as Hinv.
  specialize (Hinv ltac:(auto)).
  assert (Hstep : forall l acc w0,
    inv l acc -> l_total_processed l < max_records ->
    match loop_body env l w0 with
    | Return (Continue l') evs _ | Return (Break l') evs _ => inv l' (acc ++ evs)
    | Raise _ evs _ =>
        map last_cursor (checkpoints (acc ++ evs))
          = offsets size (List.length (checkpoints (acc ++ evs)))
    | OutOfFuel => True
    end).
  { intros l acc w0 (Hsize & Hskip & Hmap) _.
    pose proof (loop_body_spec env l w0) as Hb. unfold inv.
    destruct (loop_body env l w0) as [[l'|l'] evs w1|e evs w1|]; auto.
    - destruct Hb as (rs & c & _ & _ & _ & _ & Hck & _ & _ & _ & _ & Hsk & Hl & _).
      rewrite checkpoints_app, Hck, length_app, map_app, Hmap.
      cbn [List.length map last_cursor]. rewrite Nat.add_1_r, offsets_snoc.
      split; [congruence|]. split; [rewrite Hsk, Hskip, Hsize; lia|].
      f_equal. f_equal. f_equal. rewrite Hsk, Hskip, Hsize. lia.
    - destruct Hb as (Hck & _ & _ & Hsk & Hl & _).
      rewrite checkpoints_app, Hck, app_nil_r.
      split; [congruence|]. split; [congruence|assumption].
    - destruct Hb as (Hck & _). now rewrite checkpoints_app, Hck, app_nil_r. }
  specialize (Hinv Hstep
    (Z.to_nat (max_records - total_processed (start_state state)))
    (initial_locals configuration limit (start_state state)) [] w).
  cbn [app] in Hinv.
  assert (Hstart : inv (initial_locals configuration limit (start_state state)) []).
  { unfold inv, initial_locals, initial_params. cbn [l_params l_skip].
    split; [destruct (incremental_since _ _); reflexivity|].
    split; [simpl; lia|reflexivity]. }
  specialize (Hinv Hstart).
  destruct (sync_loop env _ max_records _ w) as [l evs w1|e evs w1|];
    [|rewrite Hout|contradiction].
  - destruct Hinv as (_ & Hskip & Hmap).
    destruct Hout as (_ & [(c & w2 & _ & ->)|(e & ->)]).
    + rewrite !checkpoints_app, (silent_checkpoints head Hhead).
      cbn [app checkpoints]. eexists (checkpoints evs), _.
      split; [reflexivity|]. split; [assumption|].
      cbn [last_cursor]. now rewrite Hskip.
    + rewrite !checkpoints_app, (silent_checkpoints head Hhead).
      cbn [app checkpoints]. now rewrite app_nil_r.
  - rewrite !checkpoints_app, (silent_checkpoints head Hhead).
    cbn [app checkpoints]. now rewrite app_nil_r.
Qed.

Lemma sum_Z_app l1 l2 : sum_Z (l1 ++ l2) = sum_Z l1 + sum_Z l2.
Proof. induction l1 as [|x l1 IH]; simpl; [reflexivity|]. unfold sum_Z in *. simpl. lia. Qed.

(** X13. Accounting and the record cap.  In a run that ends normally
    the [total_processed] of the final checkpoint is the one of the
    input state plus the sizes of the pages it processed, and every
    processed page was started while the running total was below
    [max_records]: the total can pass the cap by less than its last
    page. *)
Theorem total_processed_accounting (configuration : dict string)
  (state : option SyncState) (w : World) (limit max_records : Z) :
  read_configuration env configuration = inr (limit, max_records) ->
  match update env configuration state w with
  | Return _ evs _ =>
      let t0 := total_processed (start_state state) in
      let batches := processed_batches evs in
      (exists before final,
         checkpoints evs = before ++ [final] /\
         total_processed final = t0 + sum_Z batches) /\
      Forall (fun b => 1 <= b) batches /\
      (forall i, (i < List.length batches)%nat ->
                 t0 + sum_Z (firstn i batches) < max_records)
  | _ => True
  end.
Proof.
  intros Hcfg.
  pose proof (update_outcome env configuration state w limit max_records Hcfg)
    as Hout.
  cbv zeta in Hout.
  pose proof (head_silent (configured_sync_mode configuration)
                (last_sync_date (start_state state))) as Hhead.
  set (head := [EvLog Info MsgStartingSync; _]) in *.
  set (t0 := total_processed (start_state state)).
  set (inv := fun (l : Locals) (acc : list event) =>
    l_total_processed l = t0 + sum_Z (processed_batches acc) /\
    Forall (fun b => 1 <= b) (processed_batches acc) /\
    (forall i, (i < List.length (processed_batches acc))%nat ->
               t0 + sum_Z (firstn i (processed_batches acc)) < max_records)).
  pose proof (sync_loop_invariant env max_records inv inv (fun _ _ => True)) as Hinv.
  specialize (Hinv ltac:(auto)).
  assert (Hpage : forall l acc (rs : list value),
    inv l acc -> l_total_processed l < max_records -> rs <> [] ->
    forall l',
      l_total_processed l' = l_total_processed l + Z.of_nat (List.length rs) ->
      inv l' (acc ++ [EvLog Info (MsgProcessed (Z.of_nat (List.length rs)) 0)])).
  { intros l acc rs (Htot & Hpos & Hcap) Hlt Hne l' Hl'. unfold inv.
    rewrite processed_batches_app. cbn [processed_batches].
    split; [|split].
    - rewrite sum_Z_app. unfold sum_Z at 2. simpl. lia.
    - apply Forall_app. split; [assumption|]. repeat constructor.
      destruct rs; [contradiction|]. simpl List.length. lia.
    - intros i Hi. rewrite length_app in Hi. simpl in Hi.
      destruct (Nat.lt_ge_cases i (List.length (processed_batches acc)))
        as [Hin|Hout'].
      + rewrite firstn_app.
        replace (i - List.length (processed_batches acc))%nat with 0%nat by lia.
        simpl. rewrite app_nil_r. now apply Hcap.
      + assert (i = List.length (processed_batches acc)) by lia. subst i.
        rewrite firstn_app, firstn_all, Nat.sub_diag. simpl.
        rewrite app_nil_r. lia. }
  assert (Hstep : forall l acc w0,
    inv l acc -> l_total_processed l < max_records ->
    match loop_body env l w0 with
    | Return (Continue l') evs _ | Return (Break l') evs _ => inv l' (acc ++ evs)
    | Raise _ _ _ => True
    | OutOfFuel => True
    end).
  { intros l acc w0 HP Hlt. pose proof (loop_body_spec env l w0) as Hb.
    destruct (loop_body env l w0) as [[l'|l'] evs w1|e evs w1|]; auto.
    - destruct Hb as (rs & c & Hne & _ & _ & _ & _ & _ & Hpb & Htot & _).
      specialize (Hpage l acc rs HP Hlt Hne l' Htot).
      unfold inv in *. rewrite processed_batches_app in *. rewrite Hpb.
      exact Hpage.
    - destruct Hb as (_ & _ & _ & _ & _ & _ & Hcases).
      destruct Hcases as [(_ & Hpb & Htot & _)|(rs & Hne & _ & _ & Hpb & Htot & _)].
      + unfold inv in *. rewrite processed_batches_app, Hpb, app_nil_r, Htot.
        exact HP.
      + specialize (Hpage l acc rs HP Hlt Hne l' Htot).
        unfold inv in *. rewrite processed_batches_app in *. rewrite Hpb.
        exact Hpage. }
  specialize (Hinv Hstep
    (Z.to_nat (max_records - total_processed (start_state state)))
    (initial_locals configuration limit (start_state state)) [] w).
  cbn [app] in Hinv.
  assert (Hstart : inv (initial_locals configuration limit (start_state state)) []).
  { unfold inv, initial_locals. cbn [l_total_processed processed_batches].
    split; [unfold sum_Z; simpl; lia|]. split; [constructor|].
    intros i Hi. simpl in Hi. lia. }
  specialize (Hinv Hstart).
  destruct (sync_loop env _ max_records _ w) as [l evs w1|e evs w1|];
    [|rewrite Hout; exact I|contradiction].
  destruct Hinv as (Htot & Hpos & Hcap).
  destruct Hout as (_ & [(c & w2 & _ & ->)|(e & ->)]); [|exact I].
  cbv zeta.
  assert (Hpb : processed_batches
                  (head ++ evs ++
                   [EvCheckpoint (mkSyncState (Some c) (l_total_processed l)
                                              (Some (l_skip l)));
                    EvLog Info (MsgSyncCompleted (l_total_processed l))])
                = processed_batches evs).
  { rewrite !processed_batches_app, (silent_processed_batches head Hhead).
    cbn [app processed_batches]. now rewrite app_nil_r. }
  rewrite Hpb. split; [|split; assumption].
  rewrite !checkpoints_app, (silent_checkpoints head Hhead).
  cbn [app checkpoints]. eexists (checkpoints evs), _.
  split; [reflexivity|]. exact Htot.
Qed.

End RunMore.

Lemma last_cursor_offsets_witness :
  exists per_page final,
    checkpoints (events_of growing_run) = per_page ++ [final] /\
    map last_cursor per_page = offsets (Z.min 1 1000) (List.length per_page) /\
    last_cursor final = Some (Z.min 1 1000 * Z.of_nat (List.length per_page)).
Proof.
  pose proof (last_cursor_offsets growing_env demo_config None w0 1 10000 eq_refl)
    as H.
  fold growing_run in H.
  assert (Hrun : growing_run = Return tt (events_of growing_run) (mkWorld 3 3))
    by (vm_compute; reflexivity).
  rewrite Hrun in H. exact H.
Defined.

Lemma total_processed_accounting_witness :
  (exists before final,
     checkpoints (events_of growing_run) = before ++ [final] /\
     total_processed final = 0 + sum_Z (processed_batches (events_of growing_run))) /\
  Forall (fun b => 1 <= b) (processed_batches (events_of growing_run)) /\
  (forall i, (i < List.length (processed_batches (events_of growing_run)))%nat ->
             0 + sum_Z (firstn i (processed_batches (events_of growing_run)))
             < 10000).
Proof.
  pose proof (total_processed_accounting growing_env demo_config None w0 1 10000
                eq_refl) as H.
  fold growing_run in H.
  assert (Hrun : growing_run = Return tt (events_of growing_run) (mkWorld 3 3))
    by (vm_compute; reflexivity).
  rewrite Hrun in H. exact H.
Defined.

(* ================================================================== *)
(** ** What the events of a run look like *)
(* ================================================================== *)

Section EmitsRules.

Context {A B : Type}.

Variable P : event -> Prop.

Lemma emits_ret (a : A) (Q : A -> Prop) : Q a -> emits P (ret a) Q.
Proof. intros HQ w. simpl. auto. Qed.

Lemma emits_raise (e : exn) (Q : A -> Prop) : emits P (raise e) Q.
Proof. intros w. simpl. auto. Qed.

Lemma emits_lift (r : exn + A) : emits P (lift r) (fun _ => True).
Proof. destruct r; [apply emits_raise|now apply emits_ret]. Qed.

Lemma emits_bind (m : M A) (f : A -> M B) (Q1 : A -> Prop) (Q : B -> Prop) :
  emits P m Q1 -> (forall a, Q1 a -> emits P (f a) Q) -> emits P (bind m f) Q.
Proof.
  intros Hm Hf w. unfold bind. specialize (Hm w).
  destruct (m w) as [a evs w1|e evs w1|]; [|assumption|exact I].
  destruct Hm as [Hevs Ha]. specialize (Hf a Ha w1).
  destruct (f a w1) as [b evs' w2|e evs' w2|]; [| |exact I].
  - destruct Hf as [Hevs' Hb]. split; [apply Forall_app; auto|assumption].
  - apply Forall_app; auto.
Qed.

Lemma emits_weaken (m : M A) (Q Q' : A -> Prop) :
  emits P m Q -> (forall a, Q a -> Q' a) -> emits P m Q'.
Proof.
  intros Hm HQ w. specialize (Hm w).
  destruct (m w); auto. destruct Hm; auto.
Qed.

End EmitsRules.

Lemma emits_emit (P : event -> Prop) (ev : event) :
  P ev -> emits P (emit ev) (fun _ => True).
Proof. intros HP w. simpl. auto. Qed.

Lemma forallb_is_dict_value (rs : list value) :
  forallb is_dict_value rs = true -> exists ds, rs = map VDict ds.
Proof.
  induction rs as [|r rs IH]; simpl; intros H; [now exists []|].
  apply andb_prop in H as [Hr Hrs]. destruct (IH Hrs) as [ds ->].
  destruct r; try discriminate. now exists (d :: ds).
Qed.

Section RunShape.

Variable env : Env.
Variable api_key : option string.
Variable size : Z.
Variable search : option string.

Local Abbreviation shape := (run_event env api_key size search).

Lemma emits_now_iso : emits shape (now_iso env) (fun _ => True).
Proof. intros w. simpl. auto. Qed.

Lemma emits_retry_attempts params todo :
  params_ok api_key size search params ->
  forall attempt,
    0 <= attempt ->
    emits shape (retry_attempts env todo attempt base_url params 3) (fun _ => True).
Proof.
  intros Hparams. induction todo as [|todo IH]; intros attempt Ha w.
  - simpl. auto.
  - rewrite retry_attempts_step. cbv zeta.
    assert (Hget : forall a, shape (EvGet base_url params a))
      by (intros a; simpl; auto).
    destruct (attempt_error (http_get env (calls w) params)) as [e|].
    + destruct (attempt <? 3 - 1) eqn:Hlt.
      * apply Z.ltb_lt in Hlt.
        assert (Hsleep : shape (EvSleep (inject_Z (2 ^ attempt)))).
        { simpl. assert (attempt = 0 \/ attempt = 1) as [->| ->] by lia; auto. }
        specialize (IH (attempt + 1) ltac:(lia)
                       {| calls := S (calls w); reads := reads w |}).
        destruct (retry_attempts env todo (attempt + 1) base_url params 3 _)
          as [r evs w'|e' evs w'|]; cbn [prepend]; [|auto|exact I].
        -- destruct IH as [Hevs _]. split; [|exact I].
           repeat (constructor; [solve [auto | exact I]|]). assumption.
        -- repeat (constructor; [solve [auto | exact I]|]). assumption.
      * constructor; [apply Hget|]. repeat constructor.
    + destruct (http_get env (calls w) params) as [msg|r]; [constructor|].
      split; [|exact I]. constructor; [apply Hget|constructor].
Qed.

Lemma emits_process records :
  emits shape (process_food_enforcement_records env records) (fun _ => True).
Proof.
  intros w. pose proof (process_food_enforcement_records_spec env records w) as H.
  destruct (process_food_enforcement_records env records w) as [n evs w'|e evs w'|]
    eqn:Hrun; [|subst; constructor|exact I].
  destruct H as (_ & rs & Hiter & Hdicts & _). split; [|exact I].
  destruct (forallb_is_dict_value rs Hdicts) as [ds ->].
  rewrite (process_food_enforcement_records_rows env records ds w Hiter) in Hrun.
  injection Hrun as _ <- _.
  apply Forall_app. split.
  - clear. generalize (reads w). induction ds as [|d ds IH]; intros n; simpl;
      constructor; [|apply IH].
    simpl. split; [reflexivity|]. now exists d, (utc_now env n).
  - destruct ds; repeat constructor.
Qed.

Lemma emits_get_latest_report_date records :
  emits shape (get_latest_report_date env records) (fun _ => True).
Proof.
  unfold get_latest_report_date.
  eapply emits_bind; [apply emits_lift|]. intros rs _.
  eapply emits_bind; [apply emits_lift|]. intros latest _.
  destruct latest as [d|]; [destruct (String.eqb d "")|];
    try apply emits_now_iso; now apply emits_ret.
Qed.

Lemma emits_checkpoint latest total skip :
  emits shape (checkpoint (mkSyncState (Some latest) total (Some skip)))
        (fun _ => True).
Proof. apply emits_emit. simpl. split; discriminate. Qed.

Lemma emits_loop_body l :
  params_ok api_key size search (l_params l) ->
  emits shape (loop_body env l)
        (fun r => params_ok api_key size search (l_params (locals_of r))).
Proof.
  intros Hl. unfold loop_body.
  set (params := if l_skip l >? 0 then _ else _).
  assert (Hparams : params_ok api_key size search params).
  { subst params. destruct (l_skip l >? 0) eqn:Hskip; [|assumption].
    destruct Hl as (Hk & Hs & Hq & _). repeat split; auto.
    right. exists (l_skip l). split; [lia|reflexivity]. }
  eapply emits_bind; [apply emits_emit; exact I|]. intros _ _.
  eapply emits_bind;
    [apply (emits_retry_attempts params 3 Hparams 0); lia|].
  intros response _.
  assert (Hnone : forall l0,
    l_params l0 = params ->
    emits shape (no_response l0)
          (fun r => params_ok api_key size search (l_params (locals_of r)))).
  { intros l0 Hl0. unfold no_response.
    eapply emits_bind; [apply emits_emit; exact I|]. intros _ _.
    apply emits_ret. simpl. now rewrite Hl0. }
  destruct response as [r|]; [|now apply Hnone].
  destruct (negb (response_ok r)); [now apply Hnone|].
  unfold response_json.
  eapply emits_bind;
    [destruct (json_body r);
     [apply emits_ret; exact I | apply (emits_raise shape _ (fun _ => True))]|].
  intros data _. unfold data_get_results.
  eapply emits_bind;
    [destruct data;
     first [apply emits_ret; exact I | apply (emits_raise shape _ (fun _ => True))]|].
  intros results _.
  assert (Hnomore :
    emits shape
      (log Info MsgNoMoreResults ;;
       ret (Break (mkLocals params (l_skip l) (l_current_batch_processed l)
                            (l_total_processed l) (Some data))))
      (fun r => params_ok api_key size search (l_params (locals_of r)))).
  { eapply emits_bind; [apply emits_emit; exact I|]. intros _ _.
    now apply emits_ret. }
  destruct results as [records|]; [|exact Hnomore].
  destruct (negb (truthy records)); [exact Hnomore|].
  eapply emits_bind; [apply emits_process|]. intros batch_processed _.
  eapply emits_bind; [apply emits_emit; exact I|]. intros _ _.
  eapply emits_bind; [apply emits_lift|]. intros n _.
  destruct (n <? p_limit params).
  - eapply emits_bind; [apply emits_emit; exact I|]. intros _ _.
    now apply emits_ret.
  - eapply emits_bind; [apply emits_get_latest_report_date|]. intros latest _.
    eapply emits_bind; [apply emits_checkpoint|]. intros _ _.
    eapply emits_bind; [apply emits_emit; simpl; auto|]. intros _ _.
    now apply emits_ret.
Qed.

Lemma emits_sync_loop max_records fuel :
  forall l,
    params_ok api_key size search (l_params l) ->
    emits shape (sync_loop env fuel max_records l) (fun _ => True).
Proof.
  induction fuel as [|fuel IH]; intros l Hl; simpl.
  - destruct (l_total_processed l <? max_records); [intros w; exact I|].
    now apply emits_ret.
  - destruct (l_total_processed l <? max_records); [|now apply emits_ret].
    eapply emits_bind; [apply emits_loop_body; assumption|].
    intros [l'|l'] Hl'; [now apply IH|now apply emits_ret].
Qed.

Lemma emits_final_checkpoint l :
  emits shape (final_checkpoint env l) (fun _ => True).
Proof.
  unfold final_checkpoint.
  eapply emits_bind with (Q1 := fun _ => True).
  - destruct (l_data l) as [data|]; [|apply emits_now_iso].
    unfold data_get_results.
    eapply emits_bind with (Q1 := fun _ => True).
    + destruct data;
        first [apply emits_ret; exact I
              | apply (emits_raise shape _ (fun _ => True))].
    + intros results _. destruct results as [records|]; [|apply emits_now_iso].
      destruct (truthy records);
        [apply emits_get_latest_report_date|apply emits_now_iso].
  - intros latest _.
    eapply emits_bind; [apply emits_checkpoint|]. intros _ _.
    apply emits_emit. exact I.
Qed.

End RunShape.

Section RunEvents.

Variable env : Env.

(** Every event of a run of [update] has the shape of the run. *)
Lemma update_events configuration state w :
  Forall (run_event env (dict_get "api_key" configuration)
            (match read_configuration env configuration with
             | inr (limit, _) => Z.min limit 1000
             | inl _ => 0
             end)
            (search_filter (configured_sync_mode configuration)
               (last_sync_date (start_state state))))
         (events_of (update env configuration state w)).
Proof.
  rewrite update_eq.
  destruct (read_configuration env configuration) as [e|[limit max_records]].
  { repeat constructor. }
  rewrite update_try_eq.
  set (shape := run_event env _ _ _).
  assert (Hparams : params_ok (dict_get "api_key" configuration)
                      (Z.min limit 1000)
                      (search_filter (configured_sync_mode configuration)
                         (last_sync_date (start_state state)))
                      (initial_params (dict_get "api_key" configuration) limit
                         (configured_sync_mode configuration)
                         (last_sync_date (start_state state)))).
  { unfold initial_params, search_filter.
    destruct (incremental_since _ _); repeat split; auto. }
  assert (Hrun : emits shape
    (bind (sync_loop env
             (Z.to_nat (max_records - total_processed (start_state state)))
             max_records
             (mkLocals (initial_params (dict_get "api_key" configuration) limit
                          (configured_sync_mode configuration)
                          (last_sync_date (start_state state)))
                       0 0 (total_processed (start_state state)) None))
          (final_checkpoint env)) (fun _ => True)).
  { eapply emits_bind; [apply emits_sync_loop; exact Hparams|].
    intros l _. apply emits_final_checkpoint. }
  specialize (Hrun w).
  assert (Hmode : shape (mode_line (configured_sync_mode configuration)
                           (last_sync_date (start_state state)))).
  { unfold mode_line. destruct (incremental_since _ _); exact I. }
  destruct (bind _ _ w) as [[] evs w'|e evs w'|]; simpl.
  - destruct Hrun as [Hevs _]. repeat (constructor; [solve [auto | exact I]|]).
    assumption.
  - repeat (constructor; [solve [auto | exact I]|]).
    apply Forall_app. split; [assumption|]. repeat constructor.
  - constructor.
Qed.

Lemma forall_fetches (P : event -> Prop) (Q : Params * Attempt -> Prop) evs :
  (forall url p a, P (EvGet url p a) -> Q (p, a)) ->
  Forall P evs -> Forall Q (fetches evs).
Proof.
  intros HPQ. induction 1 as [|ev evs Hev _ IH]; simpl; [constructor|].
  destruct ev; try assumption.
  constructor; [eapply HPQ; eassumption|assumption].
Qed.

Lemma forall_sleeps (P : event -> Prop) (Q : Q -> Prop) evs :
  (forall q, P (EvSleep q) -> Q q) -> Forall P evs -> Forall Q (sleeps evs).
Proof.
  intros HPQ. induction 1 as [|ev evs Hev _ IH]; simpl; [constructor|].
  destruct ev; try assumption.
  constructor; [eapply HPQ; eassumption|assumption].
Qed.

Lemma forall_upserts (P : event -> Prop) (Q : string * dict value -> Prop) evs :
  (forall table row, P (EvUpsert table row) -> Q (table, row)) ->
  Forall P evs -> Forall Q (upserts evs).
Proof.
  intros HPQ. induction 1 as [|ev evs Hev _ IH]; simpl; [constructor|].
  destruct ev; try assumption.
  constructor; [eapply HPQ; eassumption|assumption].
Qed.

(** X14. Every request of a run goes to the enforcement endpoint's
    parameters of that run: the configured API key, the page size
    [min(limit, 1000)] (never more than 1000), and one and the same
    date filter, built from the cursor of the input state when the run
    is incremental and absent otherwise; cursors written during the
    run never change the filter.  The offset is absent or positive. *)
Theorem update_requests (configuration : dict string) (state : option SyncState)
  (w : World) (limit max_records : Z) :
  read_configuration env configuration = inr (limit, max_records) ->
  match update env configuration state w with
  | Return _ evs _ | Raise _ evs _ =>
      Forall (fun request =>
                p_api_key (fst request) = dict_get "api_key" configuration /\
                p_limit (fst request) = Z.min limit 1000 /\
                p_limit (fst request) <= 1000 /\
                p_search (fst request)
                  = search_filter (configured_sync_mode configuration)
                      (last_sync_date (start_state state)) /\
                (p_skip (fst request) = None \/
                 exists k, 0 < k /\ p_skip (fst request) = Some k))
             (fetches evs)
  | OutOfFuel => False
  end.
Proof.
  intros Hcfg.
  pose proof (update_events configuration state w) as Hev.
  pose proof (update_total env configuration state w) as Htotal.
  rewrite Hcfg in Hev.
  destruct (update env configuration state w) as [[] evs w'|e evs w'|];
    [| |congruence]; simpl in Hev;
    (eapply forall_fetches; [|exact Hev]);
    intros url p a (_ & Hk & Hs & Hq & Hskip); cbn [fst];
    (repeat split; auto; lia).
Qed.

(** X15. A run never sleeps more than 2 seconds at a time: each call
    of [time.sleep] it makes lasts a quarter of a second (after a page),
    1 second or 2 seconds (between the attempts of a request). *)
Theorem update_sleeps (configuration : dict string) (state : option SyncState)
  (w : World) :
  match update env configuration state w with
  | Return _ evs _ | Raise _ evs _ =>
      Forall (fun q => q = (1 # 4)%Q \/ q = 1%Q \/ q = 2%Q) (sleeps evs)
  | OutOfFuel => False
  end.
Proof.
  pose proof (update_events configuration state w) as Hev.
  pose proof (update_total env configuration state w) as Htotal.
  destruct (update env configuration state w) as [[] evs w'|e evs w'|];
    [| |congruence]; simpl in Hev;
    (eapply forall_sleeps; [|exact Hev]); intros q Hq; exact Hq.
Qed.

(** X16. Every row a run upserts goes to [food_enforcement_records],
    holds no nested value, has distinct keys, has
    [_fivetran_deleted = False] and a string [_fivetran_synced], even
    when the record itself has fields of these names. *)
Theorem update_upserts (configuration : dict string) (state : option SyncState)
  (w : World) :
  match update env configuration state w with
  | Return _ evs _ | Raise _ evs _ =>
      Forall (fun upserted =>
                fst upserted = "food_enforcement_records" /\
                Forall (fun kv => is_scalar (snd kv) = true) (snd upserted) /\
                NoDup (keys (snd upserted)) /\
                dict_get "_fivetran_deleted" (snd upserted) = Some (VBool false) /\
                exists synced,
                  dict_get "_fivetran_synced" (snd upserted) = Some (VStr synced))
             (upserts evs)
  | OutOfFuel => False
  end.
Proof.
  pose proof (update_events configuration state w) as Hev.
  pose proof (update_total env configuration state w) as Htotal.
  assert (Hrow : forall table row,
    run_event env (dict_get "api_key" configuration)
      (match read_configuration env configuration with
       | inr (limit, _) => Z.min limit 1000
       | inl _ => 0
       end)
      (search_filter (configured_sync_mode configuration)
         (last_sync_date (start_state state)))
      (EvUpsert table row) ->
    fst (table, row) = "food_enforcement_records" /\
    Forall (fun kv => is_scalar (snd kv) = true) (snd (table, row)) /\
    NoDup (keys (snd (table, row))) /\
    dict_get "_fivetran_deleted" (snd (table, row)) = Some (VBool false) /\
    exists synced,
      dict_get "_fivetran_synced" (snd (table, row)) = Some (VStr synced)).
  { intros table row (-> & d & synced & ->). cbn [fst snd]. unfold row_of.
    split; [reflexivity|]. split; [|split; [|split]].
    - apply (forall_values_dict_set (fun v => is_scalar v = true)); [reflexivity|].
      apply (forall_values_dict_set (fun v => is_scalar v = true)); [reflexivity|].
      apply flatten_dict_scalar.
    - apply nodup_keys_dict_set, nodup_keys_dict_set, flatten_dict_nodup.
    - apply dict_get_set_same.
    - exists synced. rewrite dict_get_set_other by discriminate.
      apply dict_get_set_same. }
  destruct (update env configuration state w) as [[] evs w'|e evs w'|];
    [| |congruence]; simpl in Hev;
    (eapply forall_upserts; [|exact Hev]); exact Hrow.
Qed.

End RunEvents.

Lemma update_requests_witness :
  Forall (fun request =>
            p_api_key (fst request) = Some "secret" /\
            p_limit (fst request) = Z.min 1 1000 /\
            p_limit (fst request) <= 1000 /\
            p_search (fst request) = None /\
            (p_skip (fst request) = None \/
             exists k, 0 < k /\ p_skip (fst request) = Some k))
         (fetches (events_of growing_run)).
Proof.
  pose proof (update_requests growing_env demo_config None w0 1 10000 eq_refl)
    as H.
  fold growing_run in H.
  assert (Hrun : growing_run = Return tt (events_of growing_run) (mkWorld 3 3))
    by (vm_compute; reflexivity).
  rewrite Hrun in H. exact H.
Defined.

(* ================================================================== *)
(** ** Rows upserted and records counted *)
(* ================================================================== *)

Lemma tally_app evs1 evs2 : tally (evs1 ++ evs2) = tally evs1 + tally evs2.
Proof.
  unfold tally. rewrite upserts_app, processed_batches_app, length_app, sum_Z_app.
  lia.
Qed.

Section TallyRules.

Context {A B : Type}.

Lemma tallies_ret z (a : A) (Q : A -> Z -> Prop) : Q a z -> tallies z (ret a) Q.
Proof. intros HQ w. simpl. unfold tally. simpl. now rewrite Z.add_0_r. Qed.

Lemma tallies_raise (e : exn) (Q : A -> Z -> Prop) : tallies 0 (raise e) Q.
Proof. intros w. reflexivity. Qed.

Lemma tallies_lift (r : exn + A) : tallies 0 (lift r) (fun _ z => z = 0).
Proof. destruct r; [apply tallies_raise|now apply tallies_ret]. Qed.

Lemma tallies_bind z (m : M A) (f : A -> M B) (Q1 : A -> Z -> Prop)
  (Q : B -> Z -> Prop) :
  tallies z m Q1 -> (forall a z', Q1 a z' -> tallies z' (f a) Q) ->
  tallies z (bind m f) Q.
Proof.
  intros Hm Hf w. unfold bind. specialize (Hm w).
  destruct (m w) as [a evs w1|e evs w1|]; [|assumption|exact I].
  specialize (Hf a _ Hm w1).
  destruct (f a w1) as [b evs' w2|e evs' w2|]; [| |exact I];
    rewrite tally_app, Z.add_assoc; assumption.
Qed.

End TallyRules.

Lemma tallies_log lvl msg :
  match msg with MsgProcessed _ _ => False | _ => True end ->
  tallies 0 (log lvl msg) (fun _ z => z = 0).
Proof. intros Hmsg w. destruct msg; try contradiction; reflexivity. Qed.

Section TallyRun.

Variable env : Env.

Lemma tallies_now_iso : tallies 0 (now_iso env) (fun _ z => z = 0).
Proof. intros w. reflexivity. Qed.

Lemma tallies_retry_attempts url params max_retries todo :
  forall attempt,
    tallies 0 (retry_attempts env todo attempt url params max_retries)
            (fun _ z => z = 0).
Proof.
  induction todo as [|todo IH]; intros attempt w.
  - reflexivity.
  - rewrite retry_attempts_step. cbv zeta.
    destruct (attempt_error (http_get env (calls w) params)) as [e|].
    + destruct (attempt <? max_retries - 1); [|reflexivity].
      specialize (IH (attempt + 1) {| calls := S (calls w); reads := reads w |}).
      destruct (retry_attempts env todo (attempt + 1) url params max_retries _)
        as [r evs w'|e' evs w'|]; cbn [prepend]; [| |exact I];
        rewrite (tally_app [_; _; _; _] evs); exact IH.
    + destruct (http_get env (calls w) params); reflexivity.
Qed.

Lemma tallies_process records :
  tallies 0 (process_food_enforcement_records env records) (fun n z => z = n).
Proof.
  intros w. pose proof (process_food_enforcement_records_spec env records w) as H.
  destruct (process_food_enforcement_records env records w) as [n evs w'|e evs w'|]
    eqn:Hrun; [|subst; reflexivity|exact I].
  destruct H as (_ & rs & Hiter & Hdicts & _).
  destruct (forallb_is_dict_value rs Hdicts) as [ds ->].
  rewrite (process_food_enforcement_records_rows env records ds w Hiter) in Hrun.
  injection Hrun as <- <- _.
  unfold tally. rewrite upserts_app, processed_batches_app, upserts_map_upsert.
  rewrite (silent_processed_batches _ (silent_upserts _)), length_app, length_map.
  assert (Hlen : forall l n, List.length (rows_from env l n) = List.length l)
    by (induction l; intros; simpl; auto).
  rewrite Hlen.
  destruct ds; cbn [upserts processed_batches app]; unfold sum_Z;
    cbn [fold_right]; cbn [List.length];
    rewrite ?Nat.add_0_r, ?Z.sub_0_r, ?Z.add_0_l; reflexivity.
Qed.

Lemma tallies_get_latest_report_date records :
  tallies 0 (get_latest_report_date env records) (fun _ z => z = 0).
Proof.
  unfold get_latest_report_date.
  eapply tallies_bind; [apply tallies_lift|]. intros rs z ->.
  eapply tallies_bind; [apply tallies_lift|]. intros latest z ->.
  destruct latest as [d|]; [destruct (String.eqb d "")|];
    try apply tallies_now_iso; now apply tallies_ret.
Qed.

Lemma tallies_emit_other ev :
  upserts [ev] = [] -> processed_batches [ev] = [] ->
  tallies 0 (emit ev) (fun _ z => z = 0).
Proof. intros Hu Hp w. simpl. unfold tally. now rewrite Hu, Hp. Qed.

Lemma tallies_loop_body l : tallies 0 (loop_body env l) (fun _ z => z = 0).
Proof.
  unfold loop_body.
  set (params := if l_skip l >? 0 then _ else _).
  eapply tallies_bind; [apply tallies_log; exact I|]. intros _ z ->.
  eapply tallies_bind; [apply tallies_retry_attempts|]. intros response z ->.
  assert (Hnone : forall l0, tallies 0 (no_response l0) (fun _ z => z = 0)).
  { intros l0. unfold no_response.
    eapply tallies_bind; [apply tallies_log; exact I|]. intros _ z ->.
    now apply tallies_ret. }
  destruct response as [r|]; [|apply Hnone].
  destruct (negb (response_ok r)); [apply Hnone|].
  unfold response_json.
  eapply tallies_bind with (Q1 := fun _ z => z = 0);
    [destruct (json_body r); [now apply tallies_ret|apply tallies_raise]|].
  intros data z ->. unfold data_get_results.
  eapply tallies_bind with (Q1 := fun _ z => z = 0);
    [destruct data; first [now apply tallies_ret | apply tallies_raise]|].
  intros results z ->.
  assert (Hnomore : forall l0,
    tallies 0 (log Info MsgNoMoreResults ;; ret (Break l0)) (fun _ z => z = 0)).
  { intros l0. eapply tallies_bind; [apply tallies_log; exact I|]. intros _ z ->.
    now apply tallies_ret. }
  destruct results as [records|]; [|apply Hnomore].
  destruct (negb (truthy records)); [apply Hnomore|].
  eapply tallies_bind; [apply tallies_process|]. intros batch_processed z ->.
  eapply tallies_bind with (Q1 := fun _ z => z = 0).
  { intros w. simpl. unfold tally, sum_Z. simpl. lia. }
  intros _ z ->.
  eapply tallies_bind; [apply tallies_lift|]. intros n z ->.
  destruct (n <? p_limit params).
  - eapply tallies_bind; [apply tallies_log; exact I|]. intros _ z ->.
    now apply tallies_ret.
  - eapply tallies_bind; [apply tallies_get_latest_report_date|]. intros latest z ->.
    eapply tallies_bind; [apply tallies_emit_other; reflexivity|]. intros _ z ->.
    eapply tallies_bind; [apply tallies_emit_other; reflexivity|]. intros _ z ->.
    now apply tallies_ret.
Qed.

Lemma tallies_sync_loop max_records fuel :
  forall l, tallies 0 (sync_loop env fuel max_records l) (fun _ z => z = 0).
Proof.
  induction fuel as [|fuel IH]; intros l; simpl.
  - destruct (l_total_processed l <? max_records); [intros w; exact I|].
    now apply tallies_ret.
  - destruct (l_total_processed l <? max_records); [|now apply tallies_ret].
    eapply tallies_bind; [apply tallies_loop_body|].
    intros [l'|l'] z ->; [apply IH|now apply tallies_ret].
Qed.

Lemma tallies_final_checkpoint l :
  tallies 0 (final_checkpoint env l) (fun _ z => z = 0).
Proof.
  unfold final_checkpoint.
  eapply tallies_bind with (Q1 := fun _ z => z = 0).
  - destruct (l_data l) as [data|]; [|apply tallies_now_iso].
    unfold data_get_results.
    eapply tallies_bind with (Q1 := fun _ z => z = 0).
    + destruct data; first [now apply tallies_ret | apply tallies_raise].
    + intros results z ->. destruct results as [records|]; [|apply tallies_now_iso].
      destruct (truthy records);
        [apply tallies_get_latest_report_date|apply tallies_now_iso].
  - intros latest z ->.
    eapply tallies_bind; [apply tallies_emit_other; reflexivity|]. intros _ z ->.
    apply tallies_log. exact I.
Qed.

(** X17. In every run, however it ends, the number of rows upserted is
    the sum of the batch sizes reported as processed: a record counts
    as processed exactly when its row was upserted. *)
Theorem upserts_match_processed (configuration : dict string)
  (state : option SyncState) (w : World) :
  match update env configuration state w with
  | Return _ evs _ | Raise _ evs _ =>
      Z.of_nat (List.length (upserts evs)) = sum_Z (processed_batches evs)
  | OutOfFuel => False
  end.
Proof.
  pose proof (update_total env configuration state w) as Htotal.
  assert (Hmain : tally (events_of (update env configuration state w)) = 0).
  { rewrite update_eq.
    destruct (read_configuration env configuration) as [e|[limit max_records]];
      [reflexivity|].
    rewrite update_try_eq.
    assert (Hrun : tallies 0
      (bind (sync_loop env
               (Z.to_nat (max_records - total_processed (start_state state)))
               max_records
               (mkLocals (initial_params (dict_get "api_key" configuration) limit
                            (configured_sync_mode configuration)
                            (last_sync_date (start_state state)))
                         0 0 (total_processed (start_state state)) None))
            (final_checkpoint env)) (fun _ z => z = 0)).
    { eapply tallies_bind; [apply tallies_sync_loop|].
      intros l z ->. apply tallies_final_checkpoint. }
    specialize (Hrun w).
    assert (Hmode : tally [mode_line (configured_sync_mode configuration)
                             (last_sync_date (start_state state))] = 0).
    { unfold mode_line. destruct (incremental_since _ _); reflexivity. }
    destruct (bind _ _ w) as [[] evs w'|e evs w'|]; simpl.
    - change (tally ([EvLog Info MsgStartingSync] ++
                     [mode_line (configured_sync_mode configuration)
                        (last_sync_date (start_state state))] ++ evs) = 0).
      rewrite !tally_app, Hmode. simpl in Hrun. unfold tally at 1. simpl. lia.
    - change (tally ([EvLog Info MsgStartingSync] ++
                     [mode_line (configured_sync_mode configuration)
                        (last_sync_date (start_state state))] ++ evs ++
                     [EvLog Severe (MsgSyncFailed e)]) = 0).
      rewrite !tally_app, Hmode. simpl in Hrun.
      unfold tally at 1. unfold tally at 2. simpl. lia.
    - reflexivity. }
  unfold tally in Hmain.
  destruct (update env configuration state w) as [[] evs w'|e evs w'|];
    [| |congruence]; simpl in Hmain; lia.
Qed.

End TallyRun.
